(** * Personal AI Employee (Bronze Tier): watcher and orchestrator

    A shallow embedding of [scripts/filesystem_watcher.py] and
    [scripts/orchestrator.py], and the properties of the folder-based task
    lifecycle that hold (or fail) on it.

    Layout:
    - [Py]      exceptions, results, and the state/journal/exception monad in
                which the methods are written;
    - [Text]    the string operations the scripts use (prefix, suffix match,
                replace, lower, number formatting, encoding as UTF-8);
    - [Clock]   [datetime] values with [strftime] and [isoformat];
    - [FS]      the vault as a tree of directories and text files, with the
                [pathlib] calls the scripts make ([mkdir], [write_text],
                [open(.., 'a')], [glob]) and the errors of a POSIX system;
    - [Watcher] [FileDropHandler];
    - [Orch]    [Orchestrator];
    - [Sample]  concrete vaults, events and cycles for the examples;
    - lemmas on strings, on each method and on the file system;
    - the claims C1 to C10;
    - further properties of the two scripts, X1 to X24.

    What the program cannot decide for itself (whether the dropped file can
    still be read, what the clock says, whether a child process exits) is an
    argument of the method that asks: the theorems quantify over all such
    answers. *)

From stdpp Require Import gmap strings list fin_maps.
From Stdlib Require Import Ascii String DecimalString.

Local Open Scope string_scope.

(* ===================================================================== *)
(** ** Python control flow *)
(* ===================================================================== *)

Module Py.

(** The exceptions the scripts can meet.  All of them derive from
    [Exception]; the first seven are [OSError] or derive from it
    ([SameFileError] is [shutil]'s), and [UnicodeEncodeError] derives from
    [ValueError]. *)
Inductive exn : Type :=
  | FileNotFoundError
  | FileExistsError
  | NotADirectoryError
  | IsADirectoryError
  | PermissionError
  | SameFileError
  | OSError
  | TimeoutExpired
  | ValueError
  | UnicodeEncodeError
  | OverflowError
  | UnboundLocalError.

Definition is_FileNotFoundError (e : exn) : bool :=
  match e with FileNotFoundError => true | _ => false end.

Definition is_TimeoutExpired (e : exn) : bool :=
  match e with TimeoutExpired => true | _ => false end.

(** [except ValueError] *)
Definition is_ValueError (e : exn) : bool :=
  match e with ValueError | UnicodeEncodeError => true | _ => false end.

Inductive res (A : Type) : Type :=
  | Ret (a : A)
  | Raise (e : exn).
Arguments Ret {A} a.
Arguments Raise {A} e.

Inductive level : Type := DEBUG | INFO | WARNING | ERROR.

(** A path is the list of its components, innermost first: [name] is the
    head and [parent] the tail; the root is [[]]. *)
Abbreviation path := (list string).

(** What a method does to the outside, in the order it does it.  The
    journal is how the theorems speak about "a record was written", "the
    stage was scanned" or "the process was killed". *)
Inductive action : Type :=
  | OpenRead (p : path)              (* open(p, 'rb').read() attempted *)
  | Stat (p : path)                  (* p.stat() or p.exists() attempted *)
  | Sleep (ms : nat)                 (* time.sleep *)
  | Wrote (p : path)                 (* p.write_text(..) succeeded *)
  | Appended (p : path)              (* open(p, 'a').write(..) succeeded *)
  | Copied (src dst : path)          (* shutil.copy2 copied src to dst *)
  | Scanned (dir : path)             (* dir.glob('*.md') called *)
  | Spawned (argv : list string) (pid : nat)   (* subprocess.Popen(argv, ..) succeeded *)
  | Terminate (pid : nat)            (* Popen.terminate() *)
  | Waited (pid : nat) (ms : nat)    (* Popen.wait(timeout=..) blocked ms *)
  | Kill (pid : nat)                 (* Popen.kill() *)
  | Log (l : level) (msg : string).  (* logger call; paths and exception
                                        texts are left out of msg *)

(** The outcome of running a method from a state: the state it leaves
    (mutations survive an exception), what it did, and how it ended. *)
Record run (S A : Type) : Type := Run {
  final : S;
  emitted : list action;
  outcome : res A
}.
Arguments Run {S A} _ _ _.
Arguments final {S A} _.
Arguments emitted {S A} _.
Arguments outcome {S A} _.

Definition M (S A : Type) : Type := S -> run S A.

Definition ret {S A} (a : A) : M S A := fun s => Run s [] (Ret a).

Definition raise {S A} (e : exn) : M S A := fun s => Run s [] (Raise e).

Definition bind {S A B} (m : M S A) (k : A -> M S B) : M S B :=
  fun s =>
    match m s with
    | Run s1 e1 (Ret a) =>
        match k a s1 with
        | Run s2 e2 o2 => Run s2 (e1 ++ e2) o2
        end
    | Run s1 e1 (Raise e) => Run s1 e1 (Raise e)
    end.

(** [try: m  except <catches>: h]. An exception the clause does not catch
    goes on. *)
Definition try_except {S A} (m : M S A) (catches : exn -> bool)
    (h : exn -> M S A) : M S A :=
  fun s =>
    match m s with
    | Run s1 e1 (Ret a) => Run s1 e1 (Ret a)
    | Run s1 e1 (Raise e) =>
        if catches e then
          match h e s1 with
          | Run s2 e2 o2 => Run s2 (e1 ++ e2) o2
          end
        else Run s1 e1 (Raise e)
    end.

Definition Exception (_ : exn) : bool := true.

(** [try: m  finally: fin] *)
Definition try_finally {S A} (m : M S A) (fin : M S unit) : M S A :=
  fun s =>
    match m s with
    | Run s1 e1 o1 =>
        match fin s1 with
        | Run s2 e2 (Ret _) => Run s2 (e1 ++ e2) o1
        | Run s2 e2 (Raise e) => Run s2 (e1 ++ e2) (Raise e)
        end
    end.

Definition emit {S} (a : action) : M S unit := fun s => Run s [a] (Ret tt).

Definition get {S} : M S S := fun s => Run s [] (Ret s).

Definition modify {S} (f : S -> S) : M S unit := fun s => Run (f s) [] (Ret tt).

Definition lift_res {S A} (r : res A) : M S A := fun s => Run s [] r.

(** A method [steps R] when every run of it takes the state to one that is
    [R]-related to where it started, however the run ends. *)
Definition steps {S A} (R : S -> S -> Prop) (m : M S A) : Prop :=
  forall s, R s (final (m s)).

(** [for x in xs: body x] *)
Fixpoint for_each {S A} (xs : list A) (body : A -> M S unit) : M S unit :=
  match xs with
  | [] => ret tt
  | x :: xs' => bind (body x) (fun _ => for_each xs' body)
  end.

End Py.

Import Py.

Declare Scope py_scope.
Delimit Scope py_scope with py.
Notation "x <- m ;; k" := (bind m (fun x => k))
  (at level 100, m at next level, right associativity) : py_scope.
Notation "m ;;; k" := (bind m (fun _ => k))
  (at level 100, right associativity) : py_scope.
Local Open Scope py_scope.

(* ===================================================================== *)
(** ** Strings *)
(* ===================================================================== *)

Module Text.

(** [s.startswith(c)] for a one-character [c]. *)
Definition startswith (c : ascii) (s : string) : bool :=
  match s with
  | String a _ => Ascii.eqb a c
  | EmptyString => false
  end.

(** [s.endswith(suf)]: some tail of [s] is [suf]. *)
Fixpoint endswith (suf s : string) : bool :=
  String.eqb s suf ||
  match s with
  | String _ s' => endswith suf s'
  | EmptyString => false
  end.

Fixpoint last_char (s : string) : option ascii :=
  match s with
  | EmptyString => None
  | String c EmptyString => Some c
  | String _ s' => last_char s'
  end.

(** [s.replace(a, b)] for one-character [a] and [b]. *)
Fixpoint replace (a b : ascii) (s : string) : string :=
  match s with
  | EmptyString => EmptyString
  | String c s' => String (if Ascii.eqb c a then b else c) (replace a b s')
  end.

Definition lower_char (c : ascii) : ascii :=
  let n := nat_of_ascii c in
  if (65 <=? n)%nat && (n <=? 90)%nat then ascii_of_nat (n + 32) else c.

Fixpoint lower (s : string) : string :=
  match s with
  | EmptyString => EmptyString
  | String c s' => String (lower_char c) (lower s')
  end.

(** [s.rfind('.')], counted from the start; [None] for -1. *)
Fixpoint rfind_dot (s : string) : option nat :=
  match s with
  | EmptyString => None
  | String c s' =>
      match rfind_dot s' with
      | Some i => Some (S i)
      | None => if Ascii.eqb c "." then Some 0%nat else None
      end
  end.

(** [PurePath.suffix] of a file name: the last dot and what follows it,
    unless that dot is the first or the last character. *)
Definition suffix (name : string) : string :=
  match rfind_dot name with
  | Some i =>
      if (0 <? i)%nat && (i <? String.length name - 1)%nat
      then substring i (String.length name - i) name
      else ""
  | None => ""
  end.

(** [str(n)] and [f'{n}'] for a non-negative integer. *)
Definition decimal (n : N) : string := NilZero.string_of_uint (N.to_uint n).

Definition digit (n : nat) : ascii := ascii_of_nat (48 + n mod 10).

(** [%02d] and [%04d] of a field in range. *)
Definition pad2 (n : nat) : string :=
  String (digit (n / 10)) (String (digit n) "").

Definition pad4 (n : nat) : string :=
  String (digit (n / 1000)) (String (digit (n / 100)) (pad2 n)).

Definition pad6 (n : nat) : string := pad2 (n / 100 / 100) +:+ pad4 n.

(** [f'{n:,}']: the decimal digits in groups of three from the right.
    [group3 k ds] walks the digits from the least significant one, [k]
    being the room left in the current group. *)
Fixpoint group3 (k : nat) (rev_digits : list ascii) : list ascii :=
  match rev_digits with
  | [] => []
  | d :: rest =>
      match k with
      | O => ","%char :: d :: group3 2 rest
      | S k' => d :: group3 k' rest
      end
  end.

Definition thousands (n : N) : string :=
  string_of_list_ascii
    (List.rev (group3 3 (List.rev (list_ascii_of_string (decimal n))))).

(** *** Text as bytes

    A string is the bytes of the text in UTF-8, and a file name is the bytes
    the file system has for it.  Python holds a name that is not UTF-8 with
    lone surrogates in it ([os.fsdecode]), which [str.encode('utf-8')]
    refuses: writing a text to a file opened with [encoding='utf-8'] raises
    [UnicodeEncodeError] exactly when its bytes here are not well-formed
    UTF-8.  [utf8_step] reads one byte: the well-formed sequences are
    00..7F; C2..DF 80..BF; E0 A0..BF 80..BF; E1..EC 80..BF 80..BF;
    ED 80..9F 80..BF; EE..EF 80..BF 80..BF; F0 90..BF 80..BF 80..BF;
    F1..F3 80..BF 80..BF 80..BF; F4 80..8F 80..BF 80..BF. *)
Inductive utf8_state : Type :=
  | Start                               (* between two characters *)
  | Expect (lo hi : nat) (more : nat)   (* a byte in [lo..hi], then [more]
                                           bytes in 80..BF *)
  | Malformed.

Definition in_range (lo hi : nat) (c : ascii) : bool :=
  (lo <=? nat_of_ascii c)%nat && (nat_of_ascii c <=? hi)%nat.

Definition utf8_step (st : utf8_state) (c : ascii) : utf8_state :=
  match st with
  | Malformed => Malformed
  | Expect lo hi more =>
      if in_range lo hi c then
        match more with
        | O => Start
        | S k => Expect 128 191 k
        end
      else Malformed
  | Start =>
      if in_range 0 127 c then Start
      else if in_range 194 223 c then Expect 128 191 0
      else if in_range 224 224 c then Expect 160 191 1
      else if in_range 225 236 c then Expect 128 191 1
      else if in_range 237 237 c then Expect 128 159 1
      else if in_range 238 239 c then Expect 128 191 1
      else if in_range 240 240 c then Expect 144 191 2
      else if in_range 241 243 c then Expect 128 191 2
      else if in_range 244 244 c then Expect 128 143 2
      else Malformed
  end.

Fixpoint utf8_run (st : utf8_state) (s : string) : utf8_state :=
  match s with
  | EmptyString => st
  | String c s' => utf8_run (utf8_step st c) s'
  end.

(** [s.encode('utf-8')] succeeds. *)
Definition encodable (s : string) : bool :=
  match utf8_run Start s with
  | Start => true
  | _ => false
  end.

(** [s.isascii()] *)
Fixpoint ascii_only (s : string) : bool :=
  match s with
  | EmptyString => true
  | String c s' => in_range 0 127 c && ascii_only s'
  end.

End Text.

(* ===================================================================== *)
(** ** Dates and times *)
(* ===================================================================== *)

Module Clock.

(** A [datetime.datetime].  The scripts format with [strftime] only what
    [datetime.now()] gave them, and the clock of no machine reads a year
    before 1970 or after 9999: [%Y] is then the year in four digits, on
    every platform, as [isoformat] gives it for every date. *)
Record datetime : Type := {
  year : nat; month : nat; day : nat;
  hour : nat; minute : nat; second : nat;
  microsecond : nat
}.

(** [d.strftime('%Y%m%d_%H%M%S')] *)
Definition strftime_stamp (d : datetime) : string :=
  Text.pad4 (year d) +:+ Text.pad2 (month d) +:+ Text.pad2 (day d) +:+ "_" +:+
  Text.pad2 (hour d) +:+ Text.pad2 (minute d) +:+ Text.pad2 (second d).

(** [d.strftime('%Y-%m-%d')] *)
Definition strftime_date (d : datetime) : string :=
  Text.pad4 (year d) +:+ "-" +:+ Text.pad2 (month d) +:+ "-" +:+ Text.pad2 (day d).

(** [d.strftime('%Y-%m-%d %H:%M:%S')] *)
Definition strftime_human (d : datetime) : string :=
  strftime_date d +:+ " " +:+
  Text.pad2 (hour d) +:+ ":" +:+ Text.pad2 (minute d) +:+ ":" +:+ Text.pad2 (second d).

(** [d.isoformat()]: the microseconds are left out when they are zero. *)
Definition isoformat (d : datetime) : string :=
  strftime_date d +:+ "T" +:+
  Text.pad2 (hour d) +:+ ":" +:+ Text.pad2 (minute d) +:+ ":" +:+ Text.pad2 (second d) +:+
  match microsecond d with
  | O => ""
  | us => "." +:+ Text.pad6 us
  end.

End Clock.

(* ===================================================================== *)
(** ** The file system *)
(* ===================================================================== *)

Module FS.

Inductive node : Type :=
  | Dir
  | File (data : string).

#[global] Instance node_eq_dec : EqDecision node.
Proof. solve_decision. Defined.

(** The tree maps the paths that exist to what is there.  The root always
    exists and is a directory.  (In the tree of a file system the parent of
    every entry is a directory; the functions are defined, and the theorems
    hold, on every map.)  A regular file holds its text as it was written. *)
Definition node_at (t : gmap path node) (p : path) : option node :=
  match p with
  | [] => Some Dir
  | _ => t !! p
  end.

Definition exists_ (t : gmap path node) (p : path) : bool :=
  match node_at t p with Some _ => true | None => false end.

Definition is_dir (t : gmap path node) (p : path) : bool :=
  match node_at t p with Some Dir => true | _ => false end.

Definition name (p : path) : string :=
  match p with n :: _ => n | [] => "" end.

Definition parent (p : path) : path :=
  match p with _ :: d => d | [] => [] end.

(** [str(p)] for an absolute path. *)
Definition str (p : path) : string :=
  match p with
  | [] => "/"
  | _ => String.concat "" (List.map (fun c => "/" +:+ c) (List.rev p))
  end.

(** Why a folder that is not there cannot be walked into: the nearest
    ancestor that is there is a regular file ([ENOTDIR]), or it is a
    directory and the next component is missing ([ENOENT]). *)
Fixpoint walk_error (t : gmap path node) (d : path) : exn :=
  match d with
  | [] => FileNotFoundError
  | _ :: d' =>
      match node_at t d' with
      | Some (File _) => NotADirectoryError
      | Some Dir => FileNotFoundError
      | None => walk_error t d'
      end
  end.

(** [os.mkdir(p)]: the parent must be a directory and [p] must be new. *)
Definition os_mkdir (p : path) (t : gmap path node) : gmap path node * res unit :=
  match p with
  | [] => (t, Raise FileExistsError)
  | _ :: d =>
      match node_at t d with
      | None => (t, Raise (walk_error t d))
      | Some (File _) => (t, Raise NotADirectoryError)
      | Some Dir =>
          match t !! p with
          | Some _ => (t, Raise FileExistsError)
          | None => (<[p := Dir]> t, Ret tt)
          end
      end
  end.

(** [Path.mkdir(parents=False, exist_ok=exist_ok)]: a missing parent is
    raised as it is; any other [OSError] is forgiven when [exist_ok] is set
    and the path is a directory. *)
Definition mkdir_flat (exist_ok : bool) (p : path) (t : gmap path node)
  : gmap path node * res unit :=
  match os_mkdir p t with
  | (t', Ret u) => (t', Ret u)
  | (t', Raise FileNotFoundError) => (t', Raise FileNotFoundError)
  | (t', Raise e) => if exist_ok && is_dir t' p then (t', Ret tt) else (t', Raise e)
  end.

(** [Path.mkdir(parents=True, exist_ok=True)]: on a missing parent, make
    the parent the same way and try once more without [parents]. *)
Fixpoint mkdir (p : path) (t : gmap path node) {struct p}
  : gmap path node * res unit :=
  match os_mkdir p t with
  | (t', Ret u) => (t', Ret u)
  | (t', Raise FileNotFoundError) =>
      match p with
      | [] => (t', Raise FileNotFoundError)
      | _ :: d =>
          match mkdir d t' with
          | (t1, Ret _) => mkdir_flat true p t1
          | (t1, Raise e) => (t1, Raise e)
          end
      end
  | (t', Raise e) => if is_dir t' p then (t', Ret tt) else (t', Raise e)
  end.

(** [for p in ps: p.mkdir(parents=True, exist_ok=True)], stopping at the
    first exception. *)
Fixpoint mkdir_each (ps : list path) (t : gmap path node)
  : gmap path node * res unit :=
  match ps with
  | [] => (t, Ret tt)
  | p :: ps' =>
      match mkdir p t with
      | (t', Ret _) => mkdir_each ps' t'
      | (t', Raise e) => (t', Raise e)
      end
  end.

(** Opening [p] for writing ([open(p, 'w')], ['wb'] or ['a']): its parent
    must be a directory and [p] must not be one.  The result is what the
    file held, if it was there. *)
Definition open_w (p : path) (t : gmap path node) : res (option string) :=
  match p with
  | [] => Raise IsADirectoryError
  | _ :: d =>
      match node_at t d with
      | None => Raise (walk_error t d)
      | Some (File _) => Raise NotADirectoryError
      | Some Dir =>
          match t !! p with
          | Some Dir => Raise IsADirectoryError
          | Some (File old) => Ret (Some old)
          | None => Ret None
          end
      end
  end.

(** [p.write_text(data, encoding='utf-8')]: the file is created or
    truncated by [open]; then the text is encoded and written.  A text that
    cannot be encoded leaves the file empty. *)
Definition write_text (p : path) (data : string) (t : gmap path node)
  : gmap path node * res unit :=
  match open_w p t with
  | Ret _ =>
      if Text.encodable data then (<[p := File data]> t, Ret tt)
      else (<[p := File ""]> t, Raise UnicodeEncodeError)
  | Raise e => (t, Raise e)
  end.

(** [with open(p, 'a', encoding='utf-8') as f: f.write(data)]: [open]
    creates the file when it is not there; then the text is encoded and
    appended.  A text that cannot be encoded adds nothing. *)
Definition append_text (p : path) (data : string) (t : gmap path node)
  : gmap path node * res unit :=
  match open_w p t with
  | Ret old =>
      if Text.encodable data then (<[p := File (default "" old +:+ data)]> t, Ret tt)
      else (<[p := File (default "" old)]> t, Raise UnicodeEncodeError)
  | Raise e => (t, Raise e)
  end.

(** [fnmatch(name, '*.md')] as [Path.glob] applies it: with no regard to
    case on Windows.  Only [M] and [D] lower to [m] and [d], so lowering
    the ASCII letters is enough. *)
Definition fnmatch_md (windows : bool) (n : string) : bool :=
  Text.endswith ".md" (if windows then Text.lower n else n).

(** [list(d.glob('*.md'))] for a directory that can be listed: the entries
    directly under [d] whose name matches, in listing order; nothing when
    [d] is not a directory. *)
Definition glob_md (windows : bool) (d : path) (t : gmap path node) : list path :=
  if is_dir t d then
    List.filter
      (fun p => bool_decide (p <> [] /\ parent p = d) && fnmatch_md windows (name p))
      (List.map fst (map_to_list t))
  else [].

End FS.

Import Clock.

(* ===================================================================== *)
(** ** filesystem_watcher.py: [FileDropHandler] *)
(* ===================================================================== *)

Module Watcher.

(** The fields of [os.stat_result] the handler reads. *)
Record stat_result : Type := {
  st_size : N;
  st_ctime : Z;
  st_mtime : Z
}.

(** The library functions the handler only passes values through. *)
Record runtime : Type := {
  md5_hexdigest : string -> string;      (* hashlib.md5(data).hexdigest() *)
  str_float : Z -> string;               (* str(st_mtime) *)
  fromtimestamp : Z -> datetime          (* datetime.fromtimestamp *)
}.

(** The dropped file belongs to other processes, which may still be writing
    it, or may have removed it, while the event is handled.  Each access the
    handler makes to it, and each reading of the clock, is therefore answered
    by the outside, one answer per call site. *)
Record outside : Type := {
  open_read : res string;          (* open(file_path, 'rb').read() in _get_file_hash *)
  stat_hash : res stat_result;     (* file_path.stat() in _get_file_hash *)
  stat_meta : res stat_result;     (* source.stat() in _create_action_file *)
  copy_open : res unit;            (* shutil.copy2 looking at the source and
                                      opening it *)
  copy_data : string * option exn; (* what shutil.copy2 got across to the copy,
                                      and the error that stopped it, if any *)
  copy_stat : res unit;            (* shutil.copy2 setting times and mode of the copy *)
  now_stamp : datetime;            (* datetime.now() for the file name *)
  now_default : datetime;          (* datetime.now() in the except branch *)
  now_detected : datetime;         (* datetime.now() for 'detected:' *)
  now_body : datetime              (* datetime.now() for '**Detected**' *)
}.

(** A [watchdog] creation event. *)
Record event : Type := {
  is_directory : bool;
  src_path : path
}.

Record FileDropHandler : Type := {
  vault_path : path;
  drop_path : path;
  needs_action : path;
  processed_files : gset string
}.

(** [FileDropHandler.__init__] *)
Definition init (vault drop : path) : FileDropHandler :=
  {| vault_path := vault;
     drop_path := drop;
     needs_action := "Needs_Action" :: vault;
     processed_files := ∅ |}.

Record world : Type := {
  self : FileDropHandler;
  disk : gmap path FS.node
}.

Definition mark_processed (h : string) (w : world) : world :=
  {| self := {| vault_path := vault_path (self w);
                drop_path := drop_path (self w);
                needs_action := needs_action (self w);
                processed_files := {[ h ]} ∪ processed_files (self w) |};
     disk := disk w |}.

(** [p.write_text(data, encoding='utf-8')] on the world's disk. *)
Definition write_text (p : path) (data : string) : M world unit :=
  fun w =>
    match FS.write_text p data (disk w) with
    | (t, Ret u) => Run {| self := self w; disk := t |} [Wrote p] (Ret u)
    | (t, Raise e) => Run {| self := self w; disk := t |} [] (Raise e)
    end.

(** Where [shutil.copy2(src, dst)] writes: into [dst] under the name of the
    source when [dst] is a directory, else at [dst]. *)
Definition copy_target (src dst : path) (t : gmap path FS.node) : path :=
  if FS.is_dir t dst then FS.name src :: dst else dst.

(** [shutil.copy2(src, dst)]: refuse to copy a file onto itself, open the
    source, open the copy, which creates or empties it, and pass the bytes
    across ([copyfile]); then give the copy the times and the mode of the
    source ([copystat]).  A transfer that stops on an error leaves in the
    copy what had got across. *)
Definition copy2 (src dst : path) (io : outside) : M world unit :=
  fun w =>
    let target := copy_target src dst (disk w) in
    if bool_decide (target = src) then Run w [] (Raise SameFileError)
    else
      match copy_open io with
      | Raise e => Run w [] (Raise e)
      | Ret _ =>
          match FS.open_w target (disk w) with
          | Raise e => Run w [] (Raise e)
          | Ret _ =>
              let '(data, stopped) := copy_data io in
              let w' := {| self := self w;
                           disk := <[target := FS.File data]> (disk w) |} in
              match stopped with
              | Some e => Run w' [] (Raise e)
              | None =>
                  Run w' [Copied src target]
                    (match copy_stat io with
                     | Ret _ => Ret tt
                     | Raise e => Raise e
                     end)
              end
          end
      end.

Definition text_extensions : list string :=
  [".txt"; ".md"; ".csv"; ".json"; ".xml"; ".yaml"; ".yml"; ".log"].

Definition is_text_extension (s : string) : bool :=
  bool_decide (s ∈ text_extensions).

(** The markdown the f-string of [_create_action_file] builds. *)
Definition action_content (source_name source_abs : string) (file_size : N)
    (created modified detected detected_body : string) : string :=
  "---
type: file_drop
source_file: " +:+ source_name +:+ "
source_path: " +:+ source_abs +:+ "
file_size: " +:+ Text.decimal file_size +:+ "
created: " +:+ created +:+ "
modified: " +:+ modified +:+ "
detected: " +:+ detected +:+ "
status: pending
priority: normal
---

# File Drop for Processing

## Source Information
- **Original File**: `" +:+ source_name +:+ "`
- **Location**: `" +:+ source_abs +:+ "`
- **Size**: " +:+ Text.thousands file_size +:+ " bytes
- **Detected**: " +:+ detected_body +:+ "

## File Content Preview
<!-- AI Employee should read the source file and analyze its contents -->

## Suggested Actions
- [ ] Read and analyze file contents
- [ ] Categorize the file type and purpose
- [ ] Determine required actions
- [ ] Move to appropriate folder after processing
- [ ] Update Dashboard.md with activity

## Notes
<!-- AI Employee or human can add notes here -->

---
*Created by File System Watcher v0.1 (Bronze Tier)*
".

(** [source.name.replace(' ', '_').replace('.', '_')] *)
Definition safe_name (source : path) : string :=
  Text.replace "." "_" (Text.replace " " "_" (FS.name source)).

(** [f'FILE_DROP_{safe_name}_{timestamp}.md'] *)
Definition action_filename (source : path) (timestamp : string) : string :=
  "FILE_DROP_" +:+ safe_name source +:+ "_" +:+ timestamp +:+ ".md".

(** [f'{source.name}_{timestamp}'] *)
Definition copy_filename (source : path) (timestamp : string) : string :=
  FS.name source +:+ "_" +:+ timestamp.

Section Handler.

Variable rt : runtime.

Definition _get_file_hash (file_path : path) (io : outside) : M world string :=
  try_except
    (emit (OpenRead file_path) ;;;
     data <- lift_res (open_read io) ;;
     ret (md5_hexdigest rt data))
    Exception
    (fun _ =>
       emit (Stat file_path) ;;;
       st <- lift_res (stat_hash io) ;;
       ret (str_float rt (st_mtime st))).

Definition _create_action_file (source : path) (io : outside) : M world path :=
  w <- get ;;
  let timestamp := strftime_stamp (now_stamp io) in
  let action_path := action_filename source timestamp :: needs_action (self w) in
  meta <- try_except
            (emit (Stat source) ;;;
             st <- lift_res (stat_meta io) ;;
             ret (st_size st,
                  isoformat (fromtimestamp rt (st_ctime st)),
                  isoformat (fromtimestamp rt (st_mtime st))))
            Exception
            (fun _ =>
               emit (Log WARNING "Could not get file metadata") ;;;
               let created := isoformat (now_default io) in
               ret (0%N, created, created)) ;;
  let '(file_size, created, modified) := meta in
  let content :=
    action_content (FS.name source) (FS.str source) file_size created modified
      (isoformat (now_detected io)) (strftime_human (now_body io)) in
  write_text action_path content ;;;
  emit (Log INFO "Created action file") ;;;
  (if is_text_extension (Text.lower (Text.suffix (FS.name source))) then
     try_except
       (let dest_file := copy_filename source timestamp :: needs_action (self w) in
        copy2 source dest_file io ;;;
        emit (Log INFO "Copied source file"))
       Exception
       (fun _ => emit (Log WARNING "Could not copy source file"))
   else ret tt) ;;;
  ret action_path.

Definition on_created (ev : event) (io : outside) : M world unit :=
  if is_directory ev then ret tt else
  let source := src_path ev in
  file_hash <- _get_file_hash source io ;;
  w <- get ;;
  if bool_decide (file_hash ∈ processed_files (self w)) then
    emit (Log DEBUG "File already processed")
  else if Text.startswith "~" (FS.name source) || Text.startswith "." (FS.name source) then
    emit (Log DEBUG "Skipping temporary/hidden file")
  else if bool_decide (FS.parent source <> drop_path (self w)) then
    emit (Log DEBUG "Skipping file in subdirectory")
  else
    emit (Log INFO "New file detected") ;;;
    try_except
      (emit (Sleep 500) ;;;
       action_path <- _create_action_file source io ;;
       modify (mark_processed file_hash) ;;;
       emit (Log INFO "Successfully processed"))
      Exception
      (fun _ => emit (Log ERROR "Error processing file")).

(** The paths [_create_action_file] computes for the record and for the
    raw copy. *)
Definition record_path (source : path) (io : outside) (w : world) : path :=
  action_filename source (strftime_stamp (now_stamp io)) :: needs_action (self w).

Definition copy_path (source : path) (io : outside) (w : world) : path :=
  copy_filename source (strftime_stamp (now_stamp io)) :: needs_action (self w).

(** Where the copy goes when a directory has the name of the copy. *)
Definition copy_inside (source : path) (io : outside) (w : world) : path :=
  FS.name source :: copy_path source io w.

(** The text [_create_action_file] builds for the record: with the
    metadata of the source, or with the defaults when [stat] fails. *)
Definition record_content (source : path) (io : outside) : string :=
  match stat_meta io with
  | Ret st =>
      action_content (FS.name source) (FS.str source) (st_size st)
        (isoformat (fromtimestamp rt (st_ctime st)))
        (isoformat (fromtimestamp rt (st_mtime st)))
        (isoformat (now_detected io)) (strftime_human (now_body io))
  | Raise _ =>
      action_content (FS.name source) (FS.str source) 0
        (isoformat (now_default io)) (isoformat (now_default io))
        (isoformat (now_detected io)) (strftime_human (now_body io))
  end.

(** The three filters of [on_created], as one test: (a) a directory,
    (b) a temporary or hidden name, (c) not directly in the drop folder. *)
Definition is_hidden (source : path) : bool :=
  Text.startswith "~" (FS.name source) || Text.startswith "." (FS.name source).

Definition is_outside_drop (source : path) (w : world) : bool :=
  bool_decide (FS.parent source <> drop_path (self w)).

Definition filtered_out (ev : event) (w : world) : bool :=
  is_directory ev || is_hidden (src_path ev) || is_outside_drop (src_path ev) w.

(** The actions that put a text or a copy in the vault. *)
Definition is_write (a : action) : bool :=
  match a with
  | Wrote _ | Copied _ _ | Appended _ => true
  | _ => false
  end.


End Handler.

End Watcher.

(* ===================================================================== *)
(** ** filesystem_watcher.py: [FileSystemWatcher] and [main] *)
(* ===================================================================== *)

Module WatcherProc.

Record FileSystemWatcher : Type := {
  vault_path : path;
  drop_path : path;
  check_interval : nat
}.

(** [p.mkdir(parents=True, exist_ok=True)] on the disk. *)
Definition mkdir (p : path) : M (gmap path FS.node) unit :=
  fun t => let '(t', r) := FS.mkdir p t in Run t' [] r.

(** [FileSystemWatcher.__init__(vault_path, drop_path=None, check_interval=5)] *)
Definition init (vault : path) (drop : option path) (interval : nat)
  : M (gmap path FS.node) FileSystemWatcher :=
  let drop_folder :=
    match drop with
    | Some d => d
    | None => "Inbox" :: vault
    end in
  t <- get ;;
  if negb (FS.exists_ t vault) then raise ValueError
  else
    mkdir drop_folder ;;;
    mkdir ("Needs_Action" :: vault) ;;;
    ret {| vault_path := vault; drop_path := drop_folder; check_interval := interval |}.

(** The handler [FileSystemWatcher.run] hands to the observer. *)
Definition event_handler (fw : FileSystemWatcher) : Watcher.FileDropHandler :=
  Watcher.init (vault_path fw) (drop_path fw).

Definition default_vault (project_root : path) : path :=
  "AI_Employee_Vault" :: project_root.

(** The vault and the drop folder [main] chooses from [sys.argv], the
    arguments taken as paths; [project_root] is the parent of the folder of
    the script. *)
Definition main_paths (project_root : path) (argv : list path) : path * path :=
  let default_drop := "Inbox" :: default_vault project_root in
  let vault :=
    match argv with
    | _ :: v :: _ => v
    | _ => default_vault project_root
    end in
  let drop :=
    match argv with
    | _ :: _ :: d :: _ => d
    | _ => default_drop
    end in
  (vault, drop).

(** [main], up to the point where [watcher.run()] starts to wait for
    events: the watcher it built, or the status of [sys.exit]. *)
Definition main (project_root : path) (argv : list path)
  : M (gmap path FS.node) (FileSystemWatcher + nat) :=
  let '(vault, drop) := main_paths project_root argv in
  try_except
    (watcher <- init vault (Some drop) 5 ;;
     emit (Log INFO "Starting File System Watcher") ;;;
     ret (inl watcher))
    Exception
    (fun e =>
       (if is_ValueError e then emit (Log ERROR "Configuration error")
        else emit (Log ERROR "Unexpected error")) ;;;
       ret (inr 1%nat)).

End WatcherProc.

(* ===================================================================== *)
(** ** orchestrator.py: [Orchestrator] *)
(* ===================================================================== *)

Module Orch.

(** A [subprocess.Popen] handle. *)
Record Popen : Type := { pid : nat }.

Record Orchestrator : Type := {
  vault_path : path;
  check_interval : Z;               (* seconds, an [int] *)
  watcher_process : option Popen;
  running : bool
}.

Record world : Type := {
  self : Orchestrator;
  disk : gmap path FS.node
}.

(** What the machine answers to [run]: when the watcher is started, and
    how long a [time.sleep] it accepts. *)
Record host : Type := {
  watcher_script_exists : bool;     (* watcher_script.exists() *)
  spawn_watcher : res nat;          (* Popen([sys.executable, watcher_script, vault]) *)
  sleep_max : Z                     (* the longest sleep, in seconds, that
                                       [time.sleep] converts to its clock *)
}.

(** What the outside answers during one cycle.  The stage lookups can meet
    an error that [Path.exists] does not swallow (permission denied, an I/O
    error); [fault_needs_action] and [fault_approved] say which, if any.  A
    stage folder that is there may still refuse to be listed; [Path.glob]
    swallows that [PermissionError] and finds nothing. *)
Record outside : Type := {
  fault_needs_action : option exn;
  listable_needs_action : bool;
  fault_approved : option exn;
  listable_approved : bool;
  spawn_qwen : res nat;             (* Popen(['qwen', '--prompt-interactive', prompt]) *)
  now_pending_file : datetime;      (* datetime.now() for the log file name *)
  now_pending_entry : datetime;     (* datetime.now() for 'timestamp:' *)
  now_approved_file : datetime;
  now_approved_entry : datetime
}.

Definition set_disk (t : gmap path FS.node) (w : world) : world :=
  {| self := self w; disk := t |}.

Definition set_watcher_process (p : option Popen) (w : world) : world :=
  {| self := {| vault_path := vault_path (self w);
                check_interval := check_interval (self w);
                watcher_process := p;
                running := running (self w) |};
     disk := disk w |}.

Definition set_running (b : bool) (w : world) : world :=
  {| self := {| vault_path := vault_path (self w);
                check_interval := check_interval (self w);
                watcher_process := watcher_process (self w);
                running := b |};
     disk := disk w |}.

(** [p.mkdir(parents=True, exist_ok=True)] on the world's disk. *)
Definition mkdir (p : path) : M world unit :=
  fun w =>
    let '(t, r) := FS.mkdir p (disk w) in Run (set_disk t w) [] r.

(** [with open(p, 'a', encoding='utf-8') as f: f.write(data)] *)
Definition append_text (p : path) (data : string) : M world unit :=
  fun w =>
    match FS.append_text p data (disk w) with
    | (t, Ret u) => Run (set_disk t w) [Appended p] (Ret u)
    | (t, Raise e) => Run (set_disk t w) [] (Raise e)
    end.

Definition folders : list string :=
  ["Inbox"; "Needs_Action"; "Done"; "Pending_Approval"; "Approved";
   "Rejected"; "Plans"; "Logs"; "Briefings"].

Definition _ensure_folders : M world unit :=
  w <- get ;;
  for_each folders (fun folder => mkdir (folder :: vault_path (self w))).

(** [Orchestrator.__init__], from the disk it finds. *)
Definition init (vault : path) (interval : Z) (t : gmap path FS.node)
  : run world unit :=
  let w := {| self := {| vault_path := vault; check_interval := interval;
                         watcher_process := None; running := false |};
              disk := t |} in
  (if negb (FS.exists_ t vault) then raise ValueError
   else
     _ensure_folders ;;;
     emit (Log INFO "Orchestrator initialized for vault")) w.

(** [proc.wait(timeout)], for a child that exits [exits_after]
    milliseconds after it was asked to, or never. *)
Definition wait (proc : Popen) (timeout_ms : nat) (exits_after : option nat)
  : M world unit :=
  match exits_after with
  | Some ms =>
      if (ms <=? timeout_ms)%nat then emit (Waited (pid proc) ms)
      else emit (Waited (pid proc) timeout_ms) ;;; raise TimeoutExpired
  | None => emit (Waited (pid proc) timeout_ms) ;;; raise TimeoutExpired
  end.

Definition stop_watcher (exits_after : option nat) : M world unit :=
  w <- get ;;
  match watcher_process (self w) with
  | Some proc =>
      emit (Log INFO "Stopping File System Watcher...") ;;;
      emit (Terminate (pid proc)) ;;;
      try_except
        (wait proc 5000 exits_after ;;;
         emit (Log INFO "Watcher stopped gracefully"))
        is_TimeoutExpired
        (fun _ =>
           emit (Log WARNING "Watcher did not stop gracefully, forcing...") ;;;
           emit (Kill (pid proc))) ;;;
      modify (set_watcher_process None)
  | None => ret tt
  end.

(** Whether the child is gone within the five seconds [stop_watcher]
    grants it. *)
Definition exits_in_time (exits_after : option nat) : bool :=
  match exits_after with
  | Some ms => (ms <=? 5000)%nat
  | None => false
  end.

(** The time a journal spends blocked in [wait] and [sleep]. *)
Fixpoint blocked_ms (l : list action) : nat :=
  match l with
  | [] => 0
  | Waited _ ms :: l' => ms + blocked_ms l'
  | Sleep ms :: l' => ms + blocked_ms l'
  | _ :: l' => blocked_ms l'
  end.

(** One line of a log entry per listed file, and "the entry mentions
    this text". *)
Definition entry_line (f : path) : string := "- `" +:+ FS.name f +:+ "`
".

Definition mentions (entry text : string) : Prop :=
  exists before after, entry = before +:+ text +:+ after.

(** What [list(folder.glob('*.md'))] gives. *)
Definition glob_stage (windows listable : bool) (folder : path)
    (t : gmap path FS.node) : list path :=
  if listable then FS.glob_md windows folder t else [].

(** [folder.exists()], then [list(folder.glob('*.md'))]. *)
Definition scan_stage (windows : bool) (folder : path) (fault : option exn)
    (listable : bool) : M world (list path) :=
  emit (Stat folder) ;;;
  match fault with
  | Some e => raise e
  | None =>
      w <- get ;;
      if negb (FS.exists_ (disk w) folder) then ret []
      else
        emit (Scanned folder) ;;;
        ret (glob_stage windows listable folder (disk w))
  end.

Definition pending_entry (timestamp : string) (task_files : list path) : string :=
  List.fold_left
    (fun log_entry task_file => log_entry +:+ "- `" +:+ FS.name task_file +:+ "`
")
    task_files
    ("
---
type: orchestrator_log
timestamp: " +:+ timestamp +:+ "
action_type: pending_tasks_detected
count: " +:+ Text.decimal (N.of_nat (List.length task_files)) +:+ "
status: info
---

## Pending Tasks Detected

The following tasks are awaiting processing in Needs_Action:

")
  +:+ "
## Next Steps
1. Run `qwen` in the vault directory
2. Process the pending tasks
3. Move completed tasks to Done folder

---
*Logged by Orchestrator v0.1 (Bronze Tier)*
".

Definition approved_entry (timestamp : string) (approved_files : list path) : string :=
  List.fold_left
    (fun log_entry approved_file => log_entry +:+ "- `" +:+ FS.name approved_file +:+ "`
")
    approved_files
    ("
---
type: orchestrator_log
timestamp: " +:+ timestamp +:+ "
action_type: approved_actions_ready
count: " +:+ Text.decimal (N.of_nat (List.length approved_files)) +:+ "
status: info
---

## Approved Actions Ready for Execution

The following actions have been approved:

")
  +:+ "
## Next Steps
These actions require execution via MCP servers or manual processing.

---
*Logged by Orchestrator v0.1 (Bronze Tier)*
".

(** The day's log file: [vault / 'Logs' / f'{now:%Y-%m-%d}.md']. *)
Definition log_file_of (vault : path) (now : datetime) : path :=
  (strftime_date now +:+ ".md") :: "Logs" :: vault.

Definition _log_pending_tasks (task_files : list path) (io : outside) : M world unit :=
  w <- get ;;
  let log_file := log_file_of (vault_path (self w)) (now_pending_file io) in
  mkdir (FS.parent log_file) ;;;
  let timestamp := isoformat (now_pending_entry io) in
  append_text log_file (pending_entry timestamp task_files).

Definition _log_approved_actions (approved_files : list path) (io : outside) : M world unit :=
  w <- get ;;
  let log_file := log_file_of (vault_path (self w)) (now_approved_file io) in
  let timestamp := isoformat (now_approved_entry io) in
  append_text log_file (approved_entry timestamp approved_files).

(** A method [keeps P] when it leaves the vault path of the orchestrator
    as it was and emits only actions with the property [P]. *)
Definition keeps (P : action -> Prop) {A} (m : M world A) : Prop :=
  forall s, vault_path (self (final (m s))) = vault_path (self s) /\
            Forall P (emitted (m s)).

Definition prompt : string :=
"You are the AI Employee Bronze Tier. Process all task files in the Needs_Action folder.

For each task file:
1. Read the task file and understand what needs to be done
2. Read the Company_Handbook.md for rules and guidelines
3. Create a plan in the Plans folder
4. Execute the plan step by step
5. Update the Dashboard.md with your activities
6. Move completed tasks to the Done folder

Be thorough and follow all rules in the Company Handbook. Log all your actions.

Start by listing all files in Needs_Action and then process each one.".

Section Platform.

(** [sys.platform == 'win32'].  Both [start_watcher] and [_invoke_qwen_code]
    hold an [import subprocess] in their win32 branch, which makes
    [subprocess] a local name of the whole function: off win32 the name is
    unbound where [subprocess.Popen] is evaluated. *)
Variable win32 : bool.

Definition popen (argv : list string) (answer : res nat) : M world Popen :=
  if win32 then
    p <- lift_res answer ;;
    emit (Spawned argv p) ;;;
    ret {| pid := p |}
  else raise UnboundLocalError.

Definition check_needs_action (io : outside) : M world (list path) :=
  w <- get ;;
  scan_stage win32 ("Needs_Action" :: vault_path (self w))
    (fault_needs_action io) (listable_needs_action io).

Definition check_approved_actions (io : outside) : M world (list path) :=
  w <- get ;;
  scan_stage win32 ("Approved" :: vault_path (self w))
    (fault_approved io) (listable_approved io).

Definition start_watcher (h : host) : M world bool :=
  w <- get ;;
  if negb (watcher_script_exists h) then
    emit (Log ERROR "Watcher script not found") ;;;
    ret false
  else
    try_except
      (emit (Log INFO "Starting File System Watcher...") ;;;
       proc <- popen ["python"; "filesystem_watcher.py"; FS.str (vault_path (self w))]
                     (spawn_watcher h) ;;
       modify (set_watcher_process (Some proc)) ;;;
       emit (Log INFO "Watcher started with PID") ;;;
       ret true)
      Exception
      (fun _ =>
         emit (Log ERROR "Failed to start watcher") ;;;
         ret false).

Definition _invoke_qwen_code (task_files : list path) (io : outside) : M world unit :=
  emit (Log INFO "Invoking Qwen Code for automatic processing...") ;;;
  try_except
    (qwen_process <- popen ["qwen"; "--prompt-interactive"; prompt] (spawn_qwen io) ;;
     emit (Log INFO "Qwen Code invoked with PID"))
    Exception
    (fun e =>
       if is_FileNotFoundError e then
         emit (Log ERROR "Qwen Code not found. Make sure 'qwen' command is in your PATH.") ;;;
         emit (Log ERROR "Falling back to manual mode - tasks logged for manual processing.") ;;;
         _log_pending_tasks task_files io
       else
         emit (Log ERROR "Error invoking Qwen Code") ;;;
         _log_pending_tasks task_files io).

Definition trigger_qwen_code (task_files : list path) (auto_process : bool)
    (io : outside) : M world unit :=
  match task_files with
  | [] => ret tt
  | _ =>
      emit (Log INFO ("Found " +:+ Text.decimal (N.of_nat (List.length task_files))
                      +:+ " task(s) requiring processing:")) ;;;
      for_each task_files (fun task_file => emit (Log INFO ("  - " +:+ FS.name task_file))) ;;;
      if auto_process then _invoke_qwen_code task_files io
      else
        _log_pending_tasks task_files io ;;;
        emit (Log INFO "Hint: Run 'qwen' in the vault directory to process these tasks")
  end.

Definition process_approved_actions (approved_files : list path) (io : outside)
  : M world unit :=
  match approved_files with
  | [] => ret tt
  | _ =>
      emit (Log INFO ("Found " +:+ Text.decimal (N.of_nat (List.length approved_files))
                      +:+ " approved action(s):")) ;;;
      for_each approved_files
        (fun approved_file => emit (Log INFO ("  - " +:+ FS.name approved_file))) ;;;
      _log_approved_actions approved_files io ;;;
      emit (Log INFO "Hint: These actions have been approved and are ready for execution")
  end.

Definition run_cycle (io : outside) : M world unit :=
  pending_tasks <- check_needs_action io ;;
  match pending_tasks with
  | [] => ret tt
  | _ => trigger_qwen_code pending_tasks true io
  end ;;;
  approved_actions <- check_approved_actions io ;;
  match approved_actions with
  | [] => ret tt
  | _ => process_approved_actions approved_actions io
  end.

(** The actions that make the caller wait, and the actions on
    processes. *)
Definition is_blocking (a : action) : bool :=
  match a with
  | Waited _ _ | Sleep _ => true
  | _ => false
  end.

Definition is_spawn (a : action) : bool :=
  match a with
  | Spawned _ _ => true
  | _ => false
  end.

Definition is_log (a : action) : bool :=
  match a with
  | Log _ _ => true
  | _ => false
  end.

(** The [Logs] folder of a vault and what lies directly in it. *)
Definition in_logs (vault q : path) : Prop :=
  q = "Logs" :: vault \/ FS.parent q = "Logs" :: vault.

(** From [t] to [t'] nothing has changed outside [Logs], the vault root is
    still there, and the orchestrator object is the same. *)
Definition only_logs_changed (s s' : world) : Prop :=
  self s' = self s /\
  (FS.exists_ (disk s) (vault_path (self s)) = true ->
   FS.exists_ (disk s') (vault_path (self s)) = true /\
   forall q, ~ in_logs (vault_path (self s)) q -> disk s' !! q = disk s !! q).

(** The handle of the watcher child is the one it was. *)
Definition same_handle (s s' : world) : Prop :=
  watcher_process (self s') = watcher_process (self s).


(** The two halves of [run_cycle]. *)
Definition needs_action_stage (io : outside) : M world unit :=
  pending_tasks <- check_needs_action io ;;
  match pending_tasks with
  | [] => ret tt
  | _ => trigger_qwen_code pending_tasks true io
  end.

Definition approved_stage (io : outside) : M world unit :=
  approved_actions <- check_approved_actions io ;;
  match approved_actions with
  | [] => ret tt
  | _ => process_approved_actions approved_actions io
  end.

Definition shutdown (exits_after : option nat) : M world unit :=
  emit (Log INFO "Shutting down Orchestrator...") ;;;
  stop_watcher exits_after ;;;
  emit (Log INFO "Orchestrator shutdown complete").

(** [time.sleep(seconds)]: a negative length is refused, and so is one too
    long for the clock of the machine. *)
Definition sleep (h : host) (seconds : Z) : M world unit :=
  if (seconds <? 0)%Z then raise ValueError
  else if (sleep_max h <? seconds)%Z then raise OverflowError
  else emit (Sleep (1000 * Z.to_nat seconds)).

(** [while self.running: run_cycle(); sleep(check_interval)], for the
    cycles that start before a signal has cleared [running]. *)
Fixpoint main_loop (h : host) (cycles : list outside) : M world unit :=
  match cycles with
  | [] => modify (set_running false)
  | io :: rest =>
      run_cycle io ;;;
      w <- get ;;
      sleep h (check_interval (self w)) ;;;
      main_loop h rest
  end.

Definition run (h : host) (cycles : list outside) (exits_after : option nat)
  : M world nat :=
  modify (set_running true) ;;;
  emit (Log INFO "AI Employee Orchestrator v0.1 (Bronze Tier)") ;;;
  started <- start_watcher h ;;
  if negb started then
    emit (Log ERROR "Failed to start watcher, exiting...") ;;;
    ret 1%nat
  else
    try_finally
      (try_except
         (main_loop h cycles ;;; ret 0%nat)
         Exception
         (fun _ => emit (Log ERROR "Orchestrator error") ;;; ret 1%nat))
      (shutdown exits_after).

(** How [main] ends. *)
Inductive ending : Type :=
  | Returned (status : nat)   (* [main] returned [status] *)
  | ParserExit                (* [parse_args] ended the process itself:
                                 [SystemExit], with status 2 for a command
                                 line it refuses and 0 after [--help] *)
  | Escaped (e : exn).        (* [e] got out of [main] *)

(** [main].  [args] is what [parse_args] gives for the command line:
    [--vault] (when given and not empty) and [--interval]; or nothing, when
    it ends the process instead.  [fault_vault] is the error, if any, that
    [vault_path.exists()] meets and does not swallow. *)
Definition main (project_root : path) (args : option (option path * Z))
    (fault_vault : option exn)
    (h : host) (cycles : list outside) (exits_after : option nat)
    (t : gmap path FS.node) : gmap path FS.node * list action * ending :=
  match args with
  | None => (t, [], ParserExit)
  | Some (vault_arg, interval) =>
      let vault :=
        match vault_arg with
        | Some v => v
        | None => "AI_Employee_Vault" :: project_root
        end in
      match fault_vault with
      | Some e => (t, [], Escaped e)
      | None =>
          if negb (FS.exists_ t vault) then
            (t, [Log ERROR "Vault path does not exist";
                 Log INFO "Create the vault first or specify --vault path"],
             Returned 1)
          else
            let failed (e : exn) :=
              Log ERROR (if is_ValueError e then "Configuration error"
                         else "Unexpected error") in
            match init vault interval t with
            | Run w0 e0 (Raise e) => (disk w0, (e0 ++ [failed e])%list, Returned 1)
            | Run w0 e0 (Ret _) =>
                match run h cycles exits_after w0 with
                | Run w1 e1 (Ret code) => (disk w1, (e0 ++ e1)%list, Returned code)
                | Run w1 e1 (Raise e) =>
                    (disk w1, (e0 ++ e1 ++ [failed e])%list, Returned 1)
                end
            end
      end
  end.

End Platform.

End Orch.

(* ===================================================================== *)
(** ** Sample data *)
(* ===================================================================== *)

(** Concrete worlds and events for the examples.  The theorems hold for
    every [runtime]; the examples need one to compute with, and
    [Sample.rt] stands in for the library functions. *)
Module Sample.

Definition rt : Watcher.runtime :=
  {| Watcher.md5_hexdigest := fun data => "md5:" +:+ data;
     Watcher.str_float := fun z => Text.decimal (Z.to_N z) +:+ ".0";
     Watcher.fromtimestamp := fun _ =>
       {| year := 2026; month := 1; day := 5;
          hour := 9; minute := 0; second := 0; microsecond := 0 |} |}.

(** Two readings of the clock within the same second, 0.55 s apart. *)
Definition t1 : datetime :=
  {| year := 2026; month := 1; day := 5;
     hour := 9; minute := 3; second := 7; microsecond := 100 * 1000 |}.

Definition t2 : datetime :=
  {| year := 2026; month := 1; day := 5;
     hour := 9; minute := 3; second := 7; microsecond := 650 * 1000 |}.

(** More than a minute later. *)
Definition t3 : datetime :=
  {| year := 2026; month := 1; day := 5;
     hour := 9; minute := 4; second := 12; microsecond := 0 |}.

Definition vault : path := ["vault"].
Definition inbox : path := "Inbox" :: vault.

(** A vault root with nothing in it, and the same after
    [Orchestrator.__init__]. *)
Definition bare_vault : gmap path FS.node := {[ vault := FS.Dir ]}.

Definition ready_vault : gmap path FS.node :=
  Orch.disk (final (Orch.init vault 30 bare_vault)).

(** A fresh handler on the ready vault. *)
Definition watcher0 : Watcher.world :=
  {| Watcher.self := Watcher.init vault inbox; Watcher.disk := ready_vault |}.

Definition created (p : path) : Watcher.event :=
  {| Watcher.is_directory := false; Watcher.src_path := p |}.

Definition a_stat : Watcher.stat_result :=
  {| Watcher.st_size := 5; Watcher.st_ctime := 1767603600; Watcher.st_mtime := 1767603600 |}.

(** The file is there and readable, with the given bytes. *)
Definition readable (data : string) (now : datetime) : Watcher.outside :=
  {| Watcher.open_read := Ret data;
     Watcher.stat_hash := Ret a_stat;
     Watcher.stat_meta := Ret a_stat;
     Watcher.copy_open := Ret tt;
     Watcher.copy_data := (data, None);
     Watcher.copy_stat := Ret tt;
     Watcher.now_stamp := now; Watcher.now_default := now;
     Watcher.now_detected := now; Watcher.now_body := now |}.

(** The file was removed before the handler looked at it. *)
Definition vanished (now : datetime) : Watcher.outside :=
  {| Watcher.open_read := Raise FileNotFoundError;
     Watcher.stat_hash := Raise FileNotFoundError;
     Watcher.stat_meta := Raise FileNotFoundError;
     Watcher.copy_open := Raise FileNotFoundError;
     Watcher.copy_data := ("", None);
     Watcher.copy_stat := Ret tt;
     Watcher.now_stamp := now; Watcher.now_default := now;
     Watcher.now_detected := now; Watcher.now_body := now |}.

(** The file cannot be opened, and is gone by the time its metadata is
    read. *)
Definition locked_then_gone (now : datetime) : Watcher.outside :=
  {| Watcher.open_read := Raise PermissionError;
     Watcher.stat_hash := Ret a_stat;
     Watcher.stat_meta := Raise FileNotFoundError;
     Watcher.copy_open := Raise FileNotFoundError;
     Watcher.copy_data := ("", None);
     Watcher.copy_stat := Ret tt;
     Watcher.now_stamp := now; Watcher.now_default := now;
     Watcher.now_detected := now; Watcher.now_body := now |}.

(** A file name that is not UTF-8: [e] with an acute accent in Latin-1,
    the single byte 233. *)
Definition latin1_name : string := String (ascii_of_nat 233) ".txt".

(** A handler whose [Needs_Action] folder is missing. *)
Definition watcher_no_stage : Watcher.world :=
  {| Watcher.self := Watcher.init vault inbox; Watcher.disk := bare_vault |}.

(** A vault with one pending task and one approved action. *)
Definition busy_vault : gmap path FS.node :=
  <[ "a.md" :: "Needs_Action" :: vault := FS.File "task" ]>
    (<[ "b.md" :: "Approved" :: vault := FS.File "action" ]> ready_vault).

(** The same, where [Logs] has been replaced by a regular file. *)
Definition logs_blocked_vault : gmap path FS.node :=
  <[ "Logs" :: vault := FS.File "" ]> busy_vault.

(** A vault whose [Logs] folder has been removed, with one approved
    action. *)
Definition no_logs_vault : gmap path FS.node :=
  <[ "b.md" :: "Approved" :: vault := FS.File "action" ]>
    (<[ "Approved" :: vault := FS.Dir ]> bare_vault).

Definition orchestrator (t : gmap path FS.node) : Orch.world :=
  {| Orch.self := {| Orch.vault_path := vault; Orch.check_interval := 30%Z;
                     Orch.watcher_process := None; Orch.running := true |};
     Orch.disk := t |}.

(** The watcher script is in place and starts. *)
Definition host_ok : Orch.host :=
  {| Orch.watcher_script_exists := true; Orch.spawn_watcher := Ret 4242%nat;
     Orch.sleep_max := 9223372036%Z |}.

(** A cycle in which the [qwen] binary is not on the PATH. *)
Definition no_qwen : Orch.outside :=
  {| Orch.fault_needs_action := None;
     Orch.listable_needs_action := true;
     Orch.fault_approved := None;
     Orch.listable_approved := true;
     Orch.spawn_qwen := Raise FileNotFoundError;
     Orch.now_pending_file := t1; Orch.now_pending_entry := t1;
     Orch.now_approved_file := t2; Orch.now_approved_entry := t2 |}.

(** A cycle in which [qwen] starts. *)
Definition qwen_ok : Orch.outside :=
  {| Orch.fault_needs_action := None;
     Orch.listable_needs_action := true;
     Orch.fault_approved := None;
     Orch.listable_approved := true;
     Orch.spawn_qwen := Ret 515%nat;
     Orch.now_pending_file := t1; Orch.now_pending_entry := t1;
     Orch.now_approved_file := t2; Orch.now_approved_entry := t2 |}.

End Sample.

(* ===================================================================== *)
(** ** Proof support *)
(* ===================================================================== *)

Ltac py_unfold :=
  unfold bind, try_except, try_finally, emit, ret, raise, get, modify,
    lift_res, Exception in *.

Arguments Watcher.action_content : simpl never.
Arguments Watcher.action_filename : simpl never.
Arguments Watcher.copy_filename : simpl never.
Arguments Watcher._create_action_file : simpl never.
Arguments Watcher._get_file_hash : simpl never.
Arguments Watcher.copy2 : simpl never.
Arguments Watcher.record_content : simpl never.
Arguments Text.encodable : simpl never.
Arguments FS.open_w : simpl never.
Arguments FS.glob_md : simpl never.
Arguments Clock.strftime_stamp : simpl never.
Arguments Clock.strftime_date : simpl never.
Arguments Clock.strftime_human : simpl never.
Arguments Clock.isoformat : simpl never.
Arguments Orch.pending_entry : simpl never.
Arguments Orch.approved_entry : simpl never.
Arguments Orch.prompt : simpl never.
Arguments Text.endswith : simpl nomatch.

(** *** Strings *)

Section TextFacts.

Lemma last_char_app (a b : string) :
  b <> "" -> Text.last_char (a +:+ b) = Text.last_char b.
Proof.
  intros Hb. induction a as [|c a IH]; [done|].
  change (String c a +:+ b) with (String c (a +:+ b)).
  cbn [Text.last_char]. rewrite IH.
  destruct (a +:+ b) eqn:E; [|done].
  destruct a; [by change ("" +:+ b) with b in E | discriminate].
Qed.

Lemma endswith_empty (suf : string) : suf <> "" -> Text.endswith suf "" = false.
Proof. destruct suf; [done|]. intros _. reflexivity. Qed.

Lemma endswith_last_char (suf s : string) :
  suf <> "" -> Text.endswith suf s = true -> Text.last_char s = Text.last_char suf.
Proof.
  intros Hsuf. induction s as [|c s IH]; intros H.
  - rewrite endswith_empty in H; [discriminate | done].
  - cbn [Text.endswith] in H. apply orb_true_iff in H as [H|H].
    + apply String.eqb_eq in H. by rewrite H.
    + rewrite <- (IH H). cbn [Text.last_char].
      destruct s; [|done].
      rewrite endswith_empty in H; [discriminate | done].
Qed.

Lemma digit_not_d (n : nat) : Text.digit n <> "d"%char.
Proof.
  unfold Text.digit. intros H.
  apply (f_equal nat_of_ascii) in H.
  rewrite nat_ascii_embedding in H.
  - change (nat_of_ascii "d") with 100%nat in H.
    pose proof (Nat.mod_upper_bound n 10). lia.
  - pose proof (Nat.mod_upper_bound n 10). lia.
Qed.

Lemma last_char_pad2 (n : nat) : Text.last_char (Text.pad2 n) = Some (Text.digit n).
Proof. reflexivity. Qed.

Lemma pad2_nonempty (n : nat) : Text.pad2 n <> "".
Proof. discriminate. Qed.

Lemma app_nonempty_r (a b : string) : b <> "" -> a +:+ b <> "".
Proof. destruct a; [done | discriminate]. Qed.

Lemma last_char_stamp (d : datetime) :
  Text.last_char (strftime_stamp d) = Some (Text.digit (second d)).
Proof.
  unfold strftime_stamp.
  repeat (rewrite last_char_app; [| repeat apply app_nonempty_r; apply pad2_nonempty]).
  apply last_char_pad2.
Qed.

Lemma stamp_nonempty (d : datetime) : strftime_stamp d <> "".
Proof. intros H. pose proof (last_char_stamp d) as L. rewrite H in L. discriminate. Qed.

End TextFacts.

Section TextMore.

Lemma endswith_refl (s : string) : Text.endswith s s = true.
Proof. destruct s; cbn [Text.endswith]; by rewrite String.eqb_refl. Qed.

Lemma endswith_app_r (suf a b : string) :
  Text.endswith suf b = true -> Text.endswith suf (a +:+ b) = true.
Proof.
  intros H. induction a as [|c a IH]; [done|].
  change (String c a +:+ b) with (String c (a +:+ b)).
  cbn [Text.endswith]. rewrite IH. apply orb_true_r.
Qed.

Lemma lower_app (a b : string) : Text.lower (a +:+ b) = Text.lower a +:+ Text.lower b.
Proof.
  induction a as [|c a IH]; [done|].
  change (String c a +:+ b) with (String c (a +:+ b)). cbn [Text.lower].
  by rewrite IH.
Qed.

Lemma last_char_lower (s : string) :
  Text.last_char (Text.lower s) = option_map Text.lower_char (Text.last_char s).
Proof.
  induction s as [|c s IH]; [done|]. destruct s as [|c' s]; [done|]. exact IH.
Qed.

Lemma lower_char_digit (n : nat) : Text.lower_char (Text.digit n) = Text.digit n.
Proof.
  unfold Text.lower_char, Text.digit.
  pose proof (Nat.mod_upper_bound n 10).
  rewrite nat_ascii_embedding by lia.
  destruct (Nat.leb_spec 65 (48 + n mod 10)); [lia | done].
Qed.

Lemma action_filename_is_md (windows : bool) (src : path) (stamp : string) :
  FS.fnmatch_md windows (Watcher.action_filename src stamp) = true.
Proof.
  unfold FS.fnmatch_md, Watcher.action_filename. destruct windows.
  - rewrite !lower_app. do 4 apply endswith_app_r. reflexivity.
  - do 4 apply endswith_app_r. apply endswith_refl.
Qed.

End TextMore.

(** *** Record names *)

Section NameFacts.

Lemma length_app (a b : string) :
  String.length (a +:+ b) = (String.length a + String.length b)%nat.
Proof.
  induction a as [|c a IH]; [done|].
  change (String c a +:+ b) with (String c (a +:+ b)). cbn. by rewrite IH.
Qed.

(** Two strings that end in tails of the same length agree part by part. *)
Lemma app_inj_tail (a a' b b' : string) :
  String.length b = String.length b' -> a +:+ b = a' +:+ b' -> a = a' /\ b = b'.
Proof.
  intros Hl. revert a'. induction a as [|c a IH]; intros [|c' a'] H.
  - done.
  - change ("" +:+ b) with b in H. subst b.
    change (String c' a' +:+ b') with (String c' (a' +:+ b')) in Hl.
    cbn in Hl. rewrite length_app in Hl. lia.
  - change ("" +:+ b') with b' in H. subst b'.
    change (String c a +:+ b) with (String c (a +:+ b)) in Hl.
    cbn in Hl. rewrite length_app in Hl. lia.
  - change (String c a +:+ b) with (String c (a +:+ b)) in H.
    change (String c' a' +:+ b') with (String c' (a' +:+ b')) in H.
    injection H as -> H. destruct (IH a' H) as [-> ->]. done.
Qed.

Lemma string_cons_inj (c : ascii) (a b : string) : String c a = String c b -> a = b.
Proof. by intros [= ->]. Qed.

Lemma length_stamp (d : datetime) : String.length (strftime_stamp d) = 15%nat.
Proof. reflexivity. Qed.

Lemma action_filename_inj (src1 src2 : path) (d1 d2 : datetime) :
  Watcher.action_filename src1 (strftime_stamp d1) =
  Watcher.action_filename src2 (strftime_stamp d2) ->
  Watcher.safe_name src1 = Watcher.safe_name src2 /\ strftime_stamp d1 = strftime_stamp d2.
Proof.
  unfold Watcher.action_filename. intros H.
  change ("FILE_DROP_" +:+ ?x) with
    (String "F" (String "I" (String "L" (String "E" (String "_" (String "D"
      (String "R" (String "O" (String "P" (String "_" x)))))))))) in H.
  do 10 apply string_cons_inj in H.
  apply app_inj_tail in H as [Hs H].
  - split; [done|].
    change ("_" +:+ ?x) with (String "_" x) in H. apply string_cons_inj in H.
    by apply app_inj_tail in H as [H _].
  - change ("_" +:+ ?x) with (String "_" x). cbn [String.length].
    by rewrite !length_app, !length_stamp.
Qed.

End NameFacts.

(** *** Text as bytes *)

Section Bytes.

Import Text.

Lemma utf8_run_app (st : utf8_state) (a b : string) :
  utf8_run st (a +:+ b) = utf8_run (utf8_run st a) b.
Proof.
  revert st. induction a as [|c a IH]; intros st; [done|].
  change (String c a +:+ b) with (String c (a +:+ b)). cbn [utf8_run]. apply IH.
Qed.

Lemma utf8_run_malformed (s : string) : utf8_run Malformed s = Malformed.
Proof. induction s as [|c s IH]; [done|]. exact IH. Qed.

Lemma in_range_ascii (c : ascii) (lo hi : nat) :
  in_range 0 127 c = true -> (128 <= lo)%nat -> in_range lo hi c = false.
Proof.
  unfold in_range. intros H Hlo.
  apply andb_true_iff in H as [_ H]. apply Nat.leb_le in H.
  apply andb_false_iff. left. apply Nat.leb_gt. lia.
Qed.

(** The first byte a state waits for is never an ASCII one. *)
Lemma utf8_step_waits (st : utf8_state) (c : ascii) :
  match st with Expect lo _ _ => (128 <= lo)%nat | _ => True end ->
  match utf8_step st c with Expect lo _ _ => (128 <= lo)%nat | _ => True end.
Proof.
  destruct st as [|lo hi more|]; cbn [utf8_step]; intros H; [| |done].
  - repeat (destruct (in_range _ _ c); [cbn; lia|]). done.
  - destruct (in_range lo hi c); [|done]. destruct more; [done | cbn; lia].
Qed.

Lemma utf8_run_waits (st : utf8_state) (s : string) :
  match st with Expect lo _ _ => (128 <= lo)%nat | _ => True end ->
  match utf8_run st s with Expect lo _ _ => (128 <= lo)%nat | _ => True end.
Proof.
  revert st. induction s as [|c s IH]; intros st H; [done|].
  cbn [utf8_run]. by apply IH, utf8_step_waits.
Qed.

Lemma encodable_app (a b : string) :
  encodable a = true -> encodable (a +:+ b) = encodable b.
Proof.
  unfold encodable. rewrite utf8_run_app.
  by destruct (utf8_run Start a).
Qed.

(** An ASCII byte ends what comes before it: the two sides are encoded on
    their own. *)
Lemma encodable_app_ascii (a : string) (c : ascii) (b : string) :
  in_range 0 127 c = true ->
  encodable (a +:+ String c b) = encodable a && encodable b.
Proof.
  intros Hc. unfold encodable. rewrite utf8_run_app.
  pose proof (utf8_run_waits Start a I) as Hw.
  destruct (utf8_run Start a) as [|lo hi more|]; cbn [utf8_run utf8_step andb].
  - by rewrite Hc.
  - rewrite (in_range_ascii c lo hi Hc Hw). by rewrite utf8_run_malformed.
  - by rewrite utf8_run_malformed.
Qed.

Lemma encodable_ascii_only (s : string) : ascii_only s = true -> encodable s = true.
Proof.
  unfold encodable. induction s as [|c s IH]; [done|].
  cbn [ascii_only utf8_run utf8_step]. intros H.
  apply andb_true_iff in H as [-> H]. by apply IH.
Qed.

Lemma encodable_ascii_app (a b : string) :
  ascii_only a = true -> encodable (a +:+ b) = encodable b.
Proof. intros H. by apply encodable_app, encodable_ascii_only. Qed.

Lemma app_empty_r (a : string) : a +:+ "" = a.
Proof.
  induction a as [|c a IH]; [done|].
  change (String c a +:+ "") with (String c (a +:+ "")). by rewrite IH.
Qed.

Lemma encodable_app_r (a b : string) :
  ascii_only b = true -> encodable (a +:+ b) = encodable a.
Proof.
  intros H. destruct b as [|c b].
  - by rewrite app_empty_r.
  - apply andb_true_iff in H as [Hc H].
    rewrite encodable_app_ascii by done.
    rewrite (encodable_ascii_only b H). apply andb_true_r.
Qed.

Lemma encodable_mid (x l rest : string) :
  l <> "" -> ascii_only l = true ->
  encodable (x +:+ l +:+ rest) = encodable x && encodable rest.
Proof.
  intros Hne Hl. destruct l as [|c l]; [done|].
  apply andb_true_iff in Hl as [Hc Hl].
  change (String c l +:+ rest) with (String c (l +:+ rest)).
  rewrite encodable_app_ascii by done. by rewrite encodable_ascii_app.
Qed.

Lemma ascii_only_app (a b : string) :
  ascii_only (a +:+ b) = ascii_only a && ascii_only b.
Proof.
  induction a as [|c a IH]; [done|].
  change (String c a +:+ b) with (String c (a +:+ b)). cbn [ascii_only].
  rewrite IH. apply andb_assoc.
Qed.

Lemma digit_ascii (n : nat) : in_range 0 127 (digit n) = true.
Proof.
  unfold in_range, digit. pose proof (Nat.mod_upper_bound n 10).
  rewrite nat_ascii_embedding by lia.
  apply andb_true_iff. split; apply Nat.leb_le; lia.
Qed.

Lemma pad2_ascii (n : nat) : ascii_only (pad2 n) = true.
Proof. unfold pad2. cbn [ascii_only]. by rewrite !digit_ascii. Qed.

Lemma pad4_ascii (n : nat) : ascii_only (pad4 n) = true.
Proof. unfold pad4. cbn [ascii_only]. by rewrite !digit_ascii, pad2_ascii. Qed.

Lemma pad6_ascii (n : nat) : ascii_only (pad6 n) = true.
Proof. unfold pad6. by rewrite ascii_only_app, pad2_ascii, pad4_ascii. Qed.

Lemma strftime_date_ascii (d : datetime) : ascii_only (strftime_date d) = true.
Proof.
  unfold strftime_date. by rewrite !ascii_only_app, pad4_ascii, !pad2_ascii.
Qed.

Lemma strftime_stamp_ascii (d : datetime) : ascii_only (strftime_stamp d) = true.
Proof.
  unfold strftime_stamp. by rewrite !ascii_only_app, pad4_ascii, !pad2_ascii.
Qed.

Lemma strftime_human_ascii (d : datetime) : ascii_only (strftime_human d) = true.
Proof.
  unfold strftime_human. by rewrite !ascii_only_app, strftime_date_ascii, !pad2_ascii.
Qed.

Lemma isoformat_ascii (d : datetime) : ascii_only (isoformat d) = true.
Proof.
  unfold isoformat. rewrite !ascii_only_app, strftime_date_ascii, !pad2_ascii.
  destruct (microsecond d); [done|]. by rewrite ascii_only_app, pad6_ascii.
Qed.

Lemma string_of_uint_ascii (u : Decimal.uint) :
  ascii_only (NilEmpty.string_of_uint u) = true.
Proof. induction u; cbn [NilEmpty.string_of_uint ascii_only]; done. Qed.

Lemma decimal_ascii (n : N) : ascii_only (decimal n) = true.
Proof.
  unfold decimal, NilZero.string_of_uint.
  destruct (N.to_uint n) eqn:E; [done|..]; rewrite <- E; apply string_of_uint_ascii.
Qed.

Lemma ascii_only_of_list (l : list ascii) :
  ascii_only (string_of_list_ascii l) = forallb (in_range 0 127) l.
Proof. induction l as [|c l IH]; [done|]. cbn. by rewrite IH. Qed.

Lemma ascii_only_to_list (s : string) :
  forallb (in_range 0 127) (list_ascii_of_string s) = ascii_only s.
Proof. induction s as [|c s IH]; [done|]. cbn. by rewrite IH. Qed.

Lemma forallb_rev {A} (f : A -> bool) (l : list A) :
  forallb f (List.rev l) = forallb f l.
Proof.
  induction l as [|x l IH]; [done|].
  cbn. rewrite forallb_app, IH. cbn. rewrite andb_true_r. apply andb_comm.
Qed.

Lemma group3_ascii (k : nat) (l : list ascii) :
  forallb (in_range 0 127) l = true ->
  forallb (in_range 0 127) (group3 k l) = true.
Proof.
  revert k. induction l as [|c l IH]; intros k H; [done|].
  apply andb_true_iff in H as [Hc H].
  destruct k; cbn [group3 forallb]; rewrite Hc, IH by done; reflexivity.
Qed.

Lemma thousands_ascii (n : N) : ascii_only (thousands n) = true.
Proof.
  unfold thousands. rewrite ascii_only_of_list, forallb_rev.
  apply group3_ascii. rewrite forallb_rev, ascii_only_to_list. apply decimal_ascii.
Qed.

(** [str(p)] can be encoded exactly when every component can. *)
Lemma encodable_concat (l : list string) :
  encodable (String.concat "" (List.map (fun c => "/" +:+ c) l)) = forallb encodable l.
Proof.
  induction l as [|c l IH]; [done|].
  cbn [List.map forallb]. destruct l as [|c' l].
  - cbn [List.map String.concat forallb]. rewrite andb_true_r.
    by rewrite encodable_ascii_app.
  - change (String.concat "" (("/" +:+ c) :: List.map (fun c => "/" +:+ c) (c' :: l)))
      with (("/" +:+ c) +:+ "" +:+ String.concat "" (List.map (fun c => "/" +:+ c) (c' :: l))).
    rewrite <- IH. set (rest := String.concat _ _).
    change ("" +:+ rest) with rest.
    change (("/" +:+ c) +:+ rest) with (String "/" (c +:+ rest)).
    change (encodable (String "/" (c +:+ rest))) with (encodable (c +:+ rest)).
    subst rest. cbn [List.map String.concat].
    destruct (List.map (fun c => "/" +:+ c) l);
      change ("/" +:+ c') with (String "/" c');
      [| change (String "/" c' +:+ ?x) with (String "/" (c' +:+ x)) ];
      by rewrite encodable_app_ascii.
Qed.

Lemma encodable_str (p : path) : encodable (FS.str p) = forallb encodable p.
Proof.
  unfold FS.str. destruct p as [|c p]; [done|].
  by rewrite encodable_concat, forallb_rev.
Qed.

Lemma encodable_name (p : path) : forallb encodable p = true -> encodable (FS.name p) = true.
Proof. destruct p as [|c p]; [done|]. cbn. by intros [? _]%andb_true_iff. Qed.

(** The text of a record can be encoded exactly when the name and the path
    of the source can. *)
Lemma encodable_action_content (name abs : string) (size : N)
    (created modified detected body : string) :
  ascii_only created = true -> ascii_only modified = true ->
  ascii_only detected = true -> ascii_only body = true ->
  encodable (Watcher.action_content name abs size created modified detected body)
  = encodable name && encodable abs.
Proof.
  intros Hc Hm Hd Hb. unfold Watcher.action_content.
  rewrite encodable_ascii_app by reflexivity.
  rewrite !encodable_mid by (try discriminate; reflexivity).
  rewrite encodable_app_r by reflexivity.
  rewrite (encodable_ascii_only _ (decimal_ascii size)).
  rewrite (encodable_ascii_only _ (thousands_ascii size)).
  rewrite (encodable_ascii_only _ Hc), (encodable_ascii_only _ Hm).
  rewrite (encodable_ascii_only _ Hd), (encodable_ascii_only _ Hb).
  destruct (encodable name), (encodable abs); reflexivity.
Qed.

(** The entries of the log can be encoded exactly when the names they list
    can. *)
Lemma encodable_fold_lines (files : list path) (acc : string) :
  encodable
    (List.fold_left (fun log_entry f => log_entry +:+ "- `" +:+ FS.name f +:+ "`
") files acc)
  = encodable acc && forallb (fun f => encodable (FS.name f)) files.
Proof.
  revert acc. induction files as [|f files IH]; intros acc.
  - cbn. by rewrite andb_true_r.
  - cbn [List.fold_left forallb]. rewrite IH.
    rewrite encodable_mid by (try discriminate; reflexivity).
    rewrite encodable_app_r by reflexivity. by rewrite andb_assoc.
Qed.

Lemma encodable_pending_entry (timestamp : string) (files : list path) :
  ascii_only timestamp = true ->
  encodable (Orch.pending_entry timestamp files)
  = forallb (fun f => encodable (FS.name f)) files.
Proof.
  intros Ht. unfold Orch.pending_entry.
  rewrite encodable_app_r by reflexivity. rewrite encodable_fold_lines.
  rewrite encodable_ascii_only; [done|].
  rewrite !ascii_only_app, Ht, decimal_ascii. reflexivity.
Qed.

Lemma encodable_approved_entry (timestamp : string) (files : list path) :
  ascii_only timestamp = true ->
  encodable (Orch.approved_entry timestamp files)
  = forallb (fun f => encodable (FS.name f)) files.
Proof.
  intros Ht. unfold Orch.approved_entry.
  rewrite encodable_app_r by reflexivity. rewrite encodable_fold_lines.
  rewrite encodable_ascii_only; [done|].
  rewrite !ascii_only_app, Ht, decimal_ascii. reflexivity.
Qed.

End Bytes.

(** *** The file system *)

Section FSFacts.

Implicit Types (t : gmap path FS.node) (p v : path) (f : string).

Lemma cons_ne_self f v : f :: v <> v.
Proof. intros H. apply (f_equal (@List.length string)) in H. cbn in H. lia. Qed.

(** [mkdir] of a child of an existing path: created, already a directory
    and left alone, or refused, and then nothing has changed. *)
Lemma mkdir_child_cases t v f :
  FS.exists_ t v = true ->
  (t !! (f :: v) = None /\ FS.node_at t v = Some FS.Dir /\
   FS.mkdir (f :: v) t = (<[f :: v := FS.Dir]> t, Ret tt)) \/
  (FS.is_dir t (f :: v) = true /\ FS.mkdir (f :: v) t = (t, Ret tt)) \/
  (FS.is_dir t (f :: v) = false /\ exists e, FS.mkdir (f :: v) t = (t, Raise e)).
Proof.
  unfold FS.exists_. intros Hv.
  destruct (FS.node_at t v) as [[|data]|] eqn:Hn; [| |discriminate].
  - destruct (t !! (f :: v)) as [[|data]|] eqn:Hp.
    + right. left. unfold FS.is_dir. cbn. rewrite Hn, Hp. cbn.
      unfold FS.is_dir. cbn. by rewrite Hp.
    + right. right. unfold FS.is_dir. cbn. rewrite Hn, Hp. cbn.
      unfold FS.is_dir. cbn. rewrite Hp. eauto.
    + left. cbn. by rewrite Hn, Hp.
  - right. cbn. rewrite Hn. cbn. destruct (FS.is_dir t (f :: v)) eqn:Hd; eauto.
Qed.

Lemma node_at_insert_ne t p q n :
  p <> q -> p <> [] -> FS.node_at (<[p := n]> t) q = FS.node_at t q.
Proof.
  intros Hne Hp. destruct q as [|c q]; [done|]. cbn. by rewrite lookup_insert_ne.
Qed.

(** Preparing children of [v] keeps what was there. *)
Lemma mkdir_each_children_keeps t v (names : list string) :
  FS.exists_ t v = true ->
  let r := FS.mkdir_each (List.map (fun f => f :: v) names) t in
  FS.node_at r.1 v = FS.node_at t v /\
  (forall q n, t !! q = Some n -> r.1 !! q = Some n).
Proof.
  revert t. induction names as [|f names IH]; intros t Hv; [done|].
  cbn [FS.mkdir_each List.map].
  destruct (mkdir_child_cases t v f Hv) as [(Hnone & Hdir & ->) | [(_ & ->) | (_ & e & ->)]];
    [| by apply IH | done].
  assert (Hv' : FS.exists_ (<[f :: v := FS.Dir]> t) v = true).
  { unfold FS.exists_. rewrite node_at_insert_ne; [by rewrite Hdir | apply cons_ne_self | done]. }
  destruct (IH _ Hv') as [IH1 IH2]. split.
  - rewrite IH1. apply node_at_insert_ne; [apply cons_ne_self | done].
  - intros q n Hq. apply IH2. rewrite lookup_insert_ne; [done|]. congruence.
Qed.

Lemma is_dir_lookup t f v : FS.is_dir t (f :: v) = true <-> t !! (f :: v) = Some FS.Dir.
Proof.
  unfold FS.is_dir. cbn. split.
  - by destruct (t !! (f :: v)) as [[|?]|].
  - by intros ->.
Qed.

(** Run twice, the preparation of children of [v] ends the second time as
    it did the first, and changes nothing more. *)
Lemma mkdir_each_children_twice t v (names : list string) :
  FS.exists_ t v = true ->
  let r := FS.mkdir_each (List.map (fun f => f :: v) names) t in
  FS.mkdir_each (List.map (fun f => f :: v) names) r.1 = r.
Proof.
  revert t. induction names as [|f names IH]; intros t Hv; [done|].
  cbn [FS.mkdir_each List.map].
  destruct (mkdir_child_cases t v f Hv) as [(Hnone & Hdir & ->) | [(Hd & Hm) | (Hd & e & Hm)]].
  - set (t' := <[f :: v := FS.Dir]> t).
    assert (Hv' : FS.exists_ t' v = true).
    { unfold FS.exists_, t'. rewrite node_at_insert_ne; [by rewrite Hdir | apply cons_ne_self | done]. }
    destruct (mkdir_each_children_keeps t' v names Hv') as [K1 K2].
    specialize (IH t' Hv'). cbv zeta in IH, K1, K2.
    destruct (FS.mkdir_each (List.map (fun f0 => f0 :: v) names) t') as [t1 r1] eqn:E.
    cbn [fst snd] in *.
    assert (Hv1 : FS.exists_ t1 v = true). { unfold FS.exists_ in *. by rewrite K1. }
    destruct (mkdir_child_cases t1 v f Hv1) as [(Hnone1 & _) | [(_ & ->) | (Hd1 & _)]].
    + rewrite (K2 (f :: v) FS.Dir) in Hnone1; [discriminate|]. apply lookup_insert_eq.
    + done.
    + rewrite (proj2 (is_dir_lookup t1 f v)) in Hd1; [discriminate|].
      apply K2, lookup_insert_eq.
  - rewrite Hm.
    destruct (mkdir_each_children_keeps t v names Hv) as [K1 K2].
    specialize (IH t Hv). cbv zeta in IH, K1, K2.
    destruct (FS.mkdir_each (List.map (fun f0 => f0 :: v) names) t) as [t1 r1] eqn:E.
    cbn [fst snd] in *.
    assert (Hv1 : FS.exists_ t1 v = true). { unfold FS.exists_ in *. by rewrite K1. }
    destruct (mkdir_child_cases t1 v f Hv1) as [(Hnone1 & _) | [(_ & ->) | (Hd1 & _)]].
    + apply is_dir_lookup in Hd. rewrite (K2 _ _ Hd) in Hnone1. discriminate.
    + done.
    + apply is_dir_lookup in Hd. apply K2 in Hd. apply is_dir_lookup in Hd. congruence.
  - rewrite Hm. cbn [fst snd FS.mkdir_each]. by rewrite Hm.
Qed.

(** With every child already a directory, nothing happens at all. *)
Lemma mkdir_each_children_present t v (names : list string) :
  FS.exists_ t v = true ->
  Forall (fun f => FS.is_dir t (f :: v) = true) names ->
  FS.mkdir_each (List.map (fun f => f :: v) names) t = (t, Ret tt).
Proof.
  intros Hv Hall. induction Hall as [|f names Hf _ IH]; [done|].
  cbn [FS.mkdir_each List.map].
  destruct (mkdir_child_cases t v f Hv) as [(Hnone & _) | [(_ & ->) | (Hd & _)]].
  - apply is_dir_lookup in Hf. congruence.
  - done.
  - congruence.
Qed.

End FSFacts.

Arguments FS.mkdir : simpl never.

(** *** More on the file system *)

Section FSMore.

Implicit Types (t : gmap path FS.node) (p q v : path) (f : string).

Lemma mkdir_unfold p t :
  FS.mkdir p t =
  match FS.os_mkdir p t with
  | (t', Ret u) => (t', Ret u)
  | (t', Raise FileNotFoundError) =>
      match p with
      | [] => (t', Raise FileNotFoundError)
      | _ :: d =>
          match FS.mkdir d t' with
          | (t1, Ret _) => FS.mkdir_flat true p t1
          | (t1, Raise e) => (t1, Raise e)
          end
      end
  | (t', Raise e) => if FS.is_dir t' p then (t', Ret tt) else (t', Raise e)
  end.
Proof. by destruct p. Qed.

Lemma os_mkdir_cases p t :
  (exists e, FS.os_mkdir p t = (t, Raise e)) \/
  (FS.os_mkdir p t = (<[p := FS.Dir]> t, Ret tt) /\ t !! p = None /\ p <> []).
Proof.
  destruct p as [|f d]; cbn; [by eauto|].
  destruct (FS.node_at t d) as [[|?]|]; [| by eauto | by eauto].
  destruct (t !! (f :: d)) eqn:E; [by eauto|]. right. by repeat split.
Qed.

Lemma mkdir_flat_cases b p t :
  (exists r, FS.mkdir_flat b p t = (t, r) /\ (r = Ret tt -> FS.is_dir t p = true)) \/
  (FS.mkdir_flat b p t = (<[p := FS.Dir]> t, Ret tt) /\ t !! p = None /\ p <> []).
Proof.
  unfold FS.mkdir_flat.
  destruct (os_mkdir_cases p t) as [[e ->] | (-> & Hn & Hp)]; [| by right].
  left. destruct e; try (eexists; split; [reflexivity | discriminate]);
    (destruct (b && FS.is_dir t p) eqn:E; eexists; (split; [reflexivity|]);
     [ intros _; by apply andb_true_iff in E as [_ ?] | discriminate ]).
Qed.

Lemma is_dir_insert p t : p <> [] -> FS.is_dir (<[p := FS.Dir]> t) p = true.
Proof. intros Hp. unfold FS.is_dir. destruct p; [done|]. cbn. by rewrite lookup_insert_eq. Qed.

(** [mkdir] never removes or replaces what is there, *)
Lemma mkdir_keeps p t q (n : FS.node) :
  t !! q = Some n -> (FS.mkdir p t).1 !! q = Some n.
Proof.
  revert t. induction p as [|f d IH]; intros t Hq; rewrite mkdir_unfold.
  - cbn. by destruct (FS.is_dir t []).
  - destruct (os_mkdir_cases (f :: d) t) as [[e ->] | (-> & Hn & _)].
    + destruct e; try (by destruct (FS.is_dir t (f :: d))).
      specialize (IH t Hq). destruct (FS.mkdir d t) as [t1 [u|e]]; cbn in *; [|done].
      destruct (mkdir_flat_cases true (f :: d) t1) as [(r & -> & _) | (-> & Hn & _)]; [done|].
      cbn. rewrite lookup_insert_ne; [done | congruence].
    + cbn. rewrite lookup_insert_ne; [done | congruence].
Qed.

(** and when it returns the path is a directory. *)
Lemma mkdir_ok_is_dir p t :
  (FS.mkdir p t).2 = Ret tt -> FS.is_dir (FS.mkdir p t).1 p = true.
Proof.
  rewrite mkdir_unfold.
  destruct (os_mkdir_cases p t) as [[e ->] | (-> & Hn & Hp)].
  - destruct e; try (destruct (FS.is_dir t p) eqn:E; cbn; [by rewrite E | discriminate]).
    destruct p as [|f d]; [discriminate|].
    destruct (FS.mkdir d t) as [t1 [u|e]]; cbn; [|discriminate].
    destruct (mkdir_flat_cases true (f :: d) t1) as [(r & -> & Hr) | (-> & _ & Hp)]; cbn.
    + exact Hr.
    + intros _. by apply is_dir_insert.
  - intros _. cbn. by apply is_dir_insert.
Qed.

Lemma is_dir_keeps t t' p :
  (forall q n, t !! q = Some n -> t' !! q = Some n) ->
  FS.is_dir t p = true -> FS.is_dir t' p = true.
Proof.
  intros K. unfold FS.is_dir. destruct p as [|f d]; [done|]. cbn.
  destruct (t !! (f :: d)) as [[|?]|] eqn:E; [|done|done].
  by rewrite (K _ _ E).
Qed.

Lemma exists_keeps t t' p :
  (forall q n, t !! q = Some n -> t' !! q = Some n) ->
  FS.exists_ t p = true -> FS.exists_ t' p = true.
Proof.
  intros K. unfold FS.exists_. destruct p as [|f d]; [done|]. cbn.
  destruct (t !! (f :: d)) as [n|] eqn:E; [|done].
  by rewrite (K _ _ E).
Qed.

Lemma mkdir_each_keeps (ps : list path) t q (n : FS.node) :
  t !! q = Some n -> (FS.mkdir_each ps t).1 !! q = Some n.
Proof.
  revert t. induction ps as [|p ps IH]; intros t Hq; [done|].
  cbn [FS.mkdir_each]. pose proof (mkdir_keeps p t q n Hq) as K.
  destruct (FS.mkdir p t) as [t1 [u|e]]; cbn in *; [by apply IH | done].
Qed.

(** When preparing a list of folders returns, each of them is a directory. *)
Lemma mkdir_each_ok (ps : list path) t :
  (FS.mkdir_each ps t).2 = Ret tt ->
  Forall (fun p => FS.is_dir (FS.mkdir_each ps t).1 p = true) ps.
Proof.
  revert t. induction ps as [|p ps IH]; intros t H; [constructor|].
  cbn [FS.mkdir_each] in *.
  pose proof (mkdir_ok_is_dir p t) as Hp.
  destruct (FS.mkdir p t) as [t1 [u|e]]; cbn in *; [|discriminate].
  constructor; [| by apply IH].
  apply (is_dir_keeps t1); [| by apply Hp; destruct u].
  intros q n. apply mkdir_each_keeps.
Qed.

End FSMore.

(** *** The monad *)

Section MonadFacts.

Context {S A B : Type}.

Lemma bind_assoc {C : Type} (m : M S A) (f : A -> M S B) (g : B -> M S C) (s : S) :
  bind (bind m f) g s = bind m (fun a => bind (f a) g) s.
Proof.
  unfold bind. destruct (m s) as [s1 e1 [a|e]]; [|done].
  destruct (f a s1) as [s2 e2 [b|e]]; [|done].
  destruct (g b s2) as [s3 e3 o3]. by rewrite app_assoc.
Qed.

(** What a bind emitted, and where it ended, from its two halves. *)
Lemma bind_ret_inv (m : M S A) (k : A -> M S B) (s : S) (a : A) :
  outcome (m s) = Ret a ->
  final (bind m k s) = final (k a (final (m s))) /\
  emitted (bind m k s) = (emitted (m s) ++ emitted (k a (final (m s))))%list /\
  outcome (bind m k s) = outcome (k a (final (m s))).
Proof.
  unfold bind. destruct (m s) as [s1 e1 [a'|e]]; cbn; [|discriminate].
  intros [= ->]. by destruct (k a s1).
Qed.

Lemma bind_raise_inv (m : M S A) (k : A -> M S B) (s : S) (e : exn) :
  outcome (m s) = Raise e ->
  final (bind m k s) = final (m s) /\
  emitted (bind m k s) = emitted (m s) /\
  outcome (bind m k s) = Raise e.
Proof.
  unfold bind. destruct (m s) as [s1 e1 [a'|e']]; cbn; [discriminate|].
  by intros [= ->].
Qed.

End MonadFacts.

Section MonadMore.

Context {S A B : Type}.

Lemma bind_emit (a : action) (k : unit -> M S B) (s : S) :
  bind (emit a) k s =
  match k tt s with Run s2 e2 o2 => Run s2 (a :: e2) o2 end.
Proof. reflexivity. Qed.

Lemma bind_run_ret (m : M S A) (k : A -> M S B) (s s1 : S) (e1 : list action) (a : A) :
  m s = Run s1 e1 (Ret a) ->
  bind m k s = match k a s1 with Run s2 e2 o2 => Run s2 (e1 ++ e2) o2 end.
Proof. unfold bind. by intros ->. Qed.

Lemma bind_run_raise (m : M S A) (k : A -> M S B) (s s1 : S) (e1 : list action) (e : exn) :
  m s = Run s1 e1 (Raise e) -> bind m k s = Run s1 e1 (Raise e).
Proof. unfold bind. by intros ->. Qed.

End MonadMore.

(** *** Methods as steps of a relation *)

Section Steps.

Context {S : Type} (R : S -> S -> Prop) `{!Reflexive R} `{!Transitive R}.

Lemma steps_ret {A} (a : A) : steps R (ret a).
Proof. intros s. cbn. reflexivity. Qed.

Lemma steps_raise {A} (e : exn) : steps R (raise e : M S A).
Proof. intros s. cbn. reflexivity. Qed.

Lemma steps_get : steps R get.
Proof. intros s. cbn. reflexivity. Qed.

Lemma steps_emit (a : action) : steps R (emit a).
Proof. intros s. cbn. reflexivity. Qed.

Lemma steps_lift_res {A} (r : res A) : steps R (lift_res r).
Proof. intros s. cbn. reflexivity. Qed.

Lemma steps_bind {A B} (m : M S A) (k : A -> M S B) :
  steps R m -> (forall a, steps R (k a)) -> steps R (bind m k).
Proof.
  intros Hm Hk s. specialize (Hm s). unfold bind.
  destruct (m s) as [s1 e1 [a|e]]; cbn in *; [|done].
  specialize (Hk a s1). destruct (k a s1) as [s2 e2 o2]. cbn in *.
  by etransitivity.
Qed.

Lemma steps_try_except {A} (m : M S A) (c : exn -> bool) (h : exn -> M S A) :
  steps R m -> (forall e, steps R (h e)) -> steps R (try_except m c h).
Proof.
  intros Hm Hh s. specialize (Hm s). unfold try_except.
  destruct (m s) as [s1 e1 [a|e]]; cbn in *; [done|].
  destruct (c e); [|done].
  specialize (Hh e s1). destruct (h e s1) as [s2 e2 o2]. cbn in *.
  by etransitivity.
Qed.

Lemma steps_try_finally {A} (m : M S A) (fin : M S unit) :
  steps R m -> steps R fin -> steps R (try_finally m fin).
Proof.
  intros Hm Hf s. specialize (Hm s). unfold try_finally.
  destruct (m s) as [s1 e1 o1]. cbn in *.
  specialize (Hf s1). destruct (fin s1) as [s2 e2 [u|e]]; cbn in *; by etransitivity.
Qed.

Lemma steps_for_each {A} (xs : list A) (body : A -> M S unit) :
  (forall x, steps R (body x)) -> steps R (for_each xs body).
Proof.
  intros Hb. induction xs as [|x xs IH]; cbn; [apply steps_ret|].
  apply steps_bind; [apply Hb | by intros _].
Qed.

End Steps.

(** *** The watcher, method by method *)

Section WatcherFacts.

Import Watcher.

Variable rt : runtime.

Lemma world_eta (w : world) : {| self := self w; disk := disk w |} = w.
Proof. by destruct w. Qed.

Lemma last_char_action_filename (src : path) (d : datetime) :
  Text.last_char (action_filename src (strftime_stamp d)) = Some "d"%char.
Proof.
  unfold action_filename.
  repeat (rewrite last_char_app; [| repeat apply app_nonempty_r; discriminate]).
  reflexivity.
Qed.

Lemma last_char_copy_filename (src : path) (d : datetime) :
  Text.last_char (copy_filename src (strftime_stamp d)) = Some (Text.digit (second d)).
Proof.
  unfold copy_filename.
  rewrite last_char_app; [| apply app_nonempty_r, stamp_nonempty].
  rewrite last_char_app; [| apply stamp_nonempty].
  apply last_char_stamp.
Qed.

Lemma copy_path_ne_record (src : path) (io : outside) (w : world) :
  copy_path src io w <> record_path src io w.
Proof.
  unfold copy_path, record_path. intros H.
  injection H as H. apply (f_equal Text.last_char) in H.
  rewrite last_char_copy_filename, last_char_action_filename in H.
  injection H as H. by apply digit_not_d in H.
Qed.

(** The file is fingerprinted with no effect on the world; the outcome and
    the journal depend only on what the outside answered. *)
Lemma get_file_hash_final (p : path) (io : outside) (w : world) :
  final (_get_file_hash rt p io w) = w.
Proof.
  unfold _get_file_hash. py_unfold. cbn.
  destruct (open_read io); cbn; [done|]. by destruct (stat_hash io).
Qed.

Lemma get_file_hash_outcome (p q : path) (io : outside) (w w' : world) :
  outcome (_get_file_hash rt p io w) = outcome (_get_file_hash rt q io w').
Proof.
  unfold _get_file_hash. py_unfold. cbn.
  destruct (open_read io); cbn; [done|]. by destruct (stat_hash io).
Qed.

Lemma get_file_hash_no_write (p : path) (io : outside) (w : world) :
  Forall (fun a => is_write a = false) (emitted (_get_file_hash rt p io w)).
Proof.
  unfold _get_file_hash. py_unfold. cbn.
  destruct (open_read io); cbn; [by repeat constructor|].
  destruct (stat_hash io); cbn; by repeat constructor.
Qed.


(** The text of the record can be encoded exactly when every component of
    the path of the source can. *)
Lemma record_content_encodable (src : path) (io : outside) :
  Text.encodable (record_content rt src io) = forallb Text.encodable src.
Proof.
  unfold record_content.
  assert (H : Text.encodable (FS.name src) && Text.encodable (FS.str src)
              = forallb Text.encodable src).
  { rewrite encodable_str. destruct (forallb Text.encodable src) eqn:E.
    - by rewrite encodable_name.
    - apply andb_false_r. }
  destruct (stat_meta io); rewrite encodable_action_content;
    auto using isoformat_ascii, strftime_human_ascii.
Qed.

(** [shutil.copy2]: either nothing is changed and it raises, or the target
    holds what was read from the source. *)
Lemma copy2_cases (src dst : path) (io : outside) (w : world) :
  let r := copy2 src dst io w in
  let target := copy_target src dst (disk w) in
  (final r = w /\ emitted r = [] /\ exists e, outcome r = Raise e) \/
  (exists u data,
     copy_open io = Ret u /\
     final r = {| self := self w; disk := <[target := FS.File data]> (disk w) |} /\
     (emitted r = [] \/ emitted r = [Copied src target])).
Proof.
  unfold copy2. cbv zeta.
  destruct (bool_decide _); [left; by eauto|].
  destruct (copy_open io) as [u|e]; [|left; by eauto].
  destruct (FS.open_w _ _) as [o|e]; [|left; by eauto].
  destruct (copy_data io) as [data [e|]]; right; exists u, data; by eauto.
Qed.

Lemma copy_target_cases (src dst : path) (t : gmap path FS.node) :
  copy_target src dst t = dst \/ copy_target src dst t = FS.name src :: dst.
Proof. unfold copy_target. destruct (FS.is_dir t dst); by eauto. Qed.

(** [_create_action_file], step by step. *)
Lemma create_run (src : path) (io : outside) (w : world) :
  _create_action_file rt src io w =
  let record := record_path src io w in
  let content := record_content rt src io in
  let looked :=
    match stat_meta io with
    | Ret _ => [Stat src]
    | Raise _ => [Stat src; Log WARNING "Could not get file metadata"]
    end in
  match FS.open_w record (disk w) with
  | Raise e => Run w looked (Raise e)
  | Ret _ =>
      if Text.encodable content then
        let w1 := {| self := self w; disk := <[record := FS.File content]> (disk w) |} in
        if is_text_extension (Text.lower (Text.suffix (FS.name src))) then
          match copy2 src (copy_path src io w) io w1 with
          | Run w2 e2 o2 =>
              Run w2
                (looked ++ Wrote record :: Log INFO "Created action file" :: e2 ++
                 [match o2 with
                  | Ret _ => Log INFO "Copied source file"
                  | Raise _ => Log WARNING "Could not copy source file"
                  end])%list
                (Ret record)
          end
        else Run w1 (looked ++ [Wrote record; Log INFO "Created action file"])%list
               (Ret record)
      else
        Run {| self := self w; disk := <[record := FS.File ""]> (disk w) |} looked
          (Raise UnicodeEncodeError)
  end.
Proof.
  unfold record_path, copy_path, record_content.
  unfold _create_action_file, write_text, FS.write_text. py_unfold. cbn.
  destruct (stat_meta io); cbn;
    (destruct (FS.open_w (action_filename _ _ :: _) _); cbn; [| by rewrite world_eta];
     destruct (Text.encodable _); cbn; [| done];
     destruct (is_text_extension _); cbn; [| done];
     destruct (copy2 _ _ _ _) as [w2 e2 [u|e']]; by rewrite app_nil_r).
Qed.

(** When the record cannot be opened for writing, [_create_action_file]
    raises and has changed nothing. *)
Lemma create_raise (src : path) (io : outside) (w : world) (e : exn) :
  FS.open_w (record_path src io w) (disk w) = Raise e ->
  let r := _create_action_file rt src io w in
  outcome r = Raise e /\ final r = w /\
  Forall (fun a => is_write a = false) (emitted r).
Proof.
  intros H. rewrite create_run. cbv zeta. rewrite H. cbn.
  destruct (stat_meta io); by repeat constructor.
Qed.

(** When it can be opened and the text cannot be encoded, the record is
    left empty and [_create_action_file] raises. *)
Lemma create_unencodable (src : path) (io : outside) (w : world) (o : option string) :
  FS.open_w (record_path src io w) (disk w) = Ret o ->
  Text.encodable (record_content rt src io) = false ->
  let r := _create_action_file rt src io w in
  outcome r = Raise UnicodeEncodeError /\
  final r = {| self := self w;
               disk := <[record_path src io w := FS.File ""]> (disk w) |} /\
  Forall (fun a => is_write a = false) (emitted r).
Proof.
  intros H He. rewrite create_run. cbv zeta. rewrite H, He. cbn.
  destruct (stat_meta io); by repeat constructor.
Qed.

Lemma copy_target_ne_record (src : path) (io : outside) (w : world) (t : gmap path FS.node) :
  copy_target src (copy_path src io w) t <> record_path src io w.
Proof.
  destruct (copy_target_cases src (copy_path src io w) t) as [-> | ->].
  - apply copy_path_ne_record.
  - unfold copy_path, record_path. intros H.
    apply (f_equal (@List.length string)) in H. cbn in H. lia.
Qed.

(** When it can be opened and the text can be encoded, the record is there
    afterwards with the text built from the metadata, whatever happens to
    the copy. *)
Lemma create_ret (src : path) (io : outside) (w : world) (o : option string) :
  FS.open_w (record_path src io w) (disk w) = Ret o ->
  Text.encodable (record_content rt src io) = true ->
  let r := _create_action_file rt src io w in
  outcome r = Ret (record_path src io w) /\
  self (final r) = self w /\
  In (Wrote (record_path src io w)) (emitted r) /\
  disk (final r) !! record_path src io w = Some (FS.File (record_content rt src io)).
Proof.
  intros H He. rewrite create_run. cbv zeta. rewrite H, He.
  destruct (is_text_extension _).
  - set (w1 := {| self := self w; disk := _ |}).
    destruct (copy2_cases src (copy_path src io w) io w1)
      as [(Hf & _) | (u & data & _ & Hf & _)];
      destruct (copy2 _ _ _ w1) as [w2 e2 o2]; cbn in Hf; subst w2;
      (split; [done|]); (split; [done|]);
      (split; [apply in_or_app; right; by left|]); cbn.
    + apply lookup_insert_eq.
    + rewrite lookup_insert_ne by apply copy_target_ne_record.
      apply lookup_insert_eq.
  - cbn. split; [done|]. split; [done|].
    split; [apply in_or_app; right; by left | apply lookup_insert_eq].
Qed.

Lemma on_created_dir (ev : event) (io : outside) (w : world) :
  is_directory ev = true -> on_created rt ev io w = Run w [] (Ret tt).
Proof. intros H. unfold on_created. by rewrite H. Qed.

Ltac hash_cases ev io w :=
  pose proof (get_file_hash_final (src_path ev) io w);
  destruct (_get_file_hash rt (src_path ev) io w) as [wh eh oh];
  cbn in *; subst wh.

Lemma on_created_hash_raise (ev : event) (io : outside) (w : world) (e : exn) :
  is_directory ev = false ->
  outcome (_get_file_hash rt (src_path ev) io w) = Raise e ->
  let r := on_created rt ev io w in
  outcome r = Raise e /\ final r = w /\
  emitted r = emitted (_get_file_hash rt (src_path ev) io w).
Proof.
  intros Hd Hh. unfold on_created. rewrite Hd. py_unfold.
  hash_cases ev io w. by subst oh.
Qed.

Lemma on_created_seen (ev : event) (io : outside) (w : world) (h : string) :
  is_directory ev = false ->
  outcome (_get_file_hash rt (src_path ev) io w) = Ret h ->
  h ∈ processed_files (self w) ->
  let r := on_created rt ev io w in
  outcome r = Ret tt /\ final r = w /\
  emitted r = (emitted (_get_file_hash rt (src_path ev) io w)
               ++ [Log DEBUG "File already processed"])%list.
Proof.
  intros Hd Hh Hin. unfold on_created. rewrite Hd. py_unfold.
  hash_cases ev io w. subst oh. cbn.
  by rewrite bool_decide_true.
Qed.

Lemma on_created_hidden (ev : event) (io : outside) (w : world) (h : string) :
  is_directory ev = false ->
  outcome (_get_file_hash rt (src_path ev) io w) = Ret h ->
  h ∉ processed_files (self w) ->
  is_hidden (src_path ev) = true ->
  let r := on_created rt ev io w in
  outcome r = Ret tt /\ final r = w /\
  emitted r = (emitted (_get_file_hash rt (src_path ev) io w)
               ++ [Log DEBUG "Skipping temporary/hidden file"])%list.
Proof.
  intros Hd Hh Hin Hs. unfold on_created. rewrite Hd. py_unfold.
  hash_cases ev io w. subst oh. cbn.
  rewrite bool_decide_false by done.
  unfold is_hidden in Hs. by rewrite Hs.
Qed.

Lemma on_created_outside (ev : event) (io : outside) (w : world) (h : string) :
  is_directory ev = false ->
  outcome (_get_file_hash rt (src_path ev) io w) = Ret h ->
  h ∉ processed_files (self w) ->
  is_hidden (src_path ev) = false ->
  is_outside_drop (src_path ev) w = true ->
  let r := on_created rt ev io w in
  outcome r = Ret tt /\ final r = w /\
  emitted r = (emitted (_get_file_hash rt (src_path ev) io w)
               ++ [Log DEBUG "Skipping file in subdirectory"])%list.
Proof.
  intros Hd Hh Hin Hs Ho. unfold on_created. rewrite Hd. py_unfold.
  hash_cases ev io w. subst oh. cbn.
  rewrite bool_decide_false by done.
  unfold is_hidden, is_outside_drop in Hs, Ho. by rewrite Hs, Ho.
Qed.

Lemma on_created_skipped (ev : event) (io : outside) (w : world) (h : string) :
  is_directory ev = false ->
  outcome (_get_file_hash rt (src_path ev) io w) = Ret h ->
  h ∉ processed_files (self w) ->
  is_hidden (src_path ev) || is_outside_drop (src_path ev) w = true ->
  let r := on_created rt ev io w in
  outcome r = Ret tt /\ final r = w /\
  exists msg,
    emitted r = (emitted (_get_file_hash rt (src_path ev) io w) ++ [Log DEBUG msg])%list.
Proof.
  intros Hd Hh Hin Hs.
  destruct (is_hidden (src_path ev)) eqn:Hhid.
  - destruct (on_created_hidden ev io w h Hd Hh Hin Hhid) as (? & ? & ?). by eauto.
  - destruct (on_created_outside ev io w h Hd Hh Hin Hhid Hs) as (? & ? & ?). by eauto.
Qed.

Lemma on_created_new (ev : event) (io : outside) (w : world) (h : string) :
  is_directory ev = false ->
  outcome (_get_file_hash rt (src_path ev) io w) = Ret h ->
  h ∉ processed_files (self w) ->
  is_hidden (src_path ev) = false ->
  is_outside_drop (src_path ev) w = false ->
  let rc := _create_action_file rt (src_path ev) io w in
  let r := on_created rt ev io w in
  outcome r = Ret tt /\
  final r = match outcome rc with
            | Ret _ => mark_processed h (final rc)
            | Raise _ => final rc
            end /\
  emitted r = (emitted (_get_file_hash rt (src_path ev) io w)
               ++ Log INFO "New file detected" :: Sleep 500 :: emitted rc
               ++ [match outcome rc with
                   | Ret _ => Log INFO "Successfully processed"
                   | Raise _ => Log ERROR "Error processing file"
                   end])%list.
Proof.
  intros Hd Hh Hin Hhid Hout. unfold on_created. rewrite Hd. py_unfold.
  hash_cases ev io w. subst oh. cbn.
  rewrite bool_decide_false by done.
  unfold is_hidden, is_outside_drop in *. rewrite Hhid, Hout. cbn.
  destruct (_create_action_file rt (src_path ev) io w) as [wc ec [p|e]]; cbn;
    by repeat split.
Qed.

(** [_create_action_file] never touches the handler itself. *)
Lemma create_self (src : path) (io : outside) (w : world) :
  self (final (_create_action_file rt src io w)) = self w.
Proof.
  rewrite create_run. cbv zeta.
  destruct (FS.open_w _ _); [|done].
  destruct (Text.encodable _); [|done].
  destruct (is_text_extension _); [|done].
  set (w1 := {| self := self w; disk := _ |}).
  destruct (copy2_cases src (copy_path src io w) io w1)
    as [(Hf & _) | (u & data & _ & Hf & _)];
    destruct (copy2 _ _ _ w1) as [w2 e2 o2]; cbn in *; by subst w2.
Qed.

Lemma create_outcome (src : path) (io : outside) (w : world) :
  outcome (_create_action_file rt src io w) =
  match FS.open_w (record_path src io w) (disk w) with
  | Ret _ =>
      if Text.encodable (record_content rt src io) then Ret (record_path src io w)
      else Raise UnicodeEncodeError
  | Raise e => Raise e
  end.
Proof.
  destruct (FS.open_w (record_path src io w) (disk w)) as [o|e] eqn:E.
  - destruct (Text.encodable (record_content rt src io)) eqn:He.
    + by apply (create_ret src io w o).
    + by apply (create_unencodable src io w o).
  - by apply (create_raise src io w e).
Qed.

(** One event leaves the world as it was and writes nothing; or it is a new,
    unfiltered file whose record was opened and left empty, its text not
    being encodable; or it is a new, unfiltered file whose record was
    written and whose fingerprint was then remembered. *)
Lemma on_created_inv (ev : event) (io : outside) (w : world) :
  let r := on_created rt ev io w in
  let record := record_path (src_path ev) io w in
  (final r = w /\ Forall (fun a => is_write a = false) (emitted r)) \/
  (exists h,
     outcome (_get_file_hash rt (src_path ev) io w) = Ret h /\
     (h ∉ processed_files (self w)) /\
     filtered_out ev w = false /\
     outcome r = Ret tt /\
     Text.encodable (record_content rt (src_path ev) io) = false /\
     final r = {| self := self w; disk := <[record := FS.File ""]> (disk w) |} /\
     Forall (fun a => is_write a = false) (emitted r)) \/
  (exists h,
     outcome (_get_file_hash rt (src_path ev) io w) = Ret h /\
     (h ∉ processed_files (self w)) /\
     filtered_out ev w = false /\
     outcome r = Ret tt /\
     outcome (_create_action_file rt (src_path ev) io w) = Ret record /\
     final r = mark_processed h (final (_create_action_file rt (src_path ev) io w)) /\
     In (Wrote record) (emitted r)).
Proof.
  intros r record. subst r record.
  destruct (is_directory ev) eqn:Hd.
  { left. rewrite on_created_dir by done. by split. }
  pose proof (get_file_hash_no_write (src_path ev) io w) as Hnw.
  destruct (outcome (_get_file_hash rt (src_path ev) io w)) as [h|e] eqn:Hh.
  2:{ left. destruct (on_created_hash_raise ev io w e Hd Hh) as (_ & -> & ->). done. }
  destruct (decide (h ∈ processed_files (self w))) as [Hin|Hin].
  { left. destruct (on_created_seen ev io w h Hd Hh Hin) as (_ & -> & ->).
    split; [done|]. apply Forall_app. split; [done | by repeat constructor]. }
  destruct (is_hidden (src_path ev) || is_outside_drop (src_path ev) w) eqn:Hf.
  { left. destruct (on_created_skipped ev io w h Hd Hh Hin Hf) as (_ & -> & msg & ->).
    split; [done|]. apply Forall_app. split; [done | by repeat constructor]. }
  apply orb_false_iff in Hf as [Hhid Hout].
  assert (Hfo : filtered_out ev w = false).
  { unfold filtered_out. by rewrite Hd, Hhid, Hout. }
  destruct (on_created_new ev io w h Hd Hh Hin Hhid Hout) as (Ho & Hfin & Hem).
  destruct (FS.open_w (record_path (src_path ev) io w) (disk w)) as [o|e] eqn:E.
  - destruct (Text.encodable (record_content rt (src_path ev) io)) eqn:He.
    + right. right. exists h.
      destruct (create_ret (src_path ev) io w o E He) as (Hrc & _ & Hw & _).
      rewrite Hrc in Hfin, Hem. repeat split; try done.
      rewrite Hem. apply in_or_app. right. right. right.
      apply in_or_app. by left.
    + right. left. exists h.
      destruct (create_unencodable (src_path ev) io w o E He) as (Hrc & Hw & Hnone).
      rewrite Hrc in Hfin, Hem. rewrite Hfin, Hem, Hw. repeat split; try done.
      apply Forall_app. split; [done|]. repeat constructor.
      apply Forall_app. split; [done | by repeat constructor].
  - left. destruct (create_raise (src_path ev) io w e E) as (Hrc & Hw & Hnone).
    rewrite Hrc in Hfin, Hem. rewrite Hfin, Hem. split; [done|].
    apply Forall_app. split; [done|]. repeat constructor.
    apply Forall_app. split; [done | by repeat constructor].
Qed.



End WatcherFacts.

(** *** More on the handler *)

Section HandlerMore.

Import Watcher.

Variable rt : runtime.

(** [_create_action_file] changes the disk at the record and at the copy
    (which goes into the directory that has its name, if there is one),
    nowhere else. *)
Lemma create_frame (src : path) (io : outside) (w : world) (q : path) :
  q <> record_path src io w -> q <> copy_path src io w -> q <> copy_inside src io w ->
  disk (final (_create_action_file rt src io w)) !! q = disk w !! q.
Proof.
  intros Hr Hc Hi. rewrite create_run. cbv zeta.
  destruct (FS.open_w _ _); [|done].
  destruct (Text.encodable _); [| cbn; by rewrite lookup_insert_ne].
  destruct (is_text_extension _); [| cbn; by rewrite lookup_insert_ne].
  set (w1 := {| self := self w; disk := _ |}).
  destruct (copy2_cases src (copy_path src io w) io w1)
    as [(Hf & _) | (u & data & _ & Hf & _)];
    destruct (copy2 _ _ _ w1) as [w2 e2 o2]; cbn in Hf; subst w2; cbn.
  - by rewrite lookup_insert_ne.
  - rewrite lookup_insert_ne; [by rewrite lookup_insert_ne|].
    unfold copy_inside in Hi. unfold copy_target. by destruct (FS.is_dir _ _).
Qed.


(** The only [write_text] of [_create_action_file] is the record. *)
Lemma create_wrote (src : path) (io : outside) (w : world) (p : path) :
  In (Wrote p) (emitted (_create_action_file rt src io w)) -> p = record_path src io w.
Proof.
  rewrite create_run. cbv zeta.
  assert (Hl : ~ In (Wrote p)
                 match stat_meta io with
                 | Ret _ => [Stat src]
                 | Raise _ => [Stat src; Log WARNING "Could not get file metadata"]
                 end).
  { destruct (stat_meta io); cbn; intros H; by repeat destruct H as [H|H]. }
  destruct (FS.open_w _ _); [|done].
  destruct (Text.encodable _); [|done].
  destruct (is_text_extension _).
  - set (w1 := {| self := self w; disk := _ |}).
    destruct (copy2_cases src (copy_path src io w) io w1)
      as [(_ & Hem & _) | (u & data & _ & _ & [Hem | Hem])];
      destruct (copy2 _ _ _ w1) as [w2 e2 o2]; cbn in Hem; subst e2; cbn;
      intros [H|H]%in_app_or; try done;
      repeat (destruct H as [H|H]; [try discriminate H; by injection H as <- |]);
      try done; destruct o2; by repeat destruct H as [H|H].
  - cbn. intros [H|H]%in_app_or; [done|].
    repeat (destruct H as [H|H]; [try discriminate H; by injection H as <- |]). done.
Qed.

(** [on_created] changes the disk at the record and at the copy, nowhere
    else. *)
Lemma on_created_frame (ev : event) (io : outside) (w : world) (q : path) :
  q <> record_path (src_path ev) io w -> q <> copy_path (src_path ev) io w ->
  q <> copy_inside (src_path ev) io w ->
  disk (final (on_created rt ev io w)) !! q = disk w !! q.
Proof.
  intros Hr Hc Hi.
  destruct (on_created_inv rt ev io w)
    as [[-> _] | [(h & _ & _ & _ & _ & _ & -> & _) | (h & _ & _ & _ & _ & _ & -> & _)]];
    [done | cbn; by rewrite lookup_insert_ne |].
  cbn. by apply create_frame.
Qed.

End HandlerMore.

(** *** The orchestrator: what its methods leave alone *)

Section OrchInvariant.
Import Orch.

Variable P : action -> Prop.

Lemma keeps_ret {A} (a : A) : keeps P (ret a).
Proof. intros s. by split. Qed.

Lemma keeps_raise {A} (e : exn) : keeps P (raise e : M world A).
Proof. intros s. by split. Qed.

Lemma keeps_get : keeps P get.
Proof. intros s. by split. Qed.

Lemma keeps_lift_res {A} (r : res A) : keeps P (lift_res r).
Proof. intros s. by split. Qed.

Lemma keeps_emit (a : action) : P a -> keeps P (emit a).
Proof. intros Ha s. split; [done | by repeat constructor]. Qed.

Lemma keeps_bind {A B} (m : M world A) (k : A -> M world B) :
  keeps P m -> (forall a, keeps P (k a)) -> keeps P (bind m k).
Proof.
  intros Hm Hk s. specialize (Hm s). unfold bind.
  destruct (m s) as [s1 e1 [a|e]]; cbn in *; [|done].
  specialize (Hk a s1). destruct (k a s1) as [s2 e2 o2]. cbn in *.
  destruct Hm as [E1 Hm], Hk as [E2 Hk]. split; [congruence | by apply Forall_app].
Qed.

Lemma keeps_try_except {A} (m : M world A) (c : exn -> bool) (h : exn -> M world A) :
  keeps P m -> (forall e, keeps P (h e)) -> keeps P (try_except m c h).
Proof.
  intros Hm Hh s. specialize (Hm s). unfold try_except.
  destruct (m s) as [s1 e1 [a|e]]; cbn in *; [done|].
  destruct (c e); [|done].
  specialize (Hh e s1). destruct (h e s1) as [s2 e2 o2]. cbn in *.
  destruct Hm as [E1 Hm], Hh as [E2 Hh]. split; [congruence | by apply Forall_app].
Qed.

Lemma keeps_for_each {A} (xs : list A) (body : A -> M world unit) :
  (forall x, keeps P (body x)) -> keeps P (for_each xs body).
Proof.
  intros Hb. induction xs as [|x xs IH]; cbn; [apply keeps_ret|].
  apply keeps_bind; [apply Hb | by intros _].
Qed.

Lemma keeps_mkdir (p : path) : keeps P (mkdir p).
Proof. intros s. unfold mkdir. by destruct (FS.mkdir p (disk s)). Qed.

Lemma keeps_append_text (p : path) (data : string) :
  (forall q, P (Appended q)) -> keeps P (append_text p data).
Proof.
  intros HP s. unfold append_text.
  destruct (FS.append_text p data (disk s)) as [t [u|e]]; cbn; split; try done.
  by repeat constructor.
Qed.

End OrchInvariant.

Section OrchStages.
Import Orch.

Variable win32 : bool.
Variable P : action -> Prop.
Hypothesis P_log : forall l msg, P (Log l msg).
Hypothesis P_appended : forall q, P (Appended q).
Hypothesis P_spawned : forall argv p, P (Spawned argv p).
Hypothesis P_scanned : forall d, P (Scanned d).

Ltac keeps_step :=
  first
    [ apply keeps_emit
    | apply keeps_ret | apply keeps_raise | apply keeps_get | apply keeps_lift_res
    | apply keeps_mkdir | apply keeps_append_text
    | apply P_log | apply P_appended | apply P_spawned | apply P_scanned
    | match goal with
      | |- keeps _ (if ?b then _ else _) => destruct b
      | |- keeps _ (match ?l with [] => _ | _ :: _ => _ end) => destruct l
      | |- keeps _ (match ?o with Some _ => _ | None => _ end) => destruct o
      end
    | apply keeps_for_each; intros ?
    | apply keeps_try_except; [| intros ?]
    | apply keeps_bind; [| intros ?] ].

Lemma keeps_popen (argv : list string) (answer : res nat) :
  keeps P (popen win32 argv answer).
Proof. unfold popen. repeat keeps_step. Qed.

Lemma keeps_scan_stage (folder : path) (fault : option exn) (listable : bool) :
  P (Stat folder) -> keeps P (scan_stage win32 folder fault listable).
Proof. intros HP. unfold scan_stage. repeat keeps_step. done. Qed.

Ltac keeps_go := repeat first [ apply keeps_popen | apply keeps_scan_stage | keeps_step ].

Lemma keeps_log_pending_tasks (tasks : list path) (io : outside) :
  keeps P (_log_pending_tasks tasks io).
Proof. unfold _log_pending_tasks. keeps_go. Qed.

Lemma keeps_invoke_qwen_code (tasks : list path) (io : outside) :
  keeps P (_invoke_qwen_code win32 tasks io).
Proof. unfold _invoke_qwen_code. keeps_go. Qed.

Lemma keeps_trigger_qwen_code (tasks : list path) (auto : bool) (io : outside) :
  keeps P (trigger_qwen_code win32 tasks auto io).
Proof. unfold trigger_qwen_code. keeps_go. Qed.

Lemma keeps_needs_action_stage (io : outside) :
  (forall v, P (Stat ("Needs_Action" :: v))) ->
  keeps P (needs_action_stage win32 io).
Proof.
  intros HP. unfold needs_action_stage, check_needs_action. keeps_go. apply HP.
Qed.

End OrchStages.

(** *** The orchestrator, method by method *)

Section CycleFacts.
Import Orch.
Variable win32 : bool.

Lemma run_cycle_split (io : outside) (w : world) :
  run_cycle win32 io w =
  bind (needs_action_stage win32 io) (fun _ => approved_stage win32 io) w.
Proof. symmetry. apply bind_assoc. Qed.

Lemma scan_stage_stat_first (folder : path) (fault : option exn) (listable : bool)
    (s : world) :
  exists rest, emitted (scan_stage win32 folder fault listable s) = Stat folder :: rest.
Proof.
  unfold scan_stage. py_unfold. cbn.
  destruct fault; cbn; [by eexists|].
  destruct (negb _); cbn; by eexists.
Qed.

Lemma bind_emitted_prefix {A B} (m : M world A) (k : A -> M world B) (s : world) :
  exists rest, emitted (bind m k s) = (emitted (m s) ++ rest)%list.
Proof.
  unfold bind. destruct (m s) as [s1 e1 [a|e]]; cbn.
  - destruct (k a s1). by eexists.
  - exists []. by rewrite app_nil_r.
Qed.

Lemma bind_get {B} (k : world -> M world B) (s : world) : bind get k s = k s s.
Proof. unfold bind, get. by destruct (k s s). Qed.

Lemma needs_action_stage_stat_first (io : outside) (s : world) :
  exists rest,
    emitted (needs_action_stage win32 io s) = Stat ("Needs_Action" :: vault_path (self s)) :: rest.
Proof.
  unfold needs_action_stage.
  destruct (bind_emitted_prefix (check_needs_action win32 io)
              (fun l => match l with [] => ret tt | _ => trigger_qwen_code win32 l true io end) s)
    as [rest ->].
  unfold check_needs_action. rewrite bind_get.
  destruct (scan_stage_stat_first ("Needs_Action" :: vault_path (self s))
              (fault_needs_action io) (listable_needs_action io) s) as [rest' ->].
  by eexists.
Qed.

Lemma approved_stage_stat_first (io : outside) (s : world) :
  exists rest,
    emitted (approved_stage win32 io s) = Stat ("Approved" :: vault_path (self s)) :: rest.
Proof.
  unfold approved_stage.
  destruct (bind_emitted_prefix (check_approved_actions win32 io)
              (fun l => match l with [] => ret tt | _ => process_approved_actions l io end) s)
    as [rest ->].
  unfold check_approved_actions. rewrite bind_get.
  destruct (scan_stage_stat_first ("Approved" :: vault_path (self s))
              (fault_approved io) (listable_approved io) s) as [rest' ->].
  by eexists.
Qed.

End CycleFacts.

Section OrchFacts.
Import Orch.

Lemma set_disk_same (w : world) : set_disk (disk w) w = w.
Proof. by destruct w. Qed.

Lemma for_each_mkdir (names : list string) (v : path) (w : world) :
  for_each names (fun folder => mkdir (folder :: v)) w =
  let '(t, r) := FS.mkdir_each (List.map (fun f => f :: v) names) (disk w) in
  Run (set_disk t w) [] r.
Proof.
  revert w. induction names as [|f names IH]; intros w.
  - cbn. by rewrite set_disk_same.
  - cbn [for_each List.map FS.mkdir_each]. unfold bind, mkdir at 1.
    destruct (FS.mkdir (f :: v) (disk w)) as [t' [u|e]]; [|done].
    rewrite IH. cbn [disk set_disk].
    by destruct (FS.mkdir_each _ t') as [t r].
Qed.

Lemma ensure_folders_eq (w : world) :
  _ensure_folders w =
  let '(t, r) := FS.mkdir_each (List.map (fun f => f :: vault_path (self w)) folders) (disk w) in
  Run (set_disk t w) [] r.
Proof.
  unfold _ensure_folders, bind, get.
  rewrite for_each_mkdir. by destruct (FS.mkdir_each _ _) as [t r].
Qed.

End OrchFacts.

Section EntryFacts.
Import Orch.

Lemma string_app_assoc (a b c : string) : (a +:+ b) +:+ c = a +:+ b +:+ c.
Proof.
  induction a as [|x a IH]; [done|].
  change ((String x (a +:+ b)) +:+ c = String x (a +:+ b +:+ c)).
  change (String x ((a +:+ b) +:+ c) = String x (a +:+ b +:+ c)).
  by rewrite IH.
Qed.

Lemma mentions_app_r (entry text tail : string) :
  mentions entry text -> mentions (entry +:+ tail) text.
Proof.
  intros (a & b & ->). exists a, (b +:+ tail). by rewrite !string_app_assoc.
Qed.

Lemma fold_lines_prefix (files : list path) (init : string) :
  exists rest,
    List.fold_left (fun acc f => acc +:+ "- `" +:+ FS.name f +:+ "`
") files init = init +:+ rest.
Proof.
  revert init. induction files as [|f files IH]; intros init; cbn [List.fold_left].
  - exists "". induction init as [|x i IHi]; [done|].
    change (String x i = String x (i +:+ "")). by rewrite <- IHi.
  - destruct (IH (init +:+ "- `" +:+ FS.name f +:+ "`
")) as [rest ->].
    eexists. by rewrite string_app_assoc.
Qed.

Lemma fold_lines_mentions (files : list path) (init : string) (f : path) :
  In f files ->
  mentions (List.fold_left (fun acc f => acc +:+ "- `" +:+ FS.name f +:+ "`
") files init) (entry_line f).
Proof.
  revert init. induction files as [|x files IH]; intros init Hin; [done|].
  cbn [List.fold_left]. destruct Hin as [->|Hin]; [|by apply IH].
  destruct (fold_lines_prefix files (init +:+ "- `" +:+ FS.name f +:+ "`
")) as [rest ->].
  exists init, rest. unfold entry_line. by rewrite string_app_assoc.
Qed.

Lemma pending_entry_lists (timestamp : string) (tasks : list path) (f : path) :
  In f tasks -> mentions (pending_entry timestamp tasks) (entry_line f).
Proof. intros Hin. unfold pending_entry. by apply mentions_app_r, fold_lines_mentions. Qed.

Lemma pending_entry_hint (timestamp : string) (tasks : list path) :
  mentions (pending_entry timestamp tasks) "Run `qwen` in the vault directory".
Proof.
  unfold pending_entry.
  eexists (_ +:+ "
## Next Steps
1. "), _. rewrite string_app_assoc. reflexivity.
Qed.

End EntryFacts.

Section ScanFacts.
Import Orch.

Lemma glob_md_sound (windows : bool) (d : path) (t : gmap path FS.node) (p : path) :
  In p (FS.glob_md windows d t) ->
  FS.fnmatch_md windows (FS.name p) = true /\ FS.parent p = d /\ is_Some (t !! p).
Proof.
  unfold FS.glob_md. destruct (FS.is_dir t d); [|done].
  intros [Hin Hc]%filter_In. apply andb_true_iff in Hc as [Hpar Hmd].
  apply bool_decide_eq_true in Hpar as [_ Hpar].
  apply in_map_iff in Hin as ([q n] & <- & Hin). cbn in *.
  split; [done|]. split; [done|].
  apply list_elem_of_In, elem_of_map_to_list in Hin. by eexists.
Qed.

Lemma glob_stage_sound (windows listable : bool) (folder : path)
    (t : gmap path FS.node) (p : path) :
  In p (glob_stage windows listable folder t) -> In p (FS.glob_md windows folder t).
Proof. unfold glob_stage. by destruct listable. Qed.

Lemma scan_stage_sound (windows : bool) (folder : path) (fault : option exn)
    (listable : bool) (w : world) (l : list path) :
  outcome (scan_stage windows folder fault listable w) = Ret l ->
  forall p, In p l -> In p (FS.glob_md windows folder (disk w)).
Proof.
  unfold scan_stage. py_unfold. cbn.
  destruct fault; cbn; [discriminate|].
  destruct (negb _); cbn; intros [= <-] p Hp; [done|].
  by apply (glob_stage_sound _ listable).
Qed.

Lemma check_needs_action_eq (win32 : bool) (io : outside) (w : world) :
  check_needs_action win32 io w =
  scan_stage win32 ("Needs_Action" :: vault_path (self w))
    (fault_needs_action io) (listable_needs_action io) w.
Proof. unfold check_needs_action. by rewrite bind_get. Qed.

Lemma check_approved_actions_eq (win32 : bool) (io : outside) (w : world) :
  check_approved_actions win32 io w =
  scan_stage win32 ("Approved" :: vault_path (self w))
    (fault_approved io) (listable_approved io) w.
Proof. unfold check_approved_actions. by rewrite bind_get. Qed.

Lemma copy_filename_not_md (windows : bool) (src : path) (d : datetime) :
  FS.fnmatch_md windows (Watcher.copy_filename src (strftime_stamp d)) = false.
Proof.
  unfold FS.fnmatch_md.
  destruct (Text.endswith ".md" _) eqn:E; [|done].
  apply endswith_last_char in E; [|done].
  destruct windows.
  - rewrite last_char_lower, last_char_copy_filename in E. cbn [option_map] in E.
    rewrite lower_char_digit in E. injection E as E. by apply digit_not_d in E.
  - rewrite last_char_copy_filename in E. injection E as E.
    by apply digit_not_d in E.
Qed.

End ScanFacts.

Section ScanMore.

Lemma glob_md_complete (windows : bool) (d : path) (t : gmap path FS.node)
    (f : string) (n : FS.node) :
  FS.is_dir t d = true -> t !! (f :: d) = Some n -> FS.fnmatch_md windows f = true ->
  In (f :: d) (FS.glob_md windows d t).
Proof.
  intros Hd Hp Hm. unfold FS.glob_md. rewrite Hd.
  apply filter_In. split.
  - apply in_map_iff. exists (f :: d, n). split; [done|].
    by apply list_elem_of_In, elem_of_map_to_list.
  - apply andb_true_iff. split; [by apply bool_decide_eq_true | done].
Qed.

Lemma glob_md_NoDup (windows : bool) (d : path) (t : gmap path FS.node) :
  NoDup (FS.glob_md windows d t).
Proof.
  unfold FS.glob_md. destruct (FS.is_dir t d); [| constructor].
  apply NoDup_ListNoDup, List.NoDup_filter, NoDup_ListNoDup, NoDup_fst_map_to_list.
Qed.

End ScanMore.

(** *** The journal of a cycle *)

Section CycleJournal.

Import Orch.

Variable win32 : bool.
Variable P : action -> Prop.
Hypothesis P_log : forall l msg, P (Log l msg).
Hypothesis P_appended : forall q, P (Appended q).
Hypothesis P_scanned : forall d, P (Scanned d).
Hypothesis P_stat : forall d, P (Stat d).
Hypothesis P_spawned : win32 = true -> forall argv p, P (Spawned argv p).

Lemma journal_popen (argv : list string) (answer : res nat) :
  keeps P (popen win32 argv answer).
Proof.
  unfold popen. destruct win32 eqn:E; [| apply keeps_raise].
  apply keeps_bind; [apply keeps_lift_res | intros p].
  apply keeps_bind; [apply keeps_emit; by apply P_spawned | intros _; apply keeps_ret].
Qed.

Ltac journal_step :=
  first
    [ apply journal_popen
    | apply keeps_emit
    | apply keeps_ret | apply keeps_raise | apply keeps_get | apply keeps_lift_res
    | apply keeps_mkdir | apply keeps_append_text
    | apply P_log | apply P_appended | apply P_scanned | apply P_stat
    | match goal with
      | |- keeps _ (if ?b then _ else _) => destruct b
      | |- keeps _ (match ?l with [] => _ | _ :: _ => _ end) => destruct l
      | |- keeps _ (match ?o with Some _ => _ | None => _ end) => destruct o
      end
    | apply keeps_for_each; intros ?
    | apply keeps_try_except; [| intros ?]
    | apply keeps_bind; [| intros ?] ].

Lemma journal_scan_stage (folder : path) (fault : option exn) (listable : bool) :
  keeps P (scan_stage win32 folder fault listable).
Proof. unfold scan_stage. repeat journal_step. Qed.

Lemma journal_needs_action_stage (io : outside) : keeps P (needs_action_stage win32 io).
Proof.
  unfold needs_action_stage, check_needs_action.
  repeat first [apply journal_scan_stage | journal_step].
Qed.

Lemma journal_process_approved_actions (files : list path) (io : outside) :
  keeps P (process_approved_actions files io).
Proof. unfold process_approved_actions. repeat journal_step. Qed.

Lemma journal_approved_stage (io : outside) : keeps P (approved_stage win32 io).
Proof.
  unfold approved_stage, check_approved_actions.
  repeat first [apply journal_scan_stage | journal_step].
Qed.

Lemma journal_run_cycle (io : outside) (w : world) :
  Forall P (emitted (run_cycle win32 io w)).
Proof.
  rewrite run_cycle_split.
  apply (keeps_bind P (needs_action_stage win32 io) (fun _ => approved_stage win32 io)).
  - apply journal_needs_action_stage.
  - intros _. apply journal_approved_stage.
Qed.

End CycleJournal.

Section BlockedFacts.

Lemma blocked_ms_zero (l : list action) :
  Forall (fun a => Orch.is_blocking a = false) l -> Orch.blocked_ms l = 0%nat.
Proof.
  induction 1 as [|a l Ha _ IH]; [done|]. by destruct a.
Qed.

End BlockedFacts.

Section ApprovedFacts.
Import Orch.

Lemma approved_entry_lists (timestamp : string) (files : list path) (f : path) :
  In f files -> mentions (approved_entry timestamp files) (entry_line f).
Proof. intros Hin. unfold approved_entry. by apply mentions_app_r, fold_lines_mentions. Qed.

Lemma for_each_log {A} (l : list A) (g : A -> string) (s : world) :
  for_each l (fun x => emit (Log INFO (g x))) s
  = Run s (List.map (fun x => Log INFO (g x)) l) (Ret tt).
Proof.
  revert s. induction l as [|x l IH]; intros s; [done|].
  cbn [for_each List.map]. rewrite bind_emit. by rewrite IH.
Qed.

Lemma log_approved_actions_run (files : list path) (io : outside) (w : world) :
  _log_approved_actions files io w =
  let log_file := log_file_of (vault_path (self w)) (now_approved_file io) in
  let entry := approved_entry (isoformat (now_approved_entry io)) files in
  match FS.open_w log_file (disk w) with
  | Ret old =>
      if Text.encodable entry then
        Run (set_disk (<[log_file := FS.File (default "" old +:+ entry)]> (disk w)) w)
          [Appended log_file] (Ret tt)
      else
        Run (set_disk (<[log_file := FS.File (default "" old)]> (disk w)) w)
          [] (Raise UnicodeEncodeError)
  | Raise e => Run w [] (Raise e)
  end.
Proof.
  unfold _log_approved_actions. rewrite bind_get. unfold append_text, FS.append_text.
  cbv zeta. destruct (FS.open_w _ _); [| by rewrite set_disk_same].
  by destruct (Text.encodable _).
Qed.

Lemma log_pending_tasks_run (tasks : list path) (io : outside) (w : world) :
  _log_pending_tasks tasks io w =
  let log_file := log_file_of (vault_path (self w)) (now_pending_file io) in
  let entry := pending_entry (isoformat (now_pending_entry io)) tasks in
  match FS.mkdir ("Logs" :: vault_path (self w)) (disk w) with
  | (t1, Ret _) =>
      match FS.open_w log_file t1 with
      | Ret old =>
          if Text.encodable entry then
            Run (set_disk (<[log_file := FS.File (default "" old +:+ entry)]> t1) w)
              [Appended log_file] (Ret tt)
          else
            Run (set_disk (<[log_file := FS.File (default "" old)]> t1) w)
              [] (Raise UnicodeEncodeError)
      | Raise e => Run (set_disk t1 w) [] (Raise e)
      end
  | (t1, Raise e) => Run (set_disk t1 w) [] (Raise e)
  end.
Proof.
  unfold _log_pending_tasks. rewrite bind_get. unfold mkdir, append_text, FS.append_text.
  unfold bind. cbn.
  destruct (FS.mkdir _ _) as [t1 [u|e]]; cbn; [|done].
  destruct (FS.open_w _ t1); [|done].
  by destruct (Text.encodable _).
Qed.

Lemma process_approved_actions_run (files : list path) (io : outside) (w : world) :
  let log_file := log_file_of (vault_path (self w)) (now_approved_file io) in
  let entry := approved_entry (isoformat (now_approved_entry io)) files in
  let r := process_approved_actions files io w in
  files <> [] ->
  match FS.open_w log_file (disk w) with
  | Ret old =>
      if Text.encodable entry then
        outcome r = Ret tt /\
        final r = set_disk (<[log_file := FS.File (default "" old +:+ entry)]> (disk w)) w
      else
        outcome r = Raise UnicodeEncodeError /\
        final r = set_disk (<[log_file := FS.File (default "" old)]> (disk w)) w
  | Raise e => outcome r = Raise e /\ final r = w
  end.
Proof.
  intros log_file entry r Hne. subst r.
  destruct files as [|x l]; [done|].
  unfold process_approved_actions. rewrite bind_emit.
  rewrite (bind_run_ret _ _ _ _ _ _ (for_each_log (x :: l) (fun f => "  - " +:+ FS.name f) w)).
  pose proof (log_approved_actions_run (x :: l) io w) as Hlog. cbv zeta in Hlog.
  fold log_file in Hlog. fold entry in Hlog.
  destruct (FS.open_w log_file (disk w)) as [old|e].
  + destruct (Text.encodable entry).
    * by rewrite (bind_run_ret _ _ _ _ _ _ Hlog).
    * by rewrite (bind_run_raise _ _ _ _ _ _ Hlog).
  + by rewrite (bind_run_raise _ _ _ _ _ _ Hlog).
Qed.

End ApprovedFacts.

(** *** A cycle and the vault *)

Section CycleFrame.

Import Orch.

#[local] Instance only_logs_changed_refl : Reflexive only_logs_changed.
Proof. intros s. by split. Qed.

#[local] Instance only_logs_changed_trans : Transitive only_logs_changed.
Proof.
  intros s1 s2 s3 [E12 H12] [E23 H23]. split; [congruence|].
  intros Hex. destruct (H12 Hex) as [Hex2 F12].
  rewrite E12 in H23. destruct (H23 Hex2) as [Hex3 F23].
  split; [done|]. intros q Hq. rewrite F23 by done. by apply F12.
Qed.

Lemma two_longer_ne (f g : string) (v : path) : f :: g :: v <> v.
Proof. intros H. apply (f_equal (@List.length string)) in H. cbn in H. lia. Qed.

Lemma set_disk_insert_in_logs (w : world) (t : gmap path FS.node) (q : path) (n : FS.node) :
  only_logs_changed w (set_disk t w) ->
  in_logs (vault_path (self w)) q -> q <> [] ->
  only_logs_changed w (set_disk (<[q := n]> t) w).
Proof.
  intros [_ H] Hq Hne. split; [done|]. intros Hex. destruct (H Hex) as [Hex' F]. cbn in *.
  assert (Hqv : q <> vault_path (self w)).
  { destruct Hq as [-> | Hp]; [apply cons_ne_self|].
    destruct q as [|f q]; [done|]. cbn in Hp. subst q. apply two_longer_ne. }
  split.
  - unfold FS.exists_ in *. rewrite node_at_insert_ne; done.
  - intros p Hp. rewrite lookup_insert_ne; [by apply F|]. by intros <-.
Qed.

Lemma steps_log_pending_tasks (tasks : list path) (io : outside) :
  steps only_logs_changed (_log_pending_tasks tasks io).
Proof.
  intros w. rewrite log_pending_tasks_run. cbv zeta.
  set (vault := vault_path (self w)).
  assert (Hmk : only_logs_changed w (set_disk (FS.mkdir ("Logs" :: vault) (disk w)).1 w)).
  { split; [done|]. intros Hex. cbn.
    destruct (mkdir_child_cases (disk w) vault "Logs" Hex)
      as [(_ & Hd & ->) | [(_ & ->) | (_ & e & ->)]]; cbn; [| done | done].
    split.
    - unfold FS.exists_. rewrite node_at_insert_ne; [| apply cons_ne_self | done].
      unfold vault in Hd. by rewrite Hd.
    - intros q Hq. rewrite lookup_insert_ne; [done|]. intros <-. apply Hq. by left. }
  destruct (FS.mkdir ("Logs" :: vault) (disk w)) as [t1 [u|e]]; cbn in *; [|done].
  destruct (FS.open_w _ t1); cbn; [|done].
  destruct (Text.encodable _); cbn;
    (apply set_disk_insert_in_logs; [done | by right | done]).
Qed.

Lemma steps_log_approved_actions (files : list path) (io : outside) :
  steps only_logs_changed (_log_approved_actions files io).
Proof.
  intros w. rewrite log_approved_actions_run. cbv zeta.
  destruct (FS.open_w _ _); cbn; [| reflexivity].
  destruct (Text.encodable _); cbn;
    (apply set_disk_insert_in_logs; [| by right | done];
     rewrite set_disk_same; reflexivity).
Qed.

Variable win32 : bool.

Lemma steps_popen (argv : list string) (answer : res nat) :
  steps only_logs_changed (popen win32 argv answer).
Proof.
  unfold popen. destruct win32; [| apply steps_raise; apply _].
  apply steps_bind; [apply _ | apply steps_lift_res; apply _ | intros p].
  apply steps_bind; [apply _ | apply steps_emit; apply _ | intros _; apply steps_ret; apply _].
Qed.

Ltac frame_step :=
  first
    [ apply steps_popen
    | apply steps_log_pending_tasks | apply steps_log_approved_actions
    | apply steps_emit; apply _
    | apply steps_ret; apply _ | apply steps_raise; apply _
    | apply steps_get; apply _ | apply steps_lift_res; apply _
    | match goal with
      | |- steps _ (if ?b then _ else _) => destruct b
      | |- steps _ (match ?l with [] => _ | _ :: _ => _ end) => destruct l
      | |- steps _ (match ?o with Some _ => _ | None => _ end) => destruct o
      end
    | apply steps_for_each; [apply _ | apply _ | intros ?]
    | apply steps_try_except; [apply _ | | intros ?]
    | apply steps_bind; [apply _ | | intros ?] ].

Lemma steps_needs_action_stage (io : outside) :
  steps only_logs_changed (needs_action_stage win32 io).
Proof.
  unfold needs_action_stage, check_needs_action, scan_stage.
  repeat frame_step.
Qed.

Lemma steps_approved_stage (io : outside) :
  steps only_logs_changed (approved_stage win32 io).
Proof.
  unfold approved_stage, check_approved_actions, scan_stage.
  repeat frame_step.
Qed.

Lemma steps_run_cycle (io : outside) : steps only_logs_changed (run_cycle win32 io).
Proof.
  intros w. rewrite run_cycle_split. revert w.
  apply steps_bind; [apply _ | apply steps_needs_action_stage | intros _; apply steps_approved_stage].
Qed.

End CycleFrame.

Section ScanRun.
Import Orch.

Lemma scan_stage_run (windows : bool) (folder : path) (listable : bool) (w : world) :
  scan_stage windows folder None listable w =
  if FS.exists_ (disk w) folder
  then Run w [Stat folder; Scanned folder]
         (Ret (glob_stage windows listable folder (disk w)))
  else Run w [Stat folder] (Ret []).
Proof.
  unfold scan_stage. rewrite bind_emit, bind_get.
  by destruct (FS.exists_ (disk w) folder).
Qed.

Lemma glob_md_not_dir (windows : bool) (d : path) (t : gmap path FS.node) :
  FS.is_dir t d = false -> FS.glob_md windows d t = [].
Proof. unfold FS.glob_md. by intros ->. Qed.

End ScanRun.

Section InitFacts.
Import Orch.

Lemma init_run (vault : path) (interval : Z) (t : gmap path FS.node) :
  let w0 := {| self := {| vault_path := vault; check_interval := interval;
                          watcher_process := None; running := false |};
               disk := t |} in
  init vault interval t =
  if FS.exists_ t vault then
    match FS.mkdir_each (List.map (fun f => f :: vault) folders) t with
    | (t', Ret _) => Run (set_disk t' w0) [Log INFO "Orchestrator initialized for vault"] (Ret tt)
    | (t', Raise e) => Run (set_disk t' w0) [] (Raise e)
    end
  else Run w0 [] (Raise ValueError).
Proof.
  intros w0. unfold init. fold w0.
  destruct (FS.exists_ t vault); cbn [negb]; [|done].
  unfold bind. rewrite ensure_folders_eq. subst w0. cbn [self disk vault_path].
  by destruct (FS.mkdir_each (List.map (fun f => f :: vault) folders) t) as [t' [[]|e]].
Qed.

End InitFacts.

Section RunFacts.
Import Orch.
Variable win32 : bool.

#[local] Instance same_handle_refl : Reflexive same_handle.
Proof. by intros s. Qed.

#[local] Instance same_handle_trans : Transitive same_handle.
Proof. unfold same_handle. intros s1 s2 s3 H1 H2. congruence. Qed.




(** One turn of the loop. *)
Lemma main_loop_cons (h : host) (io : outside) (cycles : list outside) (w : world) :
  main_loop win32 h (io :: cycles) w =
  match run_cycle win32 io w with
  | Run w1 e1 (Ret _) =>
      let seconds := check_interval (self w1) in
      if (seconds <? 0)%Z then Run w1 e1 (Raise ValueError)
      else if (sleep_max h <? seconds)%Z then Run w1 e1 (Raise OverflowError)
      else
        match main_loop win32 h cycles w1 with
        | Run w2 e2 o2 => Run w2 (e1 ++ Sleep (1000 * Z.to_nat seconds) :: e2) o2
        end
  | Run w1 e1 (Raise e) => Run w1 e1 (Raise e)
  end.
Proof.
  cbn [main_loop]. unfold bind at 1.
  destruct (run_cycle win32 io w) as [w1 e1 [[]|e]]; [|done].
  rewrite bind_get. cbv zeta. unfold sleep.
  destruct (_ <? 0)%Z; [unfold bind, raise; by rewrite app_nil_r|].
  destruct (_ <? _)%Z; [unfold bind, raise; by rewrite app_nil_r|].
  rewrite bind_emit. by destruct (main_loop win32 h cycles w1).
Qed.


End RunFacts.

Section RunMore.
Import Orch.


Lemma start_watcher_failed (win32 : bool) (h : host) (w : world) :
  watcher_script_exists h = false \/ win32 = false \/ (exists e, spawn_watcher h = Raise e) ->
  exists journal,
    start_watcher win32 h w = Run w journal (Ret false) /\
    Forall (fun a => is_log a = true) journal.
Proof.
  intros H. unfold start_watcher, popen. py_unfold.
  destruct (watcher_script_exists h); cbn; [| eexists; split; [done | by repeat constructor]].
  destruct win32; cbn; [| eexists; split; [done | by repeat constructor]].
  destruct H as [H | [H | [e H]]]; [done | done |].
  rewrite H. cbn. eexists; split; [done | by repeat constructor].
Qed.


Variable win32 : bool.



(** [run] when the watcher could not be started. *)
Lemma run_failed (h : host) (cycles : list outside) (exits_after : option nat) (w : world) :
  watcher_script_exists h = false \/ win32 = false \/ (exists e, spawn_watcher h = Raise e) ->
  exists journal,
    run win32 h cycles exits_after w = Run (set_running true w) journal (Ret 1%nat) /\
    Forall (fun a => is_log a = true) journal.
Proof.
  intros H.
  destruct (start_watcher_failed win32 h (set_running true w) H) as (j & Hj & Hlog).
  unfold run.
  rewrite (bind_run_ret _ _ w (set_running true w) [] tt) by reflexivity.
  rewrite bind_emit.
  rewrite (bind_run_ret _ _ _ _ _ _ Hj). cbn.
  eexists. split; [reflexivity|].
  constructor; [done|]. apply Forall_app. split; [done | by repeat constructor].
Qed.

End RunMore.

Section RunStarted.
Import Orch.


End RunStarted.

Section MainFacts.
Import Orch.


End MainFacts.

Section WatcherProcFacts.
Import WatcherProc.

Lemma watcher_init_run (vault : path) (drop : option path) (interval : nat)
    (t : gmap path FS.node) :
  let drop_folder := match drop with Some d => d | None => "Inbox" :: vault end in
  init vault drop interval t =
  if FS.exists_ t vault then
    match FS.mkdir drop_folder t with
    | (t1, Ret _) =>
        match FS.mkdir ("Needs_Action" :: vault) t1 with
        | (t2, Ret _) =>
            Run t2 [] (Ret {| vault_path := vault; drop_path := drop_folder;
                              check_interval := interval |})
        | (t2, Raise e) => Run t2 [] (Raise e)
        end
    | (t1, Raise e) => Run t1 [] (Raise e)
    end
  else Run t [] (Raise ValueError).
Proof.
  intros drop_folder. unfold init. fold drop_folder. unfold bind at 1. unfold get at 1.
  destruct (FS.exists_ t vault); cbn [negb]; [|done].
  unfold bind, mkdir.
  destruct (FS.mkdir drop_folder t) as [t1 [[]|e]]; [|done].
  by destruct (FS.mkdir ("Needs_Action" :: vault) t1) as [t2 [[]|e]].
Qed.

Lemma watcher_init_facts (vault : path) (drop : option path) (interval : nat)
    (t : gmap path FS.node) :
  let drop_folder := match drop with Some d => d | None => "Inbox" :: vault end in
  let r := init vault drop interval t in
  (FS.exists_ t vault = false -> outcome r = Raise ValueError /\ final r = t) /\
  (forall q n, t !! q = Some n -> final r !! q = Some n) /\
  (forall fw, outcome r = Ret fw ->
     fw = {| vault_path := vault; drop_path := drop_folder; check_interval := interval |} /\
     FS.is_dir (final r) drop_folder = true /\
     FS.is_dir (final r) ("Needs_Action" :: vault) = true).
Proof.
  intros drop_folder r. subst r. rewrite watcher_init_run. cbv zeta. fold drop_folder.
  destruct (FS.exists_ t vault) eqn:Hex; [| by repeat split].
  split; [done|].
  pose proof (mkdir_keeps drop_folder t) as K1.
  pose proof (mkdir_ok_is_dir drop_folder t) as D1.
  destruct (FS.mkdir drop_folder t) as [t1 [[]|e]]; cbn [fst snd] in *; [| by split].
  pose proof (mkdir_keeps ("Needs_Action" :: vault) t1) as K2.
  pose proof (mkdir_ok_is_dir ("Needs_Action" :: vault) t1) as D2.
  destruct (FS.mkdir ("Needs_Action" :: vault) t1) as [t2 [[]|e]]; cbn [fst snd] in *.
  - split; [intros q n Hq; by apply K2, K1|].
    intros fw [= <-]. split; [done|]. split; [| by apply D2].
    apply (is_dir_keeps t1); [done | by apply D1].
  - split; [intros q n Hq; by apply K2, K1 | done].
Qed.

End WatcherProcFacts.

Section LoopFacts.
Import Orch.
Variable win32 : bool.

Lemma blocked_ms_app (a b : list action) :
  blocked_ms (a ++ b) = (blocked_ms a + blocked_ms b)%nat.
Proof.
  induction a as [|x a IH]; [done|]. destruct x; cbn; rewrite ?IH; lia.
Qed.

Lemma main_loop_blocked (h : host) (cycles : list outside) (w : world) :
  let r := main_loop win32 h cycles w in
  let ms := (1000 * Z.to_nat (check_interval (self w)))%nat in
  (blocked_ms (emitted r) <= List.length cycles * ms)%nat /\
  (outcome r = Ret tt ->
   blocked_ms (emitted r) = (List.length cycles * ms)%nat /\
   self (final r) = self (set_running false w)).
Proof.
  revert w. induction cycles as [|io cycles IH]; intros w; cbv zeta.
  - cbn [main_loop List.length]. unfold modify. cbn [emitted outcome final blocked_ms].
    split; [lia | done].
  - rewrite main_loop_cons. cbn [List.length].
    pose proof (journal_run_cycle win32 (fun a => is_blocking a = false)) as Hj.
    specialize (Hj ltac:(done) ltac:(done) ltac:(done) ltac:(done) ltac:(done) io w).
    apply blocked_ms_zero in Hj.
    destruct (steps_run_cycle win32 io w) as [Hself _].
    destruct (run_cycle win32 io w) as [w1 e1 [[]|e]]; cbn [emitted final] in Hj, Hself.
    + specialize (IH w1). cbv zeta in IH.
      rewrite Hself in IH. rewrite Hself.
      set (ms := (1000 * Z.to_nat (check_interval (self w)))%nat) in *. clearbody ms.
      destruct (_ <? 0)%Z; [cbn [emitted outcome]; rewrite Hj; split; [lia | done]|].
      destruct (_ <? _)%Z; [cbn [emitted outcome]; rewrite Hj; split; [lia | done]|].
      destruct (main_loop win32 h cycles w1) as [w2 e2 o2].
      cbn [emitted outcome final] in *.
      rewrite blocked_ms_app. cbn [blocked_ms]. rewrite Hj, Nat.mul_succ_l.
      destruct IH as [IH1 IH2]. split; [lia|].
      intros Ho. destruct (IH2 Ho) as [-> ->]. split; [lia|].
      unfold set_running. cbn [self]. by rewrite Hself.
    + cbn [emitted outcome final]. rewrite Hj. split; [lia | done].
Qed.

End LoopFacts.

(* ===================================================================== *)
(** ** The claims *)
(* ===================================================================== *)

(** *** C1: one record per fingerprint *)



(** *** C2: the two stage scans of a cycle *)

(** C2, as stated, fails: with [qwen] missing and [Logs] replaced by a
    regular file, handling the pending task raises out of [run_cycle]
    before the [Approved] stage is looked at, although an approved action
    is waiting there; [run] catches the exception, stops and returns 1. *)
Lemma C2_needs_action_failure_skips_approved :
  let w := Sample.orchestrator Sample.logs_blocked_vault in
  let r := Orch.run_cycle true Sample.no_qwen w in
  FS.glob_md true ("Approved" :: Sample.vault) (Orch.disk w)
  = ["b.md" :: "Approved" :: Sample.vault] /\
  outcome r = Raise FileExistsError /\
  emitted r =
    [Stat ("Needs_Action" :: Sample.vault); Scanned ("Needs_Action" :: Sample.vault);
     Log INFO "Found 1 task(s) requiring processing:"; Log INFO "  - a.md";
     Log INFO "Invoking Qwen Code for automatic processing...";
     Log ERROR "Qwen Code not found. Make sure 'qwen' command is in your PATH.";
     Log ERROR "Falling back to manual mode - tasks logged for manual processing."] /\
  outcome (Orch.run true Sample.host_ok [Sample.no_qwen; Sample.no_qwen] (Some 100) w)
  = Ret 1%nat.
Proof. vm_compute. by repeat split. Qed.

(** C2, amended.  Every cycle looks at the [Needs_Action] stage first.  The
    [Approved] stage is looked at in the same cycle exactly when finding and
    handling the pending tasks ended without an exception; otherwise that
    exception leaves [run_cycle] at once and nothing else is done.  (A
    failure in the [Approved] stage comes after the [Needs_Action] stage
    has been dealt with, so it cannot prevent it.) *)
Theorem C2_cycle_stages (win32 : bool) (io : Orch.outside) (w : Orch.world) :
  let vault := Orch.vault_path (Orch.self w) in
  let r := Orch.run_cycle win32 io w in
  let r1 := Orch.needs_action_stage win32 io w in
  In (Stat ("Needs_Action" :: vault)) (emitted r) /\
  match outcome r1 with
  | Ret _ => In (Stat ("Approved" :: vault)) (emitted r)
  | Raise e =>
      outcome r = Raise e /\ emitted r = emitted r1 /\
      ~ In (Stat ("Approved" :: vault)) (emitted r)
  end.
Proof.
  intros vault r r1. subst r r1. rewrite run_cycle_split.
  destruct (needs_action_stage_stat_first win32 io w) as [rest Hrest].
  pose proof (keeps_needs_action_stage win32 (fun a => a <> Stat ("Approved" :: vault))) as K.
  destruct (K ltac:(done) ltac:(done) ltac:(done) ltac:(done) io ltac:(done) w) as [Kv Kp].
  clear K. fold vault in Hrest.
  destruct (outcome (Orch.needs_action_stage win32 io w)) as [u|e] eqn:Ho.
  - destruct (bind_ret_inv (Orch.needs_action_stage win32 io)
                (fun _ => Orch.approved_stage win32 io) w u Ho) as (_ & -> & _).
    rewrite Hrest. split; [by left|].
    destruct (approved_stage_stat_first win32 io (final (Orch.needs_action_stage win32 io w)))
      as [rest' ->].
    rewrite Kv. fold vault. apply in_or_app. right. by left.
  - destruct (bind_raise_inv (Orch.needs_action_stage win32 io)
                (fun _ => Orch.approved_stage win32 io) w e Ho) as (_ & -> & ->).
    rewrite Hrest. split; [by left|]. split; [done|]. split; [done|].
    rewrite <- Hrest. intros Hin. rewrite Forall_forall in Kp.
    apply list_elem_of_In in Hin. by apply Kp in Hin.
Qed.

(** *** C3: the order of the filters *)




(** *** C4: record names within one second *)

(** C4 fails on the code.  [report 1.txt] and [report_1.txt], with different
    contents, handled 0.55 s apart within the same second: both records get
    the name [FILE_DROP_report_1_txt_20260105_090307.md], and the second
    [write_text] replaces the first record. *)
Theorem C4_same_second_overwrites :
  let ev1 := Sample.created ("report 1.txt" :: Sample.inbox) in
  let ev2 := Sample.created ("report_1.txt" :: Sample.inbox) in
  let r1 := Watcher.on_created Sample.rt ev1 (Sample.readable "first" Sample.t1) Sample.watcher0 in
  let r2 := Watcher.on_created Sample.rt ev2 (Sample.readable "second" Sample.t2) (final r1) in
  let p := ["FILE_DROP_report_1_txt_20260105_090307.md"; "Needs_Action"; "vault"] in
  In (Wrote p) (emitted r1) /\ In (Wrote p) (emitted r2) /\
  is_Some (Watcher.disk (final r1) !! p) /\
  Watcher.disk (final r2) !! p <> Watcher.disk (final r1) !! p.
Proof.
  intros ev1 ev2 r1 r2 p. split; [|split; [|split]].
  - vm_compute. tauto.
  - vm_compute. tauto.
  - vm_compute. by eexists.
  - intros H. apply (bool_decide_eq_true_2 _) in H. vm_compute in H. discriminate H.
Qed.

(** *** C5: stopping the watcher *)

(** C5.  Whatever the child does, [stop_watcher] returns, forgets the
    process handle, and has blocked for at most five seconds.  With a
    handle it terminates, waits once, and kills exactly when the child did
    not exit in time; without one it does nothing.  Called again right
    after, it does nothing. *)
Theorem C5_stop_watcher_bounded (w : Orch.world) (exits_after : option nat) :
  let r := Orch.stop_watcher exits_after w in
  outcome r = Ret tt /\
  Orch.watcher_process (Orch.self (final r)) = None /\
  Orch.blocked_ms (emitted r) <= 5000 /\
  match Orch.watcher_process (Orch.self w) with
  | None => final r = w /\ emitted r = []
  | Some proc =>
      exists ms,
        ms <= 5000 /\
        emitted r =
          Log INFO "Stopping File System Watcher..." ::
          Terminate (Orch.pid proc) ::
          Waited (Orch.pid proc) ms ::
          (if Orch.exits_in_time exits_after
           then [Log INFO "Watcher stopped gracefully"]
           else [Log WARNING "Watcher did not stop gracefully, forcing...";
                 Kill (Orch.pid proc)])
  end /\
  (forall again, Orch.stop_watcher again (final r) = Run (final r) [] (Ret tt)).
Proof.
  intros r. subst r. unfold Orch.stop_watcher, Orch.wait. py_unfold.
  destruct w as [[v i [proc|] run] t]; cbn;
    [| split; [done|]; split; [done|]; split; [lia|]; by split ].
  destruct exits_after as [ms|]; cbn; [destruct (ms <=? 5000)%nat eqn:E; cbn|];
    (split; [done|]; split; [done|]; split; [try apply Nat.leb_le in E; lia|]; split; [|done]).
  - exists ms. apply Nat.leb_le in E. by split.
  - exists 5000%nat. by split.
  - exists 5000%nat. by split.
Qed.

(** *** C6: the logging fallback *)

(** C6, as stated, fails: with [qwen] missing and [Logs] a regular file
    the fallback raises [FileExistsError]. *)
Lemma C6_fallback_raises_when_logs_is_a_file :
  let w := Sample.orchestrator Sample.logs_blocked_vault in
  let r := Orch._invoke_qwen_code true ["a.md" :: "Needs_Action" :: Sample.vault] Sample.no_qwen w in
  Orch.spawn_qwen Sample.no_qwen = Raise FileNotFoundError /\
  outcome r = Raise FileExistsError.
Proof. vm_compute. by split. Qed.

(** C6, amended.  When [Popen] cannot find [qwen] (on any platform), no
    process is spawned and the trigger falls back to [_log_pending_tasks].
    The entry lists every pending item and carries the hint to run [qwen]
    by hand.  The fallback returns normally, having appended the entry to
    the day's log file, exactly when the [Logs] folder can be made (or is
    there), the log file can be opened, and the entry can be encoded as
    UTF-8, which it can exactly when the name of every pending item is
    well-formed; otherwise the error of [mkdir], of [open] or of [write]
    leaves the trigger, and a failed [write] leaves the log file as [open]
    found or made it. *)
Theorem C6_fallback_logs (win32 : bool) (tasks : list path) (io : Orch.outside)
    (w : Orch.world) :
  let vault := Orch.vault_path (Orch.self w) in
  let log_file := Orch.log_file_of vault (Orch.now_pending_file io) in
  let entry := Orch.pending_entry (isoformat (Orch.now_pending_entry io)) tasks in
  let r := Orch._invoke_qwen_code win32 tasks io w in
  Orch.spawn_qwen io = Raise FileNotFoundError ->
  match FS.mkdir ("Logs" :: vault) (Orch.disk w) with
  | (t1, Ret _) =>
      match FS.open_w log_file t1 with
      | Ret old =>
          if forallb (fun f => Text.encodable (FS.name f)) tasks then
            outcome r = Ret tt /\
            In (Appended log_file) (emitted r) /\
            Orch.disk (final r) = <[log_file := FS.File (default "" old +:+ entry)]> t1
          else
            outcome r = Raise UnicodeEncodeError /\
            Orch.disk (final r) = <[log_file := FS.File (default "" old)]> t1
      | Raise e => outcome r = Raise e /\ Orch.disk (final r) = t1
      end
  | (t1, Raise e) => outcome r = Raise e /\ Orch.disk (final r) = t1
  end /\
  (forall f, In f tasks -> Orch.mentions entry (Orch.entry_line f)) /\
  Orch.mentions entry "Run `qwen` in the vault directory" /\
  (forall argv p, ~ In (Spawned argv p) (emitted r)).
Proof.
  intros vault log_file entry r Hq. subst r.
  pose proof (encodable_pending_entry (isoformat (Orch.now_pending_entry io)) tasks
                (isoformat_ascii _)) as Henc.
  fold entry in Henc.
  split; [| split; [intros f; apply pending_entry_lists | split; [apply pending_entry_hint|]]].
  - rewrite <- Henc.
    unfold Orch._invoke_qwen_code, Orch.popen, Orch._log_pending_tasks, Orch.mkdir,
      Orch.append_text, FS.append_text.
    py_unfold. rewrite Hq. destruct win32; cbn; fold vault;
      (destruct (FS.mkdir ("Logs" :: vault) (Orch.disk w)) as [t1 [u|e]]; cbn; [|done];
       fold log_file; destruct (FS.open_w log_file t1) as [old|e]; cbn; [|done];
       fold entry; destruct (Text.encodable entry); cbn; [|done];
       split; [done|]; split; [|done];
       repeat (first [left; reflexivity | right])).
  - intros argv p.
    unfold Orch._invoke_qwen_code, Orch.popen, Orch._log_pending_tasks, Orch.mkdir,
      Orch.append_text, FS.append_text.
    py_unfold. rewrite Hq. destruct win32; cbn;
      (destruct (FS.mkdir _ _) as [t1 [u|e]]; cbn;
       [ destruct (FS.open_w _ t1) as [old|e]; cbn;
         [ destruct (Text.encodable _); cbn |] |]);
      intros H; repeat (destruct H as [H|H]; [discriminate H|]); exact H.
Qed.

(** [qwen] missing, [Logs] in place: the task is logged. *)
Lemma C6_fallback_logs_witness :
  let w := Sample.orchestrator Sample.busy_vault in
  let tasks := ["a.md" :: "Needs_Action" :: Sample.vault] in
  let r := Orch._invoke_qwen_code true tasks Sample.no_qwen w in
  Orch.spawn_qwen Sample.no_qwen = Raise FileNotFoundError /\
  outcome r = Ret tt /\
  In (Appended ["2026-01-05.md"; "Logs"; "vault"]) (emitted r).
Proof.
  intros w tasks r. split; [reflexivity|].
  destruct (C6_fallback_logs true tasks Sample.no_qwen w eq_refl) as [H _].
  assert (E1 : FS.mkdir ("Logs" :: Orch.vault_path (Orch.self w)) (Orch.disk w)
               = (Sample.busy_vault, Ret tt)) by (vm_compute; reflexivity).
  rewrite E1 in H.
  assert (E2 : FS.open_w (Orch.log_file_of (Orch.vault_path (Orch.self w))
                            (Orch.now_pending_file Sample.no_qwen)) Sample.busy_vault
               = Ret None) by (vm_compute; reflexivity).
  rewrite E2 in H.
  assert (E3 : forallb (fun f => Text.encodable (FS.name f)) tasks = true)
    by (vm_compute; reflexivity).
  rewrite E3 in H. destruct H as (H1 & H2 & _).
  split; [exact H1 | exact H2].
Defined.

(** *** C7: failures on the source file *)

(** C7 fails on the code.  [_get_file_hash] falls back on [stat] when the
    file cannot be read, with no guard around the [stat], and [on_created]
    calls it outside its [try] block.  For a file that has vanished neither
    the read nor the [stat] succeeds: [FileNotFoundError] leaves the
    handler, no record is written, and nothing is logged. *)
Theorem C7_vanished_file_raises :
  let ev := Sample.created ("report.txt" :: Sample.inbox) in
  let r := Watcher.on_created Sample.rt ev (Sample.vanished Sample.t1) Sample.watcher0 in
  Watcher.filtered_out ev Sample.watcher0 = false /\
  outcome r = Raise FileNotFoundError /\
  final r = Sample.watcher0 /\
  emitted r = [OpenRead (Watcher.src_path ev); Stat (Watcher.src_path ev)].
Proof. vm_compute. by repeat split. Qed.

(** *** C8: preparing the folders *)

(** C8.  On an existing vault root, running [_ensure_folders] a second time
    ends as the first run did and changes nothing more; and where the nine
    folders are all there already, the first run changes nothing and
    raises nothing. *)
Theorem C8_ensure_folders_idempotent (w : Orch.world) :
  let vault := Orch.vault_path (Orch.self w) in
  let r1 := Orch._ensure_folders w in
  let r2 := Orch._ensure_folders (final r1) in
  FS.exists_ (Orch.disk w) vault = true ->
  (final r2 = final r1 /\ outcome r2 = outcome r1) /\
  (Forall (fun f => FS.is_dir (Orch.disk w) (f :: vault) = true) Orch.folders ->
   final r1 = w /\ outcome r1 = Ret tt).
Proof.
  intros vault r1 r2 Hv. subst r1 r2. split.
  - rewrite (ensure_folders_eq w).
    pose proof (mkdir_each_children_twice (Orch.disk w) vault Orch.folders Hv) as H.
    cbv zeta in H. fold vault.
    destruct (FS.mkdir_each _ (Orch.disk w)) as [t r] eqn:E. cbn [fst snd final outcome] in *.
    rewrite ensure_folders_eq. cbn [Orch.set_disk Orch.self Orch.disk]. fold vault.
    rewrite H. by destruct w.
  - intros Hall. rewrite ensure_folders_eq. fold vault.
    rewrite (mkdir_each_children_present _ _ _ Hv Hall). cbn. by rewrite set_disk_same.
Qed.

(** The vault as [__init__] left it. *)
Lemma C8_ensure_folders_idempotent_witness :
  let w := Sample.orchestrator Sample.ready_vault in
  FS.exists_ (Orch.disk w) Sample.vault = true /\
  final (Orch._ensure_folders w) = w /\ outcome (Orch._ensure_folders w) = Ret tt.
Proof.
  intros w. split; [reflexivity|].
  apply (C8_ensure_folders_idempotent w); [reflexivity|].
  vm_compute. repeat constructor.
Defined.

(** *** C9: the seen-set after a failed write *)

(** C9.  When writing the record fails, the seen-set is as it was.  A later
    event with the same fingerprint that passes the filters is therefore not
    deduplicated: the handler goes on to the delay and to
    [_create_action_file], and when that succeeds the record is written and
    the fingerprint remembered.  In general a fingerprint enters the
    seen-set only in a run that wrote a record. *)
Theorem C9_seen_only_after_write (rt : Watcher.runtime)
    (ev1 ev2 : Watcher.event) (io1 io2 : Watcher.outside)
    (w w2 : Watcher.world) (h : string) (e : exn) :
  let r1 := Watcher.on_created rt ev1 io1 w in
  let r2 := Watcher.on_created rt ev2 io2 w2 in
  Watcher.filtered_out ev1 w = false ->
  outcome (Watcher._get_file_hash rt (Watcher.src_path ev1) io1 w) = Ret h ->
  h ∉ Watcher.processed_files (Watcher.self w) ->
  outcome (Watcher._create_action_file rt (Watcher.src_path ev1) io1 w) = Raise e ->
  Watcher.self w2 = Watcher.self (final r1) ->
  Watcher.filtered_out ev2 w2 = false ->
  outcome (Watcher._get_file_hash rt (Watcher.src_path ev2) io2 w2) = Ret h ->
  Watcher.processed_files (Watcher.self (final r1)) = Watcher.processed_files (Watcher.self w) /\
  In (Sleep 500) (emitted r2) /\
  (forall p, outcome (Watcher._create_action_file rt (Watcher.src_path ev2) io2 w2) = Ret p ->
     In (Wrote p) (emitted r2) /\
     h ∈ Watcher.processed_files (Watcher.self (final r2))) /\
  (forall x, x ∈ Watcher.processed_files (Watcher.self (final r2)) ->
     x ∉ Watcher.processed_files (Watcher.self w2) ->
     exists p, In (Wrote p) (emitted r2)).
Proof.
  intros r1 r2 Hf1 Hh1 Hin1 Hc1 Hself Hf2 Hh2. subst r1 r2.
  unfold Watcher.filtered_out in Hf1, Hf2.
  apply orb_false_iff in Hf1 as [Hf1 Hout1]. apply orb_false_iff in Hf1 as [Hd1 Hhid1].
  apply orb_false_iff in Hf2 as [Hf2 Hout2]. apply orb_false_iff in Hf2 as [Hd2 Hhid2].
  destruct (on_created_new rt ev1 io1 w h Hd1 Hh1 Hin1 Hhid1 Hout1) as (_ & Hfin1 & _).
  rewrite Hc1 in Hfin1.
  assert (Hsame : Watcher.processed_files (Watcher.self (final (Watcher.on_created rt ev1 io1 w)))
                  = Watcher.processed_files (Watcher.self w)).
  { rewrite Hfin1. by rewrite create_self. }
  split; [done|].
  assert (Hin2 : h ∉ Watcher.processed_files (Watcher.self w2)).
  { rewrite Hself. rewrite Hsame. exact Hin1. }
  destruct (on_created_new rt ev2 io2 w2 h Hd2 Hh2 Hin2 Hhid2 Hout2) as (_ & Hfin2 & Hem2).
  split; [| split].
  - rewrite Hem2. apply in_or_app. right. right. by left.
  - intros p Hp. rewrite Hp in Hfin2.
    pose proof (create_outcome rt (Watcher.src_path ev2) io2 w2) as Hco.
    rewrite Hp in Hco.
    destruct (FS.open_w _ _) as [o|e'] eqn:Ho; [|discriminate].
    destruct (Text.encodable _) eqn:He; [|discriminate].
    injection Hco as ->.
    destruct (create_ret rt (Watcher.src_path ev2) io2 w2 o Ho He) as (_ & _ & Hw & _).
    split.
    + rewrite Hem2. apply in_or_app. right. right. right. apply in_or_app. by left.
    + rewrite Hfin2. cbn. apply elem_of_union_l. by apply elem_of_singleton.
  - intros x Hx Hnx.
    destruct (on_created_inv rt ev2 io2 w2)
      as [[Hw _] | [(h' & _ & _ & _ & _ & _ & Hw & _) | (h' & _ & _ & _ & _ & _ & _ & Hw)]].
    + rewrite Hw in Hx. done.
    + rewrite Hw in Hx. done.
    + by eexists.
Qed.

(** The stage folder is missing at the first drop and there at the second. *)
Lemma C9_seen_only_after_write_witness :
  let ev := Sample.created ("report.txt" :: Sample.inbox) in
  let r1 := Watcher.on_created Sample.rt ev (Sample.readable "hello" Sample.t1) Sample.watcher_no_stage in
  let r2 := Watcher.on_created Sample.rt ev (Sample.readable "hello" Sample.t2) Sample.watcher0 in
  outcome (Watcher._create_action_file Sample.rt (Watcher.src_path ev)
             (Sample.readable "hello" Sample.t1) Sample.watcher_no_stage) = Raise FileNotFoundError /\
  Watcher.processed_files (Watcher.self (final r1)) = ∅ /\
  In (Sleep 500) (emitted r2).
Proof.
  intros ev r1 r2.
  split; [reflexivity|].
  pose proof (C9_seen_only_after_write Sample.rt ev ev
                (Sample.readable "hello" Sample.t1) (Sample.readable "hello" Sample.t2)
                Sample.watcher_no_stage Sample.watcher0 "md5:hello" FileNotFoundError) as H.
  cbv zeta in H.
  destruct H as (H1 & H2 & _).
  - reflexivity.
  - reflexivity.
  - apply not_elem_of_empty.
  - reflexivity.
  - reflexivity.
  - reflexivity.
  - reflexivity.
  - split; [exact H1 | exact H2].
Defined.

(** *** C10: what the scans return *)

(** C10.  Every path that [check_needs_action] or [check_approved_actions]
    returns has a name matching [*.md]; a raw copy, named
    [<source name>_<timestamp>], is never among them. *)
Theorem C10_scans_return_records_only (win32 : bool) (io : Orch.outside)
    (w : Orch.world) (l : list path) :
  outcome (Orch.check_needs_action win32 io w) = Ret l \/
  outcome (Orch.check_approved_actions win32 io w) = Ret l ->
  Forall (fun p => FS.fnmatch_md win32 (FS.name p) = true) l /\
  (forall (src dir : path) (d : datetime),
     ~ In (Watcher.copy_filename src (strftime_stamp d) :: dir) l).
Proof.
  intros H.
  assert (Hglob : forall p, In p l -> FS.fnmatch_md win32 (FS.name p) = true).
  { intros p Hp. destruct H as [H|H].
    - rewrite check_needs_action_eq in H.
      apply (scan_stage_sound _ _ _ _ _ _ H), glob_md_sound in Hp. by destruct Hp.
    - rewrite check_approved_actions_eq in H.
      apply (scan_stage_sound _ _ _ _ _ _ H), glob_md_sound in Hp. by destruct Hp. }
  split.
  - apply Forall_forall. intros p Hp. by apply Hglob, list_elem_of_In.
  - intros src dir d Hin. apply Hglob in Hin. cbn in Hin.
    by rewrite copy_filename_not_md in Hin.
Qed.

(** After a drop, the record is listed and the copy beside it is not. *)
Lemma C10_scans_return_records_only_witness :
  let w := Watcher.on_created Sample.rt (Sample.created ("report.txt" :: Sample.inbox))
             (Sample.readable "hello" Sample.t1) Sample.watcher0 in
  let o := Sample.orchestrator (Watcher.disk (final w)) in
  let l := ["FILE_DROP_report_txt_20260105_090307.md" :: "Needs_Action" :: Sample.vault] in
  In (Copied ("report.txt" :: Sample.inbox)
        ("report.txt_20260105_090307" :: "Needs_Action" :: Sample.vault)) (emitted w) /\
  outcome (Orch.check_needs_action true Sample.no_qwen o) = Ret l /\
  Forall (fun p => FS.fnmatch_md true (FS.name p) = true) l.
Proof.
  intros w o l.
  assert (H : outcome (Orch.check_needs_action true Sample.no_qwen o) = Ret l)
    by (vm_compute; reflexivity).
  split; [vm_compute; tauto|]. split; [exact H|].
  apply (C10_scans_return_records_only true Sample.no_qwen o l). left. exact H.
Defined.

(* ===================================================================== *)
(** ** Further properties *)
(* ===================================================================== *)

(** Properties of the two scripts beyond the claims, X1 to X24, each with
    the lemmas it needs. *)

(** X1.  Handling one event changes the disk at three paths at most: the
    record, the raw copy in [Needs_Action], and, where a directory has the
    name of the raw copy, the entry with the name of the source in that
    directory, which is where [shutil.copy2] then writes.  Every other path
    holds after the event what it held before. *)
Theorem on_created_changes_its_paths_only (rt : Watcher.runtime) (ev : Watcher.event)
    (io : Watcher.outside) (w : Watcher.world) (q : path) :
  let r := Watcher.on_created rt ev io w in
  q <> Watcher.record_path (Watcher.src_path ev) io w ->
  q <> Watcher.copy_path (Watcher.src_path ev) io w ->
  q <> Watcher.copy_inside (Watcher.src_path ev) io w ->
  Watcher.disk (final r) !! q = Watcher.disk w !! q.
Proof.
  intros r Hr Hc Hi. subst r. by apply on_created_frame.
Qed.

Lemma on_created_changes_its_paths_only_witness :
  let ev := Sample.created ("report.txt" :: Sample.inbox) in
  let r := Watcher.on_created Sample.rt ev (Sample.readable "hello" Sample.t1) Sample.watcher0 in
  Watcher.disk (final r) !! ("Done" :: Sample.vault) = Some FS.Dir /\
  Watcher.disk (final r) !! ("Inbox" :: Sample.vault) = Some FS.Dir.
Proof.
  intros ev r. split.
  - transitivity (Watcher.disk Sample.watcher0 !! ("Done" :: Sample.vault));
      [| vm_compute; reflexivity].
    apply (on_created_changes_its_paths_only Sample.rt ev (Sample.readable "hello" Sample.t1)
             Sample.watcher0); discriminate.
  - transitivity (Watcher.disk Sample.watcher0 !! ("Inbox" :: Sample.vault));
      [| vm_compute; reflexivity].
    apply (on_created_changes_its_paths_only Sample.rt ev (Sample.readable "hello" Sample.t1)
             Sample.watcher0); discriminate.
Defined.

(** X2.  [on_created] lets an exception out in exactly one situation: the
    event is for a file, the file cannot be read, and the [stat] that
    [_get_file_hash] falls back on raises as well; what comes out is what
    [stat] raised.  Nothing raised while the record or the copy is made gets
    out. *)
Theorem on_created_raises_iff (rt : Watcher.runtime) (ev : Watcher.event)
    (io : Watcher.outside) (w : Watcher.world) (e : exn) :
  outcome (Watcher.on_created rt ev io w) = Raise e <->
  Watcher.is_directory ev = false /\
  (exists e0, Watcher.open_read io = Raise e0) /\
  Watcher.stat_hash io = Raise e.
Proof.
  assert (Hhash : outcome (Watcher._get_file_hash rt (Watcher.src_path ev) io w) = Raise e <->
                  (exists e0, Watcher.open_read io = Raise e0) /\ Watcher.stat_hash io = Raise e).
  { unfold Watcher._get_file_hash. py_unfold. cbn.
    destruct (Watcher.open_read io) as [d|e0]; cbn.
    - split; [discriminate | by intros [[? ?] _]].
    - destruct (Watcher.stat_hash io) as [st|e1]; cbn.
      + split; [discriminate | by intros [_ ?]].
      + split; [intros [= ->]; eauto | by intros [_ [= ->]]]. }
  destruct (Watcher.is_directory ev) eqn:Hd.
  { rewrite on_created_dir by done. cbn. split; [discriminate | by intros [? _]]. }
  destruct (outcome (Watcher._get_file_hash rt (Watcher.src_path ev) io w)) as [h|e1] eqn:Hh.
  - assert (Hok : outcome (Watcher.on_created rt ev io w) = Ret tt).
    { destruct (decide (h ∈ Watcher.processed_files (Watcher.self w))) as [Hin|Hin].
      { by destruct (on_created_seen rt ev io w h Hd Hh Hin). }
      destruct (Watcher.is_hidden (Watcher.src_path ev)
                || Watcher.is_outside_drop (Watcher.src_path ev) w) eqn:Hf.
      { by destruct (on_created_skipped rt ev io w h Hd Hh Hin Hf). }
      apply orb_false_iff in Hf as [Hhid Hout].
      by destruct (on_created_new rt ev io w h Hd Hh Hin Hhid Hout). }
    rewrite Hok. split; [discriminate|].
    intros (_ & H). apply Hhash in H. discriminate.
  - destruct (on_created_hash_raise rt ev io w e1 Hd Hh) as (-> & _).
    rewrite <- Hhash. split; [by intros [= ->] | by intros [_ [= ->]]].
Qed.



(** X4.  The seen-set lives in the handler object only.  A handler made
    anew on the disk its predecessor left (the watcher was restarted) writes
    a record for a fingerprint the predecessor had already processed, when
    the record can be opened and the path of the file is well-formed
    UTF-8. *)
Theorem restart_forgets_fingerprints (rt : Watcher.runtime)
    (vault drop : path) (t : gmap path FS.node)
    (ev1 ev2 : Watcher.event) (io1 io2 : Watcher.outside) (h : string) (o : option string) :
  let r1 := Watcher.on_created rt ev1 io1
              {| Watcher.self := Watcher.init vault drop; Watcher.disk := t |} in
  let restarted := {| Watcher.self := Watcher.init vault drop;
                      Watcher.disk := Watcher.disk (final r1) |} in
  let r2 := Watcher.on_created rt ev2 io2 restarted in
  h ∈ Watcher.processed_files (Watcher.self (final r1)) ->
  Watcher.filtered_out ev2 restarted = false ->
  outcome (Watcher._get_file_hash rt (Watcher.src_path ev2) io2 restarted) = Ret h ->
  FS.open_w (Watcher.record_path (Watcher.src_path ev2) io2 restarted)
    (Watcher.disk restarted) = Ret o ->
  forallb Text.encodable (Watcher.src_path ev2) = true ->
  In (Wrote (Watcher.record_path (Watcher.src_path ev2) io2 restarted)) (emitted r2).
Proof.
  intros r1 restarted r2 _ Hf Hh Ho Henc.
  rewrite <- (record_content_encodable rt _ io2) in Henc.
  assert (Hin : h ∉ Watcher.processed_files (Watcher.self restarted))
    by apply not_elem_of_empty.
  unfold Watcher.filtered_out in Hf.
  apply orb_false_iff in Hf as [Hf Hout]. apply orb_false_iff in Hf as [Hd Hhid].
  destruct (on_created_new rt ev2 io2 restarted h Hd Hh Hin Hhid Hout) as (_ & _ & Hem).
  destruct (create_ret rt (Watcher.src_path ev2) io2 restarted o Ho Henc) as (_ & _ & Hw & _).
  subst r2. rewrite Hem. apply in_or_app. right. right. right. apply in_or_app. by left.
Qed.

Lemma restart_forgets_fingerprints_witness :
  let ev := Sample.created ("report.txt" :: Sample.inbox) in
  let r1 := Watcher.on_created Sample.rt ev (Sample.readable "hello" Sample.t1)
              Sample.watcher0 in
  let restarted := {| Watcher.self := Watcher.init Sample.vault Sample.inbox;
                      Watcher.disk := Watcher.disk (final r1) |} in
  let r2 := Watcher.on_created Sample.rt ev (Sample.readable "hello" Sample.t3) restarted in
  "md5:hello" ∈ Watcher.processed_files (Watcher.self (final r1)) /\
  In (Wrote ["FILE_DROP_report_txt_20260105_090412.md"; "Needs_Action"; "vault"]) (emitted r2).
Proof.
  intros ev r1 restarted r2.
  assert (H1 : "md5:hello" ∈ Watcher.processed_files (Watcher.self (final r1))).
  { apply (bool_decide_unpack _). vm_compute. exact I. }
  split; [exact H1|].
  apply (restart_forgets_fingerprints Sample.rt Sample.vault Sample.inbox Sample.ready_vault
           ev ev (Sample.readable "hello" Sample.t1) (Sample.readable "hello" Sample.t3)
           "md5:hello" None);
    [exact H1 | reflexivity | reflexivity | vm_compute; reflexivity | vm_compute; reflexivity].
Defined.

(** X5.  What the watcher writes, the orchestrator finds: a record written
    by [on_created] is in the list the next [check_needs_action] returns, on
    either platform, when both work on the same vault, the lookup meets no
    error and [Needs_Action] can be listed. *)
Theorem written_record_is_scanned (win32 : bool) (rt : Watcher.runtime)
    (ev : Watcher.event) (io : Watcher.outside) (w : Watcher.world) (p : path)
    (cycle : Orch.outside) (o : Orch.world) :
  let r := Watcher.on_created rt ev io w in
  In (Wrote p) (emitted r) ->
  Watcher.needs_action (Watcher.self w) = "Needs_Action" :: Orch.vault_path (Orch.self o) ->
  Orch.disk o = Watcher.disk (final r) ->
  Orch.fault_needs_action cycle = None ->
  Orch.listable_needs_action cycle = true ->
  exists l, outcome (Orch.check_needs_action win32 cycle o) = Ret l /\ In p l.
Proof.
  intros r Hw Hna Hdisk Hfault Hlist. subst r.
  destruct (on_created_inv rt ev io w)
    as [[_ Hnone] | [(h & _ & _ & _ & _ & _ & _ & Hnone) |
                     (h & Hh & Hin & Hf & _ & Hrc & Hfin & Hwr)]].
  { rewrite Forall_forall in Hnone. apply list_elem_of_In, Hnone in Hw. discriminate. }
  { rewrite Forall_forall in Hnone. apply list_elem_of_In, Hnone in Hw. discriminate. }
  set (src := Watcher.src_path ev) in *.
  pose proof (create_outcome rt src io w) as Hco. rewrite Hrc in Hco.
  destruct (FS.open_w (Watcher.record_path src io w) (Watcher.disk w)) as [old|e] eqn:Ho;
    [|discriminate].
  destruct (Text.encodable (Watcher.record_content rt src io)) eqn:Henc; [|discriminate].
  destruct (create_ret rt src io w old Ho Henc) as (_ & _ & _ & Hc).
  assert (Hp : p = Watcher.record_path src io w).
  { unfold Watcher.filtered_out in Hf.
    apply orb_false_iff in Hf as [Hf Hout]. apply orb_false_iff in Hf as [Hd Hhid].
    destruct (on_created_new rt ev io w h Hd Hh Hin Hhid Hout) as (_ & _ & Hem).
    rewrite Hem in Hw. apply in_app_or in Hw as [Hw|Hw].
    { pose proof (get_file_hash_no_write rt (Watcher.src_path ev) io w) as Hnw.
      rewrite Forall_forall in Hnw. apply list_elem_of_In, Hnw in Hw. discriminate. }
    destruct Hw as [Hw|[Hw|Hw]]; [discriminate | discriminate |].
    apply in_app_or in Hw as [Hw|Hw]; [by apply create_wrote in Hw|].
    destruct Hw as [Hw|[]]. by destruct (outcome _). }
  subst p.
  (* Needs_Action is a directory before and after *)
  assert (Hdir : FS.is_dir (Orch.disk o) (Watcher.needs_action (Watcher.self w)) = true).
  { rewrite Hdisk.
    assert (Hbefore : FS.node_at (Watcher.disk w) (Watcher.needs_action (Watcher.self w))
                      = Some FS.Dir).
    { unfold FS.open_w, Watcher.record_path in Ho.
      destruct (FS.node_at _ _) as [[|?]|]; [done | discriminate | discriminate]. }
    unfold FS.is_dir. destruct (Watcher.needs_action (Watcher.self w)) as [|x na] eqn:Ena.
    - done.
    - cbn in *. rewrite <- Ena.
      rewrite on_created_frame.
      + rewrite Ena. by rewrite Hbefore.
      + unfold Watcher.record_path. rewrite Ena. apply not_eq_sym, cons_ne_self.
      + unfold Watcher.copy_path. rewrite Ena. apply not_eq_sym, cons_ne_self.
      + unfold Watcher.copy_inside, Watcher.copy_path. rewrite Ena.
        intros H. apply (f_equal (@List.length string)) in H. cbn in H. lia. }
  exists (FS.glob_md win32 ("Needs_Action" :: Orch.vault_path (Orch.self o)) (Orch.disk o)).
  split.
  - rewrite check_needs_action_eq, Hfault, Hlist, scan_stage_run.
    rewrite <- Hna. unfold FS.exists_. unfold FS.is_dir in Hdir.
    destruct (FS.node_at (Orch.disk o) _) as [[|?]|]; [done | discriminate | discriminate].
  - rewrite <- Hna. unfold Watcher.record_path.
    apply (glob_md_complete _ _ _ _ (FS.File (Watcher.record_content rt src io)));
      [done | | apply action_filename_is_md].
    rewrite Hdisk, Hfin. cbn. exact Hc.
Qed.

Lemma written_record_is_scanned_witness :
  let r := Watcher.on_created Sample.rt (Sample.created ("a.txt" :: Sample.inbox))
             (Sample.readable "hello" Sample.t1) Sample.watcher0 in
  exists l,
    outcome (Orch.check_needs_action false Sample.no_qwen
               (Sample.orchestrator (Watcher.disk (final r)))) = Ret l /\
    In ("FILE_DROP_a_txt_20260105_090307.md" :: "Needs_Action" :: Sample.vault) l.
Proof.
  intros r.
  apply (written_record_is_scanned false Sample.rt (Sample.created ("a.txt" :: Sample.inbox))
           (Sample.readable "hello" Sample.t1) Sample.watcher0
           ("FILE_DROP_a_txt_20260105_090307.md" :: "Needs_Action" :: Sample.vault)
           Sample.no_qwen (Sample.orchestrator (Watcher.disk (final r)))).
  - vm_compute. tauto.
  - reflexivity.
  - reflexivity.
  - reflexivity.
  - reflexivity.
Defined.

(** X6.  A cycle never waits: however it ends, its journal holds no wait,
    no sleep, no terminate and no kill. *)
Theorem run_cycle_never_blocks (win32 : bool) (io : Orch.outside) (w : Orch.world) :
  let r := Orch.run_cycle win32 io w in
  Orch.blocked_ms (emitted r) = 0%nat /\
  Forall (fun a => match a with
                   | Waited _ _ | Sleep _ | Terminate _ | Kill _ => False
                   | _ => True
                   end) (emitted r).
Proof.
  intros r. subst r. split.
  - apply blocked_ms_zero. by apply journal_run_cycle.
  - by apply journal_run_cycle.
Qed.

(** X7.  Off win32 a cycle spawns no process, and [_invoke_qwen_code] ends
    as [_log_pending_tasks] does, in the same state: the automatic mode
    comes down to the logging of the manual one. *)
Theorem run_cycle_off_win32_never_spawns (io : Orch.outside) (w : Orch.world) :
  let r := Orch.run_cycle false io w in
  Forall (fun a => Orch.is_spawn a = false) (emitted r) /\
  (forall tasks,
     outcome (Orch._invoke_qwen_code false tasks io w) =
     outcome (Orch._log_pending_tasks tasks io w) /\
     final (Orch._invoke_qwen_code false tasks io w) =
     final (Orch._log_pending_tasks tasks io w)).
Proof.
  intros r. subst r. split.
  - apply journal_run_cycle; try done.
  - intros tasks. unfold Orch._invoke_qwen_code, Orch.popen.
    set (m := Orch._log_pending_tasks tasks io). clearbody m.
    py_unfold. cbn. by destruct (m w).
Qed.

(** X8.  [start_watcher] never raises.  It returns [True], holding the
    handle of the one child it spawned (the watcher script with the vault as
    its only argument), when the script exists, the platform is win32 and
    [Popen] succeeds.  In every other case, so on every other platform, it
    returns [False], has spawned nothing and leaves the orchestrator as it
    was. *)
Theorem start_watcher_result (win32 : bool) (h : Orch.host) (w : Orch.world) :
  let r := Orch.start_watcher win32 h w in
  match Orch.watcher_script_exists h, win32, Orch.spawn_watcher h with
  | true, true, Ret p =>
      outcome r = Ret true /\
      final r = Orch.set_watcher_process (Some {| Orch.pid := p |}) w /\
      List.filter Orch.is_spawn (emitted r) =
        [Spawned ["python"; "filesystem_watcher.py"; FS.str (Orch.vault_path (Orch.self w))] p]
  | _, _, _ =>
      outcome r = Ret false /\ final r = w /\
      Forall (fun a => Orch.is_spawn a = false) (emitted r)
  end.
Proof.
  intros r. subst r. unfold Orch.start_watcher, Orch.popen. py_unfold.
  destruct (Orch.watcher_script_exists h); cbn; [| by repeat constructor].
  destruct win32; cbn; [| by repeat constructor].
  destruct (Orch.spawn_watcher h) as [p|e]; cbn; by repeat constructor.
Qed.

(** X9.  On win32, when the lookup of [Needs_Action] meets no error and
    finds at least one task and [qwen] starts, the first half of the cycle
    spawns exactly one process, [qwen] with the fixed prompt, writes nothing
    and leaves the world as it was, the pending tasks included. *)
Theorem pending_tasks_respawn_agent (io : Orch.outside) (w : Orch.world) (p : nat) :
  let stage := "Needs_Action" :: Orch.vault_path (Orch.self w) in
  let r := Orch.needs_action_stage true io w in
  Orch.fault_needs_action io = None ->
  Orch.glob_stage true (Orch.listable_needs_action io) stage (Orch.disk w) <> [] ->
  Orch.spawn_qwen io = Ret p ->
  outcome r = Ret tt /\ final r = w /\
  List.filter Orch.is_spawn (emitted r) =
    [Spawned ["qwen"; "--prompt-interactive"; Orch.prompt] p] /\
  Forall (fun a => Watcher.is_write a = false) (emitted r).
Proof.
  intros stage r Hf Hg Hq. subst r.
  assert (Hlogs : forall (l : list path) (s : Orch.world),
            for_each l (fun task_file : path => emit (Log INFO ("  - " +:+ FS.name task_file))) s
            = Run s (List.map (fun task_file => Log INFO ("  - " +:+ FS.name task_file)) l) (Ret tt)).
  { induction l as [|x l IH]; intros s; [done|].
    cbn [for_each List.map]. unfold bind, emit at 1. by rewrite IH. }
  assert (He : FS.exists_ (Orch.disk w) stage = true).
  { unfold Orch.glob_stage, FS.glob_md in Hg.
    destruct (Orch.listable_needs_action io); [|done].
    destruct (FS.is_dir (Orch.disk w) stage) eqn:E; [|done].
    unfold FS.is_dir in E. unfold FS.exists_. by destruct (FS.node_at _ _). }
  destruct (Orch.glob_stage true (Orch.listable_needs_action io) stage (Orch.disk w))
    as [|x l] eqn:El; [done|]. clear Hg.
  assert (Hscan : Orch.check_needs_action true io w
                  = Run w [Stat stage; Scanned stage] (Ret (x :: l))).
  { rewrite check_needs_action_eq, Hf, scan_stage_run. fold stage. by rewrite He, El. }
  assert (Htrig : exists names,
            Orch.trigger_qwen_code true (x :: l) true io w
            = Run w (List.map (fun n => Log INFO n) names
                     ++ [Log INFO "Invoking Qwen Code for automatic processing...";
                         Spawned ["qwen"; "--prompt-interactive"; Orch.prompt] p;
                         Log INFO "Qwen Code invoked with PID"]) (Ret tt)).
  { exists (("Found " +:+ Text.decimal (N.of_nat (List.length (x :: l)))
             +:+ " task(s) requiring processing:")
            :: List.map (fun task_file => "  - " +:+ FS.name task_file) (x :: l)).
    unfold Orch.trigger_qwen_code, Orch._invoke_qwen_code, Orch.popen.
    unfold bind at 1 2. unfold emit at 1. rewrite Hlogs. cbn [final emitted outcome].
    py_unfold. rewrite Hq. cbn. by rewrite List.map_map. }
  destruct Htrig as [names Htrig].
  unfold Orch.needs_action_stage, bind. rewrite Hscan, Htrig.
  split; [done|]. split; [done|]. cbn. split.
  - rewrite List.filter_app. cbn.
    assert (Hn : List.filter Orch.is_spawn (List.map (fun n => Log INFO n) names) = []).
    { clear. induction names; [done|]. done. }
    by rewrite Hn.
  - repeat constructor. apply Forall_app. split; [| by repeat constructor].
    clear. induction names; by constructor.
Qed.

Lemma pending_tasks_respawn_agent_witness :
  let r := Orch.needs_action_stage true Sample.qwen_ok (Sample.orchestrator Sample.busy_vault) in
  outcome r = Ret tt /\
  List.filter Orch.is_spawn (emitted r) =
    [Spawned ["qwen"; "--prompt-interactive"; Orch.prompt] 515%nat].
Proof.
  intros r.
  destruct (pending_tasks_respawn_agent Sample.qwen_ok (Sample.orchestrator Sample.busy_vault)
              515%nat) as (H1 & _ & H3 & _).
  - reflexivity.
  - vm_compute. discriminate.
  - reflexivity.
  - split; [exact H1 | exact H3].
Defined.

(** X10.  [process_approved_actions] on a non-empty list only logs and
    spawns nothing.  When the day's log can be opened and the name of every
    file is well-formed UTF-8, it appends one entry that names every file,
    and changes nothing else.  When the log can be opened and some name is
    not well-formed, the [write] raises [UnicodeEncodeError] and the log is
    left as [open] found or made it.  When the log cannot be opened, what
    [open] raised comes out and the world is unchanged; that is
    [FileNotFoundError] when [Logs] is missing from a vault that is there. *)
Theorem approved_actions_are_logged (files : list path) (io : Orch.outside) (w : Orch.world) :
  let vault := Orch.vault_path (Orch.self w) in
  let log_file := Orch.log_file_of vault (Orch.now_approved_file io) in
  let entry := Orch.approved_entry (isoformat (Orch.now_approved_entry io)) files in
  let r := Orch.process_approved_actions files io w in
  files <> [] ->
  match FS.open_w log_file (Orch.disk w) with
  | Ret old =>
      if forallb (fun f => Text.encodable (FS.name f)) files then
        outcome r = Ret tt /\
        final r = Orch.set_disk (<[log_file := FS.File (default "" old +:+ entry)]> (Orch.disk w)) w
      else
        outcome r = Raise UnicodeEncodeError /\
        final r = Orch.set_disk (<[log_file := FS.File (default "" old)]> (Orch.disk w)) w
  | Raise e =>
      outcome r = Raise e /\ final r = w /\
      (Orch.disk w !! ("Logs" :: vault) = None -> FS.is_dir (Orch.disk w) vault = true ->
         e = FileNotFoundError)
  end /\
  (forall f, In f files -> Orch.mentions entry (Orch.entry_line f)) /\
  Forall (fun a => Orch.is_spawn a = false) (emitted r).
Proof.
  intros vault log_file entry r Hne. subst r.
  split; [| split; [intros f; apply approved_entry_lists |]].
  - pose proof (process_approved_actions_run files io w Hne) as H. cbv zeta in H.
    fold vault in H. fold log_file in H. fold entry in H.
    rewrite <- (encodable_approved_entry (isoformat (Orch.now_approved_entry io)) files
                  (isoformat_ascii _)).
    fold entry.
    destruct (FS.open_w log_file (Orch.disk w)) as [old|e] eqn:Eo; [exact H|].
    destruct H as [H1 H2]. split; [done|]. split; [done|].
    unfold FS.open_w, log_file, Orch.log_file_of in Eo. cbn in Eo.
    intros Hd Hv. rewrite Hd in Eo. unfold FS.is_dir in Hv.
    destruct (FS.node_at (Orch.disk w) vault) as [[|?]|]; try discriminate.
    by injection Eo as <-.
  - by apply (journal_process_approved_actions (fun a => Orch.is_spawn a = false)).
Qed.

Lemma approved_actions_are_logged_witness :
  let w := Sample.orchestrator Sample.busy_vault in
  let files := ["b.md" :: "Approved" :: Sample.vault] in
  let r := Orch.process_approved_actions files Sample.no_qwen w in
  outcome r = Ret tt /\ Forall (fun a => Orch.is_spawn a = false) (emitted r).
Proof.
  intros w files r.
  destruct (approved_actions_are_logged files Sample.no_qwen w) as (H & _ & H3);
    [discriminate|].
  assert (E : FS.open_w (Orch.log_file_of (Orch.vault_path (Orch.self w))
                           (Orch.now_approved_file Sample.no_qwen)) (Orch.disk w)
              = Ret None) by (vm_compute; reflexivity).
  rewrite E in H.
  assert (E2 : forallb (fun f => Text.encodable (FS.name f)) files = true)
    by (vm_compute; reflexivity).
  rewrite E2 in H. destruct H as [H1 _]. split; [exact H1 | exact H3].
Defined.

(** X11.  [_log_approved_actions] does not create [Logs];
    [_log_pending_tasks] does.  In a vault where [Logs] is missing,
    [process_approved_actions] raises [FileNotFoundError] and changes
    nothing, while [_log_pending_tasks] on the same world, for files whose
    names are well-formed UTF-8, succeeds and leaves [Logs] a directory. *)
Theorem approved_log_needs_logs_folder (files : list path) (io : Orch.outside)
    (w : Orch.world) :
  let vault := Orch.vault_path (Orch.self w) in
  FS.is_dir (Orch.disk w) vault = true ->
  Orch.disk w !! ("Logs" :: vault) = None ->
  (forall f, Orch.disk w !! (f :: "Logs" :: vault) = None) ->
  files <> [] ->
  forallb (fun f => Text.encodable (FS.name f)) files = true ->
  outcome (Orch.process_approved_actions files io w) = Raise FileNotFoundError /\
  final (Orch.process_approved_actions files io w) = w /\
  outcome (Orch._log_pending_tasks files io w) = Ret tt /\
  FS.is_dir (Orch.disk (final (Orch._log_pending_tasks files io w))) ("Logs" :: vault) = true.
Proof.
  intros vault Hv Hl Hbelow Hne Henc.
  pose proof (process_approved_actions_run files io w Hne) as H. cbv zeta in H.
  fold vault in H.
  assert (E : FS.open_w (Orch.log_file_of vault (Orch.now_approved_file io)) (Orch.disk w)
              = Raise FileNotFoundError).
  { unfold FS.open_w, Orch.log_file_of. cbn. rewrite Hl.
    unfold FS.is_dir in Hv. by destruct (FS.node_at (Orch.disk w) vault) as [[|?]|]. }
  rewrite E in H. destruct H as [H1 H2].
  split; [done|]. split; [done|].
  rewrite log_pending_tasks_run. cbv zeta. fold vault.
  rewrite (encodable_pending_entry _ _ (isoformat_ascii _)), Henc.
  assert (Hex : FS.exists_ (Orch.disk w) vault = true).
  { unfold FS.is_dir in Hv. unfold FS.exists_. by destruct (FS.node_at _ _). }
  destruct (mkdir_child_cases (Orch.disk w) vault "Logs" Hex)
    as [(_ & _ & ->) | [(Hd & _) | (Hd & e & He)]].
  - assert (E2 : FS.open_w (Orch.log_file_of vault (Orch.now_pending_file io))
                   (<["Logs" :: vault := FS.Dir]> (Orch.disk w)) = Ret None).
    { unfold FS.open_w, Orch.log_file_of. cbn. rewrite lookup_insert_eq.
      rewrite lookup_insert_ne by (intros [=]). by rewrite Hbelow. }
    rewrite E2. cbn. split; [done|].
    unfold FS.is_dir. cbn. rewrite lookup_insert_ne by (intros [=]).
    by rewrite lookup_insert_eq.
  - apply is_dir_lookup in Hd. congruence.
  - rewrite He. unfold FS.is_dir in Hd. cbn in Hd. rewrite Hl in Hd.
    exfalso. clear -He Hl Hv Hex.
    destruct (mkdir_child_cases (Orch.disk w) vault "Logs" Hex)
      as [(_ & _ & E) | [(Hd & _) | (Hd & e' & E)]].
    + rewrite E in He. discriminate.
    + apply is_dir_lookup in Hd. congruence.
    + unfold FS.is_dir in Hv. rewrite mkdir_unfold in He. cbn in He.
      destruct (FS.node_at (Orch.disk w) vault) as [[|?]|]; try discriminate.
      rewrite Hl in He. discriminate.
Qed.

Lemma approved_log_needs_logs_folder_witness :
  let w := Sample.orchestrator Sample.no_logs_vault in
  let files := ["b.md" :: "Approved" :: Sample.vault] in
  outcome (Orch.process_approved_actions files Sample.no_qwen w) = Raise FileNotFoundError /\
  outcome (Orch._log_pending_tasks files Sample.no_qwen w) = Ret tt.
Proof.
  intros w files.
  destruct (approved_log_needs_logs_folder files Sample.no_qwen w) as (H1 & _ & H3 & _).
  - reflexivity.
  - vm_compute. reflexivity.
  - intros f. change (Sample.no_logs_vault !! (f :: "Logs" :: Sample.vault) = None).
    unfold Sample.no_logs_vault, Sample.bare_vault, Sample.vault.
    rewrite !lookup_insert_ne by (intros [=]). apply lookup_singleton_ne. intros [=].
  - discriminate.
  - vm_compute. reflexivity.
  - split; [exact H1 | exact H3].
Defined.

(** X12.  A cycle changes nothing outside [Logs].  With the vault root in
    place, every path other than [Logs] and the entries directly in it holds
    after the cycle what it held before, and the orchestrator object is the
    same, however the cycle ends: no task leaves [Needs_Action] and no
    approved action leaves [Approved]. *)
Theorem run_cycle_only_changes_logs (win32 : bool) (io : Orch.outside) (w : Orch.world)
    (q : path) :
  let vault := Orch.vault_path (Orch.self w) in
  let r := Orch.run_cycle win32 io w in
  FS.exists_ (Orch.disk w) vault = true ->
  q <> "Logs" :: vault -> FS.parent q <> "Logs" :: vault ->
  Orch.disk (final r) !! q = Orch.disk w !! q /\ Orch.self (final r) = Orch.self w.
Proof.
  intros vault r Hex Hq Hp. subst r.
  destruct (steps_run_cycle win32 io w) as [Hs H].
  destruct (H Hex) as [_ F]. split; [|done].
  apply F. by intros [?|?].
Qed.

Lemma run_cycle_only_changes_logs_witness :
  let w := Sample.orchestrator Sample.busy_vault in
  let r := Orch.run_cycle true Sample.no_qwen w in
  Orch.disk (final r) !! ("a.md" :: "Needs_Action" :: Sample.vault) = Some (FS.File "task") /\
  Orch.self (final r) = Orch.self w.
Proof.
  intros w r.
  destruct (run_cycle_only_changes_logs true Sample.no_qwen w
              ("a.md" :: "Needs_Action" :: Sample.vault)) as [H1 H2];
    [reflexivity | discriminate | discriminate |].
  split; [| exact H2].
  etransitivity; [exact H1 | vm_compute; reflexivity].
Defined.

Lemma scan_stage_lists (windows : bool) (folder : path) (listable : bool) (w : Orch.world) :
  let r := Orch.scan_stage windows folder None listable w in
  exists l,
    outcome r = Ret l /\ final r = w /\ NoDup l /\
    (FS.is_dir (Orch.disk w) folder = false -> l = []) /\
    (listable = false -> l = []) /\
    (forall p, In p l <->
       listable = true /\ FS.is_dir (Orch.disk w) folder = true /\
       exists f, p = f :: folder /\ is_Some (Orch.disk w !! p) /\
                 FS.fnmatch_md windows f = true).
Proof.
  intros r. subst r. rewrite scan_stage_run.
  assert (Hiff : forall p, In p (FS.glob_md windows folder (Orch.disk w)) <->
     FS.is_dir (Orch.disk w) folder = true /\
     exists f, p = f :: folder /\ is_Some (Orch.disk w !! p) /\
               FS.fnmatch_md windows f = true).
  { intros p. split.
    - intros Hin. pose proof Hin as Hin'. apply glob_md_sound in Hin as (Hm & Hp & Hs).
      split.
      + destruct (FS.is_dir (Orch.disk w) folder) eqn:E; [done|].
        by rewrite glob_md_not_dir in Hin'.
      + unfold FS.glob_md in Hin'. destruct (FS.is_dir _ _); [|done].
        apply filter_In in Hin' as [_ Hc]. apply andb_true_iff in Hc as [Hc _].
        apply bool_decide_eq_true in Hc as [Hne _].
        destruct p as [|f d]; [done|]. cbn in Hp. subst d. by exists f.
    - intros (Hd & f & -> & [n Hn] & Hm). by apply (glob_md_complete _ _ _ _ n). }
  destruct (FS.exists_ (Orch.disk w) folder) eqn:He.
  - exists (Orch.glob_stage windows listable folder (Orch.disk w)). cbn.
    split; [done|]. split; [done|]. unfold Orch.glob_stage. destruct listable.
    + split; [apply glob_md_NoDup|]. split; [apply glob_md_not_dir|]. split; [done|].
      intros p. rewrite Hiff. tauto.
    + split; [constructor|]. split; [done|]. split; [done|].
      intros p. split; [done | by intros [? _]].
  - exists []. cbn. split; [done|]. split; [done|]. split; [constructor|]. split; [done|].
    split; [done|].
    intros p. split; [done|]. intros (_ & Hd & _).
    unfold FS.exists_ in He. unfold FS.is_dir in Hd. by destruct (FS.node_at _ _).
Qed.

(** X13.  [check_needs_action] and [check_approved_actions], when the
    lookup meets no error, change nothing and return, without repetition,
    exactly the entries directly in their stage folder whose name matches
    [*.md], with no regard to case on win32, provided the folder can be
    listed.  A stage that is missing, is a regular file, or cannot be listed
    gives the empty list and no error. *)
Theorem stage_scan_lists_md_children (win32 : bool) (io : Orch.outside) (w : Orch.world)
    (stage : string) (scan : M Orch.world (list path)) (listable : bool) :
  let folder := stage :: Orch.vault_path (Orch.self w) in
  let r := scan w in
  (stage = "Needs_Action" /\ scan = Orch.check_needs_action win32 io /\
   Orch.fault_needs_action io = None /\ listable = Orch.listable_needs_action io) \/
  (stage = "Approved" /\ scan = Orch.check_approved_actions win32 io /\
   Orch.fault_approved io = None /\ listable = Orch.listable_approved io) ->
  exists l,
    outcome r = Ret l /\ final r = w /\ NoDup l /\
    (FS.is_dir (Orch.disk w) folder = false -> l = []) /\
    (listable = false -> l = []) /\
    (forall p, In p l <->
       listable = true /\ FS.is_dir (Orch.disk w) folder = true /\
       exists f, p = f :: folder /\ is_Some (Orch.disk w !! p) /\
                 FS.fnmatch_md win32 f = true).
Proof.
  intros folder r H. subst folder r.
  destruct H as [(-> & -> & Hf & ->) | (-> & -> & Hf & ->)].
  - rewrite check_needs_action_eq, Hf. apply scan_stage_lists.
  - rewrite check_approved_actions_eq, Hf. apply scan_stage_lists.
Qed.

Lemma stage_scan_lists_md_children_witness :
  exists l,
    outcome (Orch.check_approved_actions true Sample.no_qwen
               (Sample.orchestrator Sample.busy_vault)) = Ret l /\
    NoDup l.
Proof.
  destruct (stage_scan_lists_md_children true Sample.no_qwen
              (Sample.orchestrator Sample.busy_vault) "Approved"
              (Orch.check_approved_actions true Sample.no_qwen) true)
    as (l & Ho & _ & Hn & _).
  - right. split; [reflexivity|]. split; [reflexivity|]. split; reflexivity.
  - exists l. split; [exact Ho | exact Hn].
Defined.

(** *** Start-up and shutdown *)

(** X14.  [Orchestrator.__init__] raises [ValueError], with the disk
    untouched and nothing logged, when the vault is missing.  It never
    removes or replaces an entry.  When it returns, each of the nine folders
    is a directory, no watcher is attached and [running] is false. *)
Theorem orchestrator_init (vault : path) (interval : Z) (t : gmap path FS.node) :
  let r := Orch.init vault interval t in
  (FS.exists_ t vault = false ->
   outcome r = Raise ValueError /\ Orch.disk (final r) = t /\ emitted r = []) /\
  (forall q n, t !! q = Some n -> Orch.disk (final r) !! q = Some n) /\
  (outcome r = Ret tt ->
   Forall (fun f => FS.is_dir (Orch.disk (final r)) (f :: vault) = true) Orch.folders /\
   Orch.self (final r) =
     {| Orch.vault_path := vault; Orch.check_interval := interval;
        Orch.watcher_process := None; Orch.running := false |}).
Proof.
  intros r. subst r. rewrite init_run. cbv zeta.
  destruct (FS.exists_ t vault) eqn:Hex.
  - pose proof (mkdir_each_keeps (List.map (fun f => f :: vault) Orch.folders) t) as K.
    pose proof (mkdir_each_ok (List.map (fun f => f :: vault) Orch.folders) t) as Hok.
    destruct (FS.mkdir_each _ t) as [t' [[]|e]]; cbn [fst snd] in *.
    + split; [discriminate|]. split; [done|]. intros _. split; [|done].
      specialize (Hok eq_refl). by apply Forall_map in Hok.
    + split; [discriminate|]. split; [done | discriminate].
  - cbn. split; [done|]. split; [done | discriminate].
Qed.

Lemma orchestrator_init_witness :
  let r := Orch.init Sample.vault 30 Sample.bare_vault in
  outcome r = Ret tt /\
  FS.is_dir (Orch.disk (final r)) ("Approved" :: Sample.vault) = true /\
  outcome (Orch.init ("elsewhere" :: Sample.vault) 30 Sample.bare_vault) = Raise ValueError.
Proof.
  intros r.
  assert (H : outcome r = Ret tt) by (vm_compute; reflexivity).
  split; [exact H|]. split.
  - destruct (orchestrator_init Sample.vault 30 Sample.bare_vault) as (_ & _ & H3).
    destruct (H3 H) as [Hall _].
    inversion_clear Hall as [|? ? _ Hall1]. inversion_clear Hall1 as [|? ? _ Hall2].
    inversion_clear Hall2 as [|? ? _ Hall3]. inversion_clear Hall3 as [|? ? _ Hall4].
    inversion_clear Hall4 as [|? ? Hd _]. exact Hd.
  - apply (orchestrator_init ("elsewhere" :: Sample.vault) 30 Sample.bare_vault).
    vm_compute. reflexivity.
Defined.

(** X15.  When the watcher cannot be started (the script is missing, the
    platform is not win32, or [Popen] raises), [run] returns 1 having done
    nothing but log: no cycle is run, nothing is spawned or terminated, and
    [running] is left set. *)
Theorem run_without_watcher_exits_1 (win32 : bool) (h : Orch.host)
    (cycles : list Orch.outside) (exits_after : option nat) (w : Orch.world) :
  Orch.watcher_script_exists h = false \/ win32 = false \/
    (exists e, Orch.spawn_watcher h = Raise e) ->
  let r := Orch.run win32 h cycles exits_after w in
  outcome r = Ret 1%nat /\
  final r = Orch.set_running true w /\
  Forall (fun a => Orch.is_log a = true) (emitted r).
Proof.
  intros H r. subst r.
  destruct (run_failed win32 h cycles exits_after w H) as (j & -> & Hj). done.
Qed.

Lemma run_without_watcher_exits_1_witness :
  outcome (Orch.run false Sample.host_ok [Sample.no_qwen] (Some 10%nat)
             (Sample.orchestrator Sample.busy_vault)) = Ret 1%nat.
Proof.
  apply (run_without_watcher_exits_1 false Sample.host_ok [Sample.no_qwen] (Some 10%nat)
           (Sample.orchestrator Sample.busy_vault)).
  right. left. reflexivity.
Defined.





(** *** The watcher process *)

(** X18.  [FileSystemWatcher.__init__] raises [ValueError] and leaves the
    disk untouched when the vault is missing.  It never removes or replaces
    an entry.  When it returns, the drop folder ([Inbox] in the vault unless
    one is given) and [Needs_Action] are directories. *)
Theorem watcher_setup (vault : path) (drop : option path) (interval : nat)
    (t : gmap path FS.node) :
  let drop_folder := match drop with Some d => d | None => "Inbox" :: vault end in
  let r := WatcherProc.init vault drop interval t in
  (FS.exists_ t vault = false -> outcome r = Raise ValueError /\ final r = t) /\
  (forall q n, t !! q = Some n -> final r !! q = Some n) /\
  (forall fw, outcome r = Ret fw ->
     WatcherProc.vault_path fw = vault /\ WatcherProc.drop_path fw = drop_folder /\
     FS.is_dir (final r) drop_folder = true /\
     FS.is_dir (final r) ("Needs_Action" :: vault) = true).
Proof.
  intros drop_folder r. subst r.
  destruct (watcher_init_facts vault drop interval t) as (H1 & H2 & H3).
  split; [done|]. split; [done|].
  intros fw Hfw. destruct (H3 fw Hfw) as (-> & Hd & Hn). by repeat split.
Qed.

Lemma watcher_setup_witness :
  let r := WatcherProc.init Sample.vault None 5 Sample.bare_vault in
  FS.is_dir (final r) ("Inbox" :: Sample.vault) = true /\
  outcome (WatcherProc.init ("elsewhere" :: Sample.vault) None 5 Sample.bare_vault)
    = Raise ValueError.
Proof.
  intros r.
  assert (E : outcome (WatcherProc.init Sample.vault None 5 Sample.bare_vault)
              = Ret {| WatcherProc.vault_path := Sample.vault;
                       WatcherProc.drop_path := Sample.inbox;
                       WatcherProc.check_interval := 5 |}) by (vm_compute; reflexivity).
  split.
  - destruct (watcher_setup Sample.vault None 5 Sample.bare_vault) as (_ & _ & H3).
    destruct (H3 _ E) as (_ & _ & Hd & _). exact Hd.
  - apply (watcher_setup ("elsewhere" :: Sample.vault) None 5 Sample.bare_vault).
    vm_compute. reflexivity.
Defined.



(** X20.  The watcher that [main] builds from a vault argument alone has
    as its drop folder the [Inbox] of the default vault ([AI_Employee_Vault]
    in the project root), not the [Inbox] of the vault it was given.  Unless
    the two vaults are the same, its handler discards an event for a file in
    the [Inbox] of the given vault: nothing is written and nothing is
    remembered. *)
Theorem vault_argument_alone_watches_default_inbox (rt : Watcher.runtime)
    (project_root : path) (script vault : path) (t t' : gmap path FS.node)
    (fw : WatcherProc.FileSystemWatcher) (ev : Watcher.event) (io : Watcher.outside) :
  let w := {| Watcher.self := WatcherProc.event_handler fw; Watcher.disk := t' |} in
  let r := Watcher.on_created rt ev io w in
  outcome (WatcherProc.main project_root [script; vault] t) = Ret (inl fw) ->
  vault <> WatcherProc.default_vault project_root ->
  FS.parent (Watcher.src_path ev) = "Inbox" :: vault ->
  WatcherProc.drop_path fw = "Inbox" :: WatcherProc.default_vault project_root /\
  final r = w /\
  Forall (fun a => Watcher.is_write a = false) (emitted r).
Proof.
  intros w r Hmain Hne Hpar. subst r.
  assert (Hdrop : WatcherProc.drop_path fw = "Inbox" :: WatcherProc.default_vault project_root).
  { unfold WatcherProc.main, WatcherProc.main_paths in Hmain. cbv zeta in Hmain.
    unfold try_except in Hmain. unfold bind at 1 in Hmain.
    pose proof (watcher_init_facts vault
                  (Some ("Inbox" :: WatcherProc.default_vault project_root)) 5 t)
      as (_ & _ & H3).
    destruct (WatcherProc.init vault _ 5 t) as [t1 e1 [fw'|e]]; cbn in *.
    - injection Hmain as <-. by destruct (H3 fw' eq_refl) as (-> & _).
    - by destruct e. }
  split; [done|].
  destruct (on_created_inv rt ev io w)
    as [H | [(h & _ & _ & Hf & _) | (h & _ & _ & Hf & _)]]; [done | |];
    exfalso; unfold Watcher.filtered_out in Hf;
    apply orb_false_iff in Hf as [_ Hout]; unfold Watcher.is_outside_drop in Hout;
    apply bool_decide_eq_false in Hout; apply Hout;
    subst w; cbn; rewrite Hpar, Hdrop; intros [= E]; by apply Hne.
Qed.

Lemma vault_argument_alone_watches_default_inbox_witness :
  let t := {[ ["my_vault"] := FS.Dir ]} : gmap path FS.node in
  let fw := {| WatcherProc.vault_path := ["my_vault"];
               WatcherProc.drop_path := ["Inbox"; "AI_Employee_Vault"; "project"];
               WatcherProc.check_interval := 5 |} in
  let w := {| Watcher.self := WatcherProc.event_handler fw; Watcher.disk := t |} in
  final (Watcher.on_created Sample.rt (Sample.created ["a.txt"; "Inbox"; "my_vault"])
           (Sample.readable "hello" Sample.t1) w) = w.
Proof.
  intros t fw w.
  apply (vault_argument_alone_watches_default_inbox Sample.rt ["project"] ["watcher.py"]
           ["my_vault"] t t fw (Sample.created ["a.txt"; "Inbox"; "my_vault"])
           (Sample.readable "hello" Sample.t1)).
  - vm_compute. reflexivity.
  - discriminate.
  - reflexivity.
Defined.

(** X21.  Two drops get the same record path exactly when their file names
    agree once spaces and dots are replaced by underscores and the clock
    reads the same second for both. *)
Theorem record_paths_collide_iff (src1 src2 : path) (io1 io2 : Watcher.outside)
    (w : Watcher.world) :
  Watcher.record_path src1 io1 w = Watcher.record_path src2 io2 w <->
  Text.replace "." "_" (Text.replace " " "_" (FS.name src1)) =
    Text.replace "." "_" (Text.replace " " "_" (FS.name src2)) /\
  strftime_stamp (Watcher.now_stamp io1) = strftime_stamp (Watcher.now_stamp io2).
Proof.
  unfold Watcher.record_path. split.
  - intros H. apply (f_equal FS.name) in H. cbn [FS.name] in H.
    by apply action_filename_inj in H.
  - intros [Hs Ht]. unfold Watcher.action_filename, Watcher.safe_name. by rewrite Hs, Ht.
Qed.

(** *** The main loop *)

(** X22.  In the main loop only the sleep between cycles blocks: the time
    blocked is at most [check_interval] seconds per cycle, and exactly that
    when the loop ends without an exception, in which case [running] is
    false and the handle of the watcher is the one it was. *)
Theorem main_loop_sleeps_after_every_cycle (win32 : bool) (h : Orch.host)
    (cycles : list Orch.outside) (w : Orch.world) :
  let r := Orch.main_loop win32 h cycles w in
  let interval_ms := (1000 * Z.to_nat (Orch.check_interval (Orch.self w)))%nat in
  (Orch.blocked_ms (emitted r) <= List.length cycles * interval_ms)%nat /\
  (outcome r = Ret tt ->
   Orch.blocked_ms (emitted r) = (List.length cycles * interval_ms)%nat /\
   Orch.running (Orch.self (final r)) = false /\
   Orch.watcher_process (Orch.self (final r)) = Orch.watcher_process (Orch.self w)).
Proof.
  intros r interval_ms. subst r interval_ms.
  destruct (main_loop_blocked win32 h cycles w) as [H1 H2].
  split; [done|]. intros Ho. destruct (H2 Ho) as [Hb Hs].
  split; [done|]. by rewrite Hs.
Qed.

Lemma main_loop_sleeps_after_every_cycle_witness :
  let r := Orch.main_loop true Sample.host_ok [Sample.qwen_ok; Sample.qwen_ok]
             (Sample.orchestrator Sample.busy_vault) in
  Orch.blocked_ms (emitted r) = (2 * (1000 * 30))%nat.
Proof.
  intros r.
  destruct (main_loop_sleeps_after_every_cycle true Sample.host_ok
              [Sample.qwen_ok; Sample.qwen_ok]
              (Sample.orchestrator Sample.busy_vault)) as [_ H].
  destruct H as [H _]; [vm_compute; reflexivity|].
  exact H.
Defined.

(** *** Drops that degrade *)

(** X23.  For an event that passes the filters, is not a duplicate and has
    a fingerprint, for a file whose path is well-formed UTF-8, in a vault
    where the record can be opened: the handler returns normally and the
    record is written; if the file could not be read, the fingerprint is its
    modification time; if its metadata could not be read, the record carries
    size 0 and the current time as both timestamps. *)
Theorem metadata_failure_falls_back (rt : Watcher.runtime) (ev : Watcher.event)
    (io : Watcher.outside) (w : Watcher.world) (h : string) (o : option string) :
  let src := Watcher.src_path ev in
  let r := Watcher.on_created rt ev io w in
  Watcher.filtered_out ev w = false ->
  outcome (Watcher._get_file_hash rt src io w) = Ret h ->
  h ∉ Watcher.processed_files (Watcher.self w) ->
  FS.open_w (Watcher.record_path src io w) (Watcher.disk w) = Ret o ->
  forallb Text.encodable src = true ->
  outcome r = Ret tt /\
  In (Wrote (Watcher.record_path src io w)) (emitted r) /\
  (forall e, Watcher.open_read io = Raise e ->
     exists st, Watcher.stat_hash io = Ret st /\
                h = Watcher.str_float rt (Watcher.st_mtime st)) /\
  (forall e, Watcher.stat_meta io = Raise e ->
     Watcher.disk (final r) !! Watcher.record_path src io w =
     Some (FS.File
       (Watcher.action_content (FS.name src) (FS.str src) 0
          (isoformat (Watcher.now_default io)) (isoformat (Watcher.now_default io))
          (isoformat (Watcher.now_detected io)) (strftime_human (Watcher.now_body io))))).
Proof.
  intros src r Hf Hh Hin Ho Henc. subst src r.
  rewrite <- (record_content_encodable rt _ io) in Henc.
  unfold Watcher.filtered_out in Hf.
  apply orb_false_iff in Hf as [Hf Hout]. apply orb_false_iff in Hf as [Hd Hhid].
  destruct (on_created_new rt ev io w h Hd Hh Hin Hhid Hout) as (Hok & Hfin & Hem).
  destruct (create_ret rt (Watcher.src_path ev) io w o Ho Henc) as (Hrc & Hself & Hw & Hc).
  rewrite Hrc in Hfin, Hem.
  split; [done|]. split; [| split].
  - rewrite Hem. apply in_or_app. right. right. right. apply in_or_app. by left.
  - intros e He. clear -Hh He.
    unfold Watcher._get_file_hash in Hh. py_unfold. cbn in Hh. rewrite He in Hh. cbn in Hh.
    destruct (Watcher.stat_hash io) as [st|e']; cbn in Hh; [|discriminate].
    exists st. split; [done|]. by injection Hh as <-.
  - intros e He. rewrite Hfin. cbn. rewrite Hc.
    unfold Watcher.record_content. by rewrite He.
Qed.

(** A file that cannot be opened and is gone when its metadata is read. *)
Lemma metadata_failure_falls_back_witness :
  let ev := Sample.created ("report.txt" :: Sample.inbox) in
  let io := Sample.locked_then_gone Sample.t1 in
  let r := Watcher.on_created Sample.rt ev io Sample.watcher0 in
  Watcher.filtered_out ev Sample.watcher0 = false /\
  outcome r = Ret tt /\
  In (Wrote (Watcher.record_path (Watcher.src_path ev) io Sample.watcher0)) (emitted r).
Proof.
  intros ev io r.
  split; [reflexivity|].
  pose proof (metadata_failure_falls_back Sample.rt ev io Sample.watcher0
                "1767603600.0" None) as H.
  cbv zeta in H.
  destruct H as (H1 & H2 & _).
  - reflexivity.
  - reflexivity.
  - apply not_elem_of_empty.
  - reflexivity.
  - vm_compute. reflexivity.
  - split; [exact H1 | exact H2].
Defined.

(** X24.  For an event that passes the filters, is not a duplicate and has
    a fingerprint, for a file whose path is not well-formed UTF-8, in a
    vault where the record can be opened: [write_text] creates or empties
    the record and then fails to encode the text.  The handler logs the
    error and returns; the record is left empty, nothing else on the disk
    has changed, nothing is copied, and the fingerprint is not remembered. *)
Theorem unencodable_path_leaves_empty_record (rt : Watcher.runtime) (ev : Watcher.event)
    (io : Watcher.outside) (w : Watcher.world) (h : string) (o : option string) :
  let src := Watcher.src_path ev in
  let record := Watcher.record_path src io w in
  let r := Watcher.on_created rt ev io w in
  Watcher.filtered_out ev w = false ->
  outcome (Watcher._get_file_hash rt src io w) = Ret h ->
  h ∉ Watcher.processed_files (Watcher.self w) ->
  FS.open_w record (Watcher.disk w) = Ret o ->
  forallb Text.encodable src = false ->
  outcome r = Ret tt /\
  final r = {| Watcher.self := Watcher.self w;
               Watcher.disk := <[record := FS.File ""]> (Watcher.disk w) |} /\
  Forall (fun a => Watcher.is_write a = false) (emitted r) /\
  In (Log ERROR "Error processing file") (emitted r).
Proof.
  intros src record r Hf Hh Hin Ho Henc. subst src record r.
  rewrite <- (record_content_encodable rt _ io) in Henc.
  unfold Watcher.filtered_out in Hf.
  apply orb_false_iff in Hf as [Hf Hout]. apply orb_false_iff in Hf as [Hd Hhid].
  destruct (on_created_new rt ev io w h Hd Hh Hin Hhid Hout) as (Hok & Hfin & Hem).
  destruct (create_unencodable rt (Watcher.src_path ev) io w o Ho Henc) as (Hrc & Hw & Hnone).
  rewrite Hrc in Hfin, Hem. rewrite Hfin, Hem, Hw.
  split; [done|]. split; [done|]. split.
  - apply Forall_app. split; [apply get_file_hash_no_write|]. repeat constructor.
    apply Forall_app. split; [done | by repeat constructor].
  - apply in_or_app. right. right. right. apply in_or_app. right. by left.
Qed.

(** A file whose name is in Latin-1. *)
Lemma unencodable_path_leaves_empty_record_witness :
  let ev := Sample.created (Sample.latin1_name :: Sample.inbox) in
  let io := Sample.readable "hello" Sample.t1 in
  let r := Watcher.on_created Sample.rt ev io Sample.watcher0 in
  outcome r = Ret tt /\
  Watcher.processed_files (Watcher.self (final r)) = ∅ /\
  Watcher.disk (final r) !! Watcher.record_path (Watcher.src_path ev) io Sample.watcher0
  = Some (FS.File "").
Proof.
  intros ev io r.
  pose proof (unencodable_path_leaves_empty_record Sample.rt ev io Sample.watcher0
                "md5:hello" None) as H.
  cbv zeta in H.
  destruct H as (H1 & H2 & _).
  - reflexivity.
  - reflexivity.
  - apply not_elem_of_empty.
  - vm_compute. reflexivity.
  - vm_compute. reflexivity.
  - split; [exact H1|]. fold r in H2. rewrite H2. split; [reflexivity|].
    cbn [Watcher.disk]. apply lookup_insert_eq.
Defined.
